(** * unreal-rc: the transports, the helpers and the client

    A shallow embedding of [packages/core]: the WebSocket transport (class
    [WebSocketTransport], in [transports/ws.ts]); the HTTP transport
    (class [HttpTransport], in [transports/http.ts]); the path builders
    and [parseReturnValue] of [helpers.ts]; and, of [client.ts], the batch
    part ([BatchBuilder] and [correlateBatchResponses]), the requests that
    the methods of [UnrealRC] build, [getProperty] and [createTransport].

    Conventions of the embedding.
    - A method of the class is a function from the object's fields to the
      new fields and the list of effects it had on the outside world
      (frames written, timers armed or cleared, promises settled).
    - An event-loop task (a method call, a socket event, a timer that fires)
      is a constructor of [Event]; [handle] runs the task together with the
      promise reactions it triggers, which the runtime runs before the next
      task.
    - JavaScript numbers that the code uses as counters, identifiers,
      time limits and sizes are integers ([Z], [nat]); the numbers decoded
      from an inbound frame keep the non-finite values and are rationals
      otherwise; the numbers the code calculates with, the settings and
      delays of the reconnect backoff, are IEEE 754 doubles. *)

From Stdlib Require Import ZArith QArith Qround String Ascii List Lia Bool.
From Stdlib Require SpecFloat.
From stdpp Require Import base option list gmap strings pretty.
Import ListNotations.

#[local] Set Warnings "-register-all".
Local Open Scope Z_scope.

(** ** JavaScript values *)

Module Js.

(** A number as [JSON.parse] or [Number(...)] can produce it. *)
Inductive JsNumber : Type :=
| NaN
| Infinity (negative : bool)
| Finite (q : Q).

(** The values a parsed frame is made of, and [undefined]. *)
Inductive JsValue : Type :=
| JsUndefined
| JsNull
| JsBoolean (b : bool)
| JsNum (n : JsNumber)
| JsString (s : string)
| JsArray (items : list JsValue)
| JsObject (fields : gmap string JsValue).

(** [Number.isFinite]. *)
Definition isFinite (n : JsNumber) : bool :=
  match n with
  | Finite _ => true
  | _ => false
  end.

(** [n >= k] for an integer literal [k]; false on [NaN]. *)
Definition geZ (n : JsNumber) (k : Z) : bool :=
  match n with
  | NaN => false
  | Infinity negative => negb negative
  | Finite q => Qle_bool (inject_Z k) q
  end.

(** [n < k] for an integer literal [k]; false on [NaN]. *)
Definition ltZ (n : JsNumber) (k : Z) : bool :=
  match n with
  | NaN => false
  | Infinity negative => negative
  | Finite q => negb (Qle_bool (inject_Z k) q)
  end.

(** The integer a finite number is equal to, when there is one: a [Map]
    whose keys are integers finds an entry for a number exactly then. *)
Definition asInteger (q : Q) : option Z :=
  if Qeq_bool (inject_Z (Qfloor q)) q then Some (Qfloor q) else None.

(** What a property read [v.name] gives: [None] stands for the [TypeError]
    of a read on [null] or [undefined]. A parsed array, string, number or
    boolean has none of the properties the transport reads. *)
Definition getProperty (v : JsValue) (name : string) : option JsValue :=
  match v with
  | JsUndefined | JsNull => None
  | JsObject fields => Some (default JsUndefined (fields !! name))
  | _ => Some JsUndefined
  end.

Section Coercion.

(** [Number(s)] on a string and [Number(o)] on an array or object are the
    runtime's. *)
Variable stringToNumber : string -> JsNumber.
Variable objectToNumber : JsValue -> JsNumber.

(** [typeof v === "number" ? v : Number(v)]. *)
Definition toNumber (v : JsValue) : JsNumber :=
  match v with
  | JsNum n => n
  | JsUndefined => NaN
  | JsNull => Finite 0
  | JsBoolean b => Finite (if b then 1 else 0)
  | JsString s => stringToNumber s
  | JsArray _ | JsObject _ => objectToNumber v
  end.

End Coercion.

(** A number the code calculates with: an IEEE 754 double, with the
    operations of the standard (round to nearest, ties to even). *)
Definition double : Type := SpecFloat.spec_float.

(** The double nearest to an integer. *)
Definition ofZ (z : Z) : double := SpecFloat.binary_normalize 53 1024 z 0 false.

(** [a * b]. *)
Definition times (a b : double) : double := SpecFloat.SFmul 53 1024 a b.

(** [Math.min(a, b)]: [NaN] when one of the two is, and [-0] below [+0]. *)
Definition Math_min (a b : double) : double :=
  match SpecFloat.SFcompare a b with
  | None => SpecFloat.S754_nan
  | Some Lt => a
  | Some Gt => b
  | Some Eq =>
      match a with
      | SpecFloat.S754_zero true => a
      | _ => b
      end
  end.

(** The double that is 2 to the power [n]. *)
Definition powerOfTwo (n : nat) : double :=
  if (n <=? 1023)%nat
  then SpecFloat.S754_finite false (2 ^ 52) (Z.of_nat n - 52)
  else SpecFloat.S754_infinity false.

(** Whether two doubles are the same value, [NaN] included and the two
    zeros apart. *)
Definition sameDouble (a b : double) : bool :=
  match a, b with
  | SpecFloat.S754_zero s, SpecFloat.S754_zero s' => Bool.eqb s s'
  | SpecFloat.S754_infinity s, SpecFloat.S754_infinity s' => Bool.eqb s s'
  | SpecFloat.S754_nan, SpecFloat.S754_nan => true
  | SpecFloat.S754_finite s m e, SpecFloat.S754_finite s' m' e' =>
      Bool.eqb s s' && Pos.eqb m m' && Z.eqb e e'
  | _, _ => false
  end.

End Js.
Export Js.

(** ** The WebSocket transport: data *)

Module Ws.

Inductive HttpVerb : Type := GET | PUT | POST | PATCH | DELETE.

Inductive DisconnectedBehavior : Type := queue | reject.

(** [WebSocket.readyState]. *)
Inductive ReadyState : Type := CONNECTING | OPEN | CLOSING | CLOSED.

Definition ReadyState_eqb (a b : ReadyState) : bool :=
  match a, b with
  | CONNECTING, CONNECTING | OPEN, OPEN | CLOSING, CLOSING | CLOSED, CLOSED => true
  | _, _ => false
  end.

(** [WebSocketTransportOptions]: every field is optional. *)
Record WebSocketTransportOptions : Type := {
  opt_baseUrl : option string;
  opt_host : option string;
  opt_port : option Z;
  opt_secure : option bool;
  opt_connectTimeoutMs : option Z;
  opt_requestTimeoutMs : option Z;
  opt_pingIntervalMs : option Z;
  opt_autoReconnect : option bool;
  opt_reconnectInitialDelayMs : option double;
  opt_reconnectMaxDelayMs : option double;
  opt_reconnectBackoffFactor : option double;
  opt_disconnectedBehavior : option DisconnectedBehavior;
  opt_maxQueueSize : option Z
}.

Definition no_options : WebSocketTransportOptions :=
  {| opt_baseUrl := None; opt_host := None; opt_port := None;
     opt_secure := None; opt_connectTimeoutMs := None;
     opt_requestTimeoutMs := None; opt_pingIntervalMs := None;
     opt_autoReconnect := None; opt_reconnectInitialDelayMs := None;
     opt_reconnectMaxDelayMs := None; opt_reconnectBackoffFactor := None;
     opt_disconnectedBehavior := None; opt_maxQueueSize := None |}.

Definition DEFAULT_HOST : string := "127.0.0.1".
Definition DEFAULT_PORT : Z := 30020.
Definition DEFAULT_CONNECT_TIMEOUT_MS : Z := 7000.
Definition DEFAULT_REQUEST_TIMEOUT_MS : Z := 15000.
Definition DEFAULT_PING_INTERVAL_MS : Z := 25000.
Definition DEFAULT_RECONNECT_INITIAL_DELAY_MS : double := ofZ 250.
Definition DEFAULT_RECONNECT_MAX_DELAY_MS : double := ofZ 5000.
Definition DEFAULT_RECONNECT_BACKOFF_FACTOR : double := ofZ 2.
Definition DEFAULT_MAX_QUEUE_SIZE : Z := 500.

(** The [readonly] fields of the class. The three settings of the backoff
    are doubles, for the code multiplies and raises them to a power; the
    other numbers are only compared and handed on, and are integers
    here. *)
Record Config : Type := {
  url : string;
  connectTimeoutMs : Z;
  requestTimeoutMs : Z;
  pingIntervalMs : Z;
  autoReconnect : bool;
  reconnectInitialDelayMs : double;
  reconnectMaxDelayMs : double;
  reconnectBackoffFactor : double;
  disconnectedBehavior : DisconnectedBehavior;
  maxQueueSize : Z
}.

(** The message of a [TransportRequestError]; a template literal is a
    constructor that carries the interpolated number. *)
Inductive ErrorMessage : Type :=
| CannotConnectDisposed      (* "Cannot connect a disposed transport" *)
| ConnectTimedOut            (* "WebSocket connect timed out" *)
| ClosedDuringConnect        (* "WebSocket closed during connect" *)
| ErrorDuringConnect         (* "WebSocket error during connect" *)
| IsDisconnected             (* "WebSocket is disconnected" *)
| QueueLimitReached (maxQueue : Z)
    (* `WebSocket queue limit reached (${maxQueueSize}); request rejected` *)
| DisconnectedNoAutoReconnect
    (* "WebSocket is disconnected and auto-reconnect is disabled" *)
| TransportDisposed          (* "Transport disposed" *)
| DisconnectedBeforeResponses
    (* "WebSocket disconnected before responses were received" *)
| NotConnected               (* "WebSocket is not connected" *)
| FailedToSend               (* "Failed to send WebSocket request" *)
| RemoteFailedWithStatus (code : Q)
    (* `Remote request failed with status ${responseCode}` *)
| RemoteFailed               (* "Remote request failed" *)
| RequestTimedOut (ms : Z).
    (* `WebSocket request timed out after ${timeoutMs}ms` *)

(** [TransportRequestError]: [statusCode] and [details] are set only when
    the options object has the key. *)
Record TransportRequestError : Type := {
  message : ErrorMessage;
  statusCode : option Q;
  details : option JsValue
}.

Definition plainError (m : ErrorMessage) : TransportRequestError :=
  {| message := m; statusCode := None; details := None |}.

(** What one [socket.send] will do: throw or not, and the [readyState] the
    socket shows afterwards. *)
Record SendOutcome : Type := {
  send_throws : bool;
  state_after : ReadyState
}.

(** A [WebSocket] object: its identity, its [readyState], and what its next
    [send]s will do (the network's choice; past the end of the list a send
    succeeds and leaves the state as it is). *)
Record WebSocket : Type := {
  ws_id : nat;
  readyState : ReadyState;
  ws_future : list SendOutcome
}.

Definition ws_with_state (r : ReadyState) (w : WebSocket) : WebSocket :=
  {| ws_id := ws_id w; readyState := r; ws_future := ws_future w |}.

(** [socket.send(data)]: whether it threw, and the socket afterwards. *)
Definition ws_send (w : WebSocket) : bool * WebSocket :=
  match ws_future w with
  | [] => (false, w)
  | o :: rest =>
      (send_throws o,
       {| ws_id := ws_id w; readyState := state_after o; ws_future := rest |})
  end.

(** [OutboundRequest]. The [resolve] and [reject] closures belong to the
    promise that the same [request] invocation created, which drew
    [requestId]; the embedding names that promise by this number. [timer]
    holds the delay the timeout was armed with. *)
Record OutboundRequest : Type := {
  requestId : Z;
  verb : HttpVerb;
  target : string;
  body : JsValue;
  timeoutMs : Z;
  timer : option Z
}.

Definition with_timer (ms : Z) (r : OutboundRequest) : OutboundRequest :=
  {| requestId := requestId r; verb := verb r; target := target r;
     body := body r; timeoutMs := timeoutMs r; timer := Some ms |}.

(** The [Parameters] of an outbound envelope [{MessageName: "http", ...}]. *)
Record Envelope : Type := {
  RequestId : Z;
  Url : string;
  Verb : HttpVerb;
  Body : option JsValue
}.

Inductive Frame : Type :=
| HttpFrame (parameters : Envelope)
| PingFrame.

Inductive Timer : Type :=
| ConnectTimer (socket : nat)
| ReconnectTimer
| PingTimer
| RequestTimer (request : Z).

(** How the promise of a [connect()] call ends: fulfilled, rejected with
    an error of the transport, or rejected with what [new WebSocket] threw
    in the promise executor. *)
Inductive Settlement : Type :=
| Fulfilled
| Rejected (e : TransportRequestError)
| RejectedByConstructor.

(** The effects of the transport on the outside world. *)
Inductive Effect : Type :=
| Resolve (request : Z) (value : JsValue)
| Reject (request : Z) (e : TransportRequestError)
| NewWebSocket (socket : nat) (url : string)
| Send (socket : nat) (frame : Frame)
| Close (socket : nat) (code : option Z)
| SetTimeout (t : Timer) (ms : Z)
| SetReconnectTimeout (ms : double)   (* the [setTimeout] of a reconnect *)
| ClearTimeout (t : Timer)
| SetInterval (t : Timer) (ms : Z)
| ClearInterval (t : Timer)
| ConnectSettled (outcome : Settlement)
| UncaughtTypeError.

(** The [catch] handlers that the class itself hangs on a [connect()]
    promise: the one of [request], the one of the reconnect timer, and none
    for a call from outside. *)
Inductive Catcher : Type :=
| CatchOutside
| CatchOfRequest
| CatchOfReconnect.

(** A connection attempt in flight ([connectPromise]): the socket of the
    promise executor and the handlers waiting on the promise. *)
Record ConnectAttempt : Type := {
  attempt_socket : WebSocket;
  attempt_catchers : list Catcher
}.

(** A [Map<number, V>] with integer keys, in insertion order. *)
Module JsMap.

Definition t (V : Type) : Type := list (Z * V).

Definition get {V} (k : Z) (m : t V) : option V :=
  snd <$> List.find (fun kv => Z.eqb (fst kv) k) m.

Definition delete {V} (k : Z) (m : t V) : t V :=
  List.filter (fun kv => negb (Z.eqb (fst kv) k)) m.

(** [set] keeps the position of a key that is present. *)
Fixpoint set {V} (k : Z) (v : V) (m : t V) : t V :=
  match m with
  | [] => [(k, v)]
  | (k', v') :: rest =>
      if Z.eqb k' k then (k, v) :: rest else (k', v') :: set k v rest
  end.

Definition values {V} (m : t V) : list V := List.map snd m.

Definition keys {V} (m : t V) : list Z := List.map fst m.

(** [get] with a number that need not be an integer. *)
Definition getNumber {V} (q : Q) (m : t V) : option V :=
  match asInteger q with
  | Some k => get k m
  | None => None
  end.

Definition deleteNumber {V} (q : Q) (m : t V) : t V :=
  match asInteger q with
  | Some k => delete k m
  | None => m
  end.

End JsMap.

(** The fields of a [WebSocketTransport]. [socketsCreated] is not a field
    of the class: it numbers the [WebSocket] objects, so that two of them
    can be told apart as [!==] does. *)
Record Transport : Type := {
  options : Config;
  socket : option WebSocket;
  connectPromise : option ConnectAttempt;
  reconnectTimer : option double;
  pingTimer : option Z;
  reconnectAttempt : nat;
  nextRequestId : Z;
  disposed : bool;
  connectedState : bool;
  pendingRequests : JsMap.t OutboundRequest;
  queuedRequests : list OutboundRequest;
  socketsCreated : nat
}.

(** The constructor. *)
Definition new (o : WebSocketTransportOptions) : Transport :=
  {| options :=
       {| url :=
            default
              ((if default false (opt_secure o) then "wss" else "ws")
               +:+ "://" +:+ default DEFAULT_HOST (opt_host o)
               +:+ ":" +:+ pretty (default DEFAULT_PORT (opt_port o)))
              (opt_baseUrl o);
          connectTimeoutMs :=
            default DEFAULT_CONNECT_TIMEOUT_MS (opt_connectTimeoutMs o);
          requestTimeoutMs :=
            default DEFAULT_REQUEST_TIMEOUT_MS (opt_requestTimeoutMs o);
          pingIntervalMs :=
            default DEFAULT_PING_INTERVAL_MS (opt_pingIntervalMs o);
          autoReconnect := default true (opt_autoReconnect o);
          reconnectInitialDelayMs :=
            default DEFAULT_RECONNECT_INITIAL_DELAY_MS
              (opt_reconnectInitialDelayMs o);
          reconnectMaxDelayMs :=
            default DEFAULT_RECONNECT_MAX_DELAY_MS (opt_reconnectMaxDelayMs o);
          reconnectBackoffFactor :=
            default DEFAULT_RECONNECT_BACKOFF_FACTOR
              (opt_reconnectBackoffFactor o);
          disconnectedBehavior := default queue (opt_disconnectedBehavior o);
          maxQueueSize := default DEFAULT_MAX_QUEUE_SIZE (opt_maxQueueSize o) |};
     socket := None;
     connectPromise := None;
     reconnectTimer := None;
     pingTimer := None;
     reconnectAttempt := 0%nat;
     nextRequestId := 1;
     disposed := false;
     connectedState := false;
     pendingRequests := [];
     queuedRequests := [];
     socketsCreated := 0%nat |}.

(** Assignments to the fields. *)

Definition set_socket (v : option WebSocket) (t : Transport) : Transport :=
  {| options := options t; socket := v; connectPromise := connectPromise t;
     reconnectTimer := reconnectTimer t; pingTimer := pingTimer t;
     reconnectAttempt := reconnectAttempt t;
     nextRequestId := nextRequestId t; disposed := disposed t;
     connectedState := connectedState t;
     pendingRequests := pendingRequests t;
     queuedRequests := queuedRequests t;
     socketsCreated := socketsCreated t |}.

Definition set_connectPromise (v : option ConnectAttempt) (t : Transport) : Transport :=
  {| options := options t; socket := socket t; connectPromise := v;
     reconnectTimer := reconnectTimer t; pingTimer := pingTimer t;
     reconnectAttempt := reconnectAttempt t;
     nextRequestId := nextRequestId t; disposed := disposed t;
     connectedState := connectedState t;
     pendingRequests := pendingRequests t;
     queuedRequests := queuedRequests t;
     socketsCreated := socketsCreated t |}.

Definition set_reconnectTimer (v : option double) (t : Transport) : Transport :=
  {| options := options t; socket := socket t;
     connectPromise := connectPromise t; reconnectTimer := v;
     pingTimer := pingTimer t; reconnectAttempt := reconnectAttempt t;
     nextRequestId := nextRequestId t; disposed := disposed t;
     connectedState := connectedState t;
     pendingRequests := pendingRequests t;
     queuedRequests := queuedRequests t;
     socketsCreated := socketsCreated t |}.

Definition set_pingTimer (v : option Z) (t : Transport) : Transport :=
  {| options := options t; socket := socket t;
     connectPromise := connectPromise t; reconnectTimer := reconnectTimer t;
     pingTimer := v; reconnectAttempt := reconnectAttempt t;
     nextRequestId := nextRequestId t; disposed := disposed t;
     connectedState := connectedState t;
     pendingRequests := pendingRequests t;
     queuedRequests := queuedRequests t;
     socketsCreated := socketsCreated t |}.

Definition set_reconnectAttempt (v : nat) (t : Transport) : Transport :=
  {| options := options t; socket := socket t;
     connectPromise := connectPromise t; reconnectTimer := reconnectTimer t;
     pingTimer := pingTimer t; reconnectAttempt := v;
     nextRequestId := nextRequestId t; disposed := disposed t;
     connectedState := connectedState t;
     pendingRequests := pendingRequests t;
     queuedRequests := queuedRequests t;
     socketsCreated := socketsCreated t |}.

Definition set_nextRequestId (v : Z) (t : Transport) : Transport :=
  {| options := options t; socket := socket t;
     connectPromise := connectPromise t; reconnectTimer := reconnectTimer t;
     pingTimer := pingTimer t; reconnectAttempt := reconnectAttempt t;
     nextRequestId := v; disposed := disposed t;
     connectedState := connectedState t;
     pendingRequests := pendingRequests t;
     queuedRequests := queuedRequests t;
     socketsCreated := socketsCreated t |}.

Definition set_disposed (v : bool) (t : Transport) : Transport :=
  {| options := options t; socket := socket t;
     connectPromise := connectPromise t; reconnectTimer := reconnectTimer t;
     pingTimer := pingTimer t; reconnectAttempt := reconnectAttempt t;
     nextRequestId := nextRequestId t; disposed := v;
     connectedState := connectedState t;
     pendingRequests := pendingRequests t;
     queuedRequests := queuedRequests t;
     socketsCreated := socketsCreated t |}.

Definition set_connectedState (v : bool) (t : Transport) : Transport :=
  {| options := options t; socket := socket t;
     connectPromise := connectPromise t; reconnectTimer := reconnectTimer t;
     pingTimer := pingTimer t; reconnectAttempt := reconnectAttempt t;
     nextRequestId := nextRequestId t; disposed := disposed t;
     connectedState := v; pendingRequests := pendingRequests t;
     queuedRequests := queuedRequests t;
     socketsCreated := socketsCreated t |}.

Definition set_pendingRequests (v : JsMap.t OutboundRequest) (t : Transport) : Transport :=
  {| options := options t; socket := socket t;
     connectPromise := connectPromise t; reconnectTimer := reconnectTimer t;
     pingTimer := pingTimer t; reconnectAttempt := reconnectAttempt t;
     nextRequestId := nextRequestId t; disposed := disposed t;
     connectedState := connectedState t; pendingRequests := v;
     queuedRequests := queuedRequests t;
     socketsCreated := socketsCreated t |}.

Definition set_queuedRequests (v : list OutboundRequest) (t : Transport) : Transport :=
  {| options := options t; socket := socket t;
     connectPromise := connectPromise t; reconnectTimer := reconnectTimer t;
     pingTimer := pingTimer t; reconnectAttempt := reconnectAttempt t;
     nextRequestId := nextRequestId t; disposed := disposed t;
     connectedState := connectedState t;
     pendingRequests := pendingRequests t; queuedRequests := v;
     socketsCreated := socketsCreated t |}.

Definition set_socketsCreated (v : nat) (t : Transport) : Transport :=
  {| options := options t; socket := socket t;
     connectPromise := connectPromise t; reconnectTimer := reconnectTimer t;
     pingTimer := pingTimer t; reconnectAttempt := reconnectAttempt t;
     nextRequestId := nextRequestId t; disposed := disposed t;
     connectedState := connectedState t;
     pendingRequests := pendingRequests t;
     queuedRequests := queuedRequests t; socketsCreated := v |}.

(** ** The WebSocket transport: methods *)

(** [event.data] of a message event. *)
Inductive MessageData : Type :=
| TextData (s : string)
| BufferData (bytes : list Byte.byte)
| OtherData.

(** The functions of the runtime that the transport calls. [JSON_parse]
    gives [None] where [JSON.parse] throws. [WebSocket_throws] tells
    whether [new WebSocket(url)] throws, as it does on a URL it cannot
    take. [exponentiate base n] is [base ** n] for a count [n]; the
    standard leaves the precision of [**] to the implementation. *)
Record Runtime : Type := {
  JSON_parse : string -> option JsValue;
  TextDecoder_decode : list Byte.byte -> string;
  stringToNumber : string -> JsNumber;
  objectToNumber : JsValue -> JsNumber;
  WebSocket_throws : string -> bool;
  exponentiate : double -> nat -> double
}.

(** A method body: the fields afterwards and the effects, in order. *)
Definition Action : Type := Transport -> Transport * list Effect.

Definition skip : Action := fun t => (t, []).

Definition emit (e : Effect) : Action := fun t => (t, [e]).

Definition assign (f : Transport -> Transport) : Action := fun t => (f t, []).

Definition andThen (a b : Action) : Action :=
  fun t =>
    let '(t1, e1) := a t in
    let '(t2, e2) := b t1 in
    (t2, e1 ++ e2).

Notation "a >> b" := (andThen a b) (at level 61, left associativity).

Definition runAll {A} (f : A -> Action) (l : list A) : Action :=
  List.fold_right (fun x k => f x >> k) skip l.

(** [this.socket?.readyState === WebSocket.OPEN]. *)
Definition socketIsOpen (t : Transport) : bool :=
  match socket t with
  | Some w => ReadyState_eqb (readyState w) OPEN
  | None => false
  end.

Definition stopPing : Action :=
  fun t =>
    match pingTimer t with
    | Some _ => (set_pingTimer None t, [ClearInterval PingTimer])
    | None => (t, [])
    end.

Section Methods.

Variable rt : Runtime.

Definition startPing : Action :=
  stopPing >>
  fun t =>
    if pingIntervalMs (options t) <=? 0 then (t, [])
    else (set_pingTimer (Some (pingIntervalMs (options t))) t,
          [SetInterval PingTimer (pingIntervalMs (options t))]).

(** [Math.min(initial * factor ** attempt, max)]. *)
Definition reconnectDelay (c : Config) (attempt : nat) : double :=
  Math_min
    (times (reconnectInitialDelayMs c)
       (exponentiate rt (reconnectBackoffFactor c) attempt))
    (reconnectMaxDelayMs c).

Definition scheduleReconnect : Action :=
  fun t =>
    if negb (autoReconnect (options t)) || disposed t
       || bool_decide (is_Some (reconnectTimer t))
    then (t, [])
    else
      let delay := reconnectDelay (options t) (reconnectAttempt t) in
      (set_reconnectTimer (Some delay)
         (set_reconnectAttempt (S (reconnectAttempt t)) t),
       [SetReconnectTimeout delay]).

Definition clearRequestTimer (r : OutboundRequest) : list Effect :=
  match timer r with
  | Some _ => [ClearTimeout (RequestTimer (requestId r))]
  | None => []
  end.

(** The effects of [rejectPendingRequests] on the map [m]: the loop over
    its values. *)
Definition rejectAll (msg : ErrorMessage) (m : JsMap.t OutboundRequest)
  : list Effect :=
  List.flat_map
    (fun r => clearRequestTimer r ++ [Reject (requestId r) (plainError msg)])
    (JsMap.values m).

Definition rejectPendingRequests (m : ErrorMessage) : Action :=
  fun t => (set_pendingRequests [] t, rejectAll m (pendingRequests t)).

(** The loop of [rejectQueuedRequests], on the queue it empties. *)
Fixpoint rejectQueuedLoop (m : ErrorMessage) (q : list OutboundRequest)
  : list Effect :=
  match q with
  | [] => []
  | r :: rest => Reject (requestId r) (plainError m) :: rejectQueuedLoop m rest
  end.

Definition rejectQueuedRequests (m : ErrorMessage) : Action :=
  fun t => (set_queuedRequests [] t, rejectQueuedLoop m (queuedRequests t)).

Definition envelopeOf (r : OutboundRequest) : Envelope :=
  {| RequestId := requestId r;
     Url := target r;
     Verb := verb r;
     Body := match body r with
             | JsUndefined => None
             | b => Some b
             end |}.

Definition sendRequest (r : OutboundRequest) : Action :=
  fun t =>
    match socket t with
    | None => (t, [Reject (requestId r) (plainError NotConnected)])
    | Some w =>
        if negb (ReadyState_eqb (readyState w) OPEN)
        then (t, [Reject (requestId r) (plainError NotConnected)])
        else
          let '(threw, w') := ws_send w in
          let t1 := set_socket (Some w') t in
          if threw
          then (t1, [Reject (requestId r) (plainError FailedToSend)])
          else
            (set_pendingRequests
               (JsMap.set (requestId r) (with_timer (timeoutMs r) r)
                  (pendingRequests t1)) t1,
             [Send (ws_id w) (HttpFrame (envelopeOf r));
              SetTimeout (RequestTimer (requestId r)) (timeoutMs r)])
    end.

(** The loop of [flushQueuedRequests]; [q] is [this.queuedRequests] at the
    loop test. *)
Fixpoint flushLoop (q : list OutboundRequest) (t : Transport)
  : Transport * list Effect :=
  match q with
  | [] => (t, [])
  | next :: rest =>
      let t1 := set_queuedRequests rest t in
      if negb (connectedState t1) || negb (socketIsOpen t1)
      then (set_queuedRequests (next :: rest) t1, [])
      else
        let '(t2, e2) := sendRequest next t1 in
        let '(t3, e3) := flushLoop rest t2 in
        (t3, e2 ++ e3)
  end.

Definition flushQueuedRequests : Action :=
  fun t => flushLoop (queuedRequests t) t.

(** The [catch] handler that a caller of [connect()] attached. *)
Definition runCatcher (c : Catcher) : Action :=
  match c with
  | CatchOutside => skip
  | CatchOfRequest =>
      fun t =>
        if negb (autoReconnect (options t))
        then rejectQueuedRequests DisconnectedNoAutoReconnect t
        else (t, [])
  | CatchOfReconnect => scheduleReconnect
  end.

(** [connect()], called with the handler [c] on its promise. A promise that
    is already rejected runs the handler at once. Where [new WebSocket]
    throws, the executor has done nothing yet: the promise is rejected,
    [finally] clears [connectPromise] again, and the handler runs, all
    before the next task. *)
Definition connect (c : Catcher) : Action :=
  fun t =>
    if disposed t
    then
      (emit (ConnectSettled (Rejected (plainError CannotConnectDisposed)))
       >> runCatcher c) t
    else if connectedState t then (t, [ConnectSettled Fulfilled])
    else
      match connectPromise t with
      | Some a =>
          (set_connectPromise
             (Some {| attempt_socket := attempt_socket a;
                      attempt_catchers := attempt_catchers a ++ [c] |}) t,
           [])
      | None =>
          if WebSocket_throws rt (url (options t))
          then (emit (ConnectSettled RejectedByConstructor) >> runCatcher c) t
          else
          let id := socketsCreated t in
          (set_connectPromise
             (Some {| attempt_socket :=
                        {| ws_id := id; readyState := CONNECTING;
                           ws_future := [] |};
                      attempt_catchers := [c] |})
             (set_socketsCreated (S id) t),
           [NewWebSocket id (url (options t));
            SetTimeout (ConnectTimer id) (connectTimeoutMs (options t))])
      end.

(** The connect promise settles: [finally] clears [connectPromise], and a
    rejection then runs the handlers in the order they were attached. *)
Definition settleConnect (a : ConnectAttempt) (outcome : Settlement) : Action :=
  assign (set_connectPromise None) >>
  emit (ConnectSettled outcome) >>
  match outcome with
  | Fulfilled => skip
  | Rejected _ | RejectedByConstructor =>
      runAll runCatcher (attempt_catchers a)
  end.

Definition attachSocket (w : WebSocket) : Action :=
  assign (set_socket (Some w)).

(** The [open] event of the attempt's socket; [future] is what the network
    will do to the sends on the opened socket. *)
Definition onOpen (future : list SendOutcome) : Action :=
  fun t =>
    match connectPromise t with
    | None => (t, [])
    | Some a =>
        let id := ws_id (attempt_socket a) in
        (emit (ClearTimeout (ConnectTimer id)) >>
         attachSocket {| ws_id := id; readyState := OPEN; ws_future := future |} >>
         assign (set_connectedState true) >>
         assign (set_reconnectAttempt 0%nat) >>
         startPing >>
         flushQueuedRequests >>
         settleConnect a Fulfilled) t
    end.

(** The three ways an attempt fails. *)
Inductive ConnectFailure : Type :=
| TimedOut
| ClosedBeforeOpen
| ErrorBeforeOpen.

Definition failureMessage (f : ConnectFailure) : ErrorMessage :=
  match f with
  | TimedOut => ConnectTimedOut
  | ClosedBeforeOpen => ClosedDuringConnect
  | ErrorBeforeOpen => ErrorDuringConnect
  end.

(** The connect timeout, [onCloseBeforeOpen] and [onErrorBeforeOpen]. *)
Definition onConnectFailure (f : ConnectFailure) : Action :=
  fun t =>
    match connectPromise t with
    | None => (t, [])
    | Some a =>
        let id := ws_id (attempt_socket a) in
        (emit (ClearTimeout (ConnectTimer id)) >>
         match f with
         | ClosedBeforeOpen => skip
         | TimedOut | ErrorBeforeOpen => emit (Close id None)
         end >>
         scheduleReconnect >>
         settleConnect a (Rejected (plainError (failureMessage f)))) t
    end.

Definition onClose : Action :=
  assign (set_connectedState false) >>
  stopPing >>
  (fun t =>
     match socket t with
     | Some _ => (set_socket None t, [])
     | None => (t, [])
     end) >>
  rejectPendingRequests DisconnectedBeforeResponses >>
  fun t => if negb (disposed t) then scheduleReconnect t else (t, []).

Definition request (v : HttpVerb) (u : string) (b : JsValue)
  (timeout : option Z) : Action :=
  fun t =>
    let timeoutMs := default (requestTimeoutMs (options t)) timeout in
    let requestId := nextRequestId t in
    let t1 := set_nextRequestId (requestId + 1) t in
    let outbound :=
      {| requestId := requestId; verb := v; target := u; body := b;
         timeoutMs := timeoutMs; timer := None |} in
    if connectedState t1 && socketIsOpen t1 then sendRequest outbound t1
    else
      match disconnectedBehavior (options t1) with
      | reject => (t1, [Reject requestId (plainError IsDisconnected)])
      | queue =>
          if Z.of_nat (length (queuedRequests t1)) >=? maxQueueSize (options t1)
          then
            (t1,
             [Reject requestId
                (plainError (QueueLimitReached (maxQueueSize (options t1))))])
          else
            (assign (set_queuedRequests (queuedRequests t1 ++ [outbound])) >>
             connect CatchOfRequest) t1
      end.

Definition dispose : Action :=
  assign (set_disposed true) >>
  assign (set_connectedState false) >>
  stopPing >>
  (fun t =>
     match reconnectTimer t with
     | Some _ => (set_reconnectTimer None t, [ClearTimeout ReconnectTimer])
     | None => (t, [])
     end) >>
  rejectPendingRequests TransportDisposed >>
  rejectQueuedRequests TransportDisposed >>
  fun t =>
    match socket t with
    | Some w =>
        (set_socket None t,
         match readyState w with
         | OPEN | CONNECTING => [Close (ws_id w) (Some 1000)]
         | _ => []
         end)
    | None => (t, [])
    end.

(** The callback of a request's timeout. The runtime runs it only while
    the timer is armed, which is while the request is in
    [pendingRequests]. *)
Definition onRequestTimer (id : Z) : Action :=
  fun t =>
    match JsMap.get id (pendingRequests t) with
    | Some r =>
        (set_pendingRequests (JsMap.delete (requestId r) (pendingRequests t)) t,
         [Reject (requestId r) (plainError (RequestTimedOut (timeoutMs r)))])
    | None => (t, [])
    end.

(** The callback of the reconnect timer. *)
Definition onReconnectTimer : Action :=
  fun t =>
    match reconnectTimer t with
    | Some _ => (assign (set_reconnectTimer None) >> connect CatchOfReconnect) t
    | None => (t, [])
    end.

(** The callback of the ping interval. *)
Definition onPingTimer : Action :=
  fun t =>
    match pingTimer t, socket t with
    | Some _, Some w =>
        if ReadyState_eqb (readyState w) OPEN
        then
          let '(threw, w') := ws_send w in
          (set_socket (Some w') t,
           if threw then [] else [Send (ws_id w) PingFrame])
        else (t, [])
    | _, _ => (t, [])
    end.

Definition numberOf (v : JsValue) : JsNumber :=
  toNumber (stringToNumber rt) (objectToNumber rt) v.

(** The settlement of [pending] by a frame that carries [responseCode]
    and [responseBody]. *)
Definition settleFromFrame (pending : OutboundRequest)
  (responseCode : JsNumber) (responseBody : JsValue) : Effect :=
  if isFinite responseCode && geZ responseCode 200 && ltZ responseCode 300
  then Resolve (requestId pending) responseBody
  else
    Reject (requestId pending)
      match responseCode with
      | Finite code =>
          {| message := RemoteFailedWithStatus code;
             statusCode := Some code;
             details := Some responseBody |}
      | _ =>
          {| message := RemoteFailed;
             statusCode := None;
             details := Some responseBody |}
      end.

(** The payload [onMessage] goes on with: [None] where it returns early
    because the data is neither a string nor an [ArrayBuffer], the text
    is empty, or [JSON.parse] throws. *)
Definition readPayload (data : MessageData) : option JsValue :=
  let raw :=
    match data with
    | TextData s => Some s
    | BufferData bytes => Some (TextDecoder_decode rt bytes)
    | OtherData => None
    end in
  match raw with
  | None => None
  | Some EmptyString => None
  | Some raw => JSON_parse rt raw
  end.

Definition onMessage (data : MessageData) : Action :=
  fun t =>
    match readPayload data with
    | None => (t, [])
    | Some payload =>
        match getProperty payload "RequestId" with
        | None => (t, [UncaughtTypeError])
        | Some requestIdValue =>
            match numberOf requestIdValue with
            | Finite requestId =>
                match JsMap.getNumber requestId (pendingRequests t) with
                | None => (t, [])
                | Some pending =>
                    (set_pendingRequests
                       (JsMap.deleteNumber requestId (pendingRequests t)) t,
                     clearRequestTimer pending ++
                     [settleFromFrame pending
                        (numberOf
                           (default JsUndefined
                              (getProperty payload "ResponseCode")))
                        (default JsUndefined
                           (getProperty payload "ResponseBody"))])
                end
            | _ => (t, [])
            end
        end
    end.

(** ** The event loop *)

(** The tasks that touch a transport: calls of its public methods, events
    of its sockets, its timers, and a change of the attached socket's
    [readyState] by the runtime. *)
Inductive Event : Type :=
| CallConnect
| CallRequest (v : HttpVerb) (u : string) (b : JsValue) (timeout : option Z)
| CallDispose
| SocketOpened (future : list SendOutcome)
| ConnectFailed (f : ConnectFailure)
| SocketMessage (data : MessageData)
| SocketClosed
| SocketError
| SocketStateChanged (r : ReadyState)
| ReconnectTimerFired
| PingTimerFired
| RequestTimerFired (id : Z).

(** One task. The listeners [onMessage], [onClose] and [onError] are on the
    socket in [socket] and on no other. *)
Definition handle (e : Event) : Action :=
  match e with
  | CallConnect => connect CatchOutside
  | CallRequest v u b timeout => request v u b timeout
  | CallDispose => dispose
  | SocketOpened future => onOpen future
  | ConnectFailed f => onConnectFailure f
  | SocketMessage data =>
      fun t => if bool_decide (is_Some (socket t)) then onMessage data t else (t, [])
  | SocketClosed =>
      fun t => if bool_decide (is_Some (socket t)) then onClose t else (t, [])
  | SocketError => skip
  | SocketStateChanged r =>
      fun t =>
        match socket t with
        | Some w => (set_socket (Some (ws_with_state r w)) t, [])
        | None => (t, [])
        end
  | ReconnectTimerFired => onReconnectTimer
  | PingTimerFired => onPingTimer
  | RequestTimerFired id => onRequestTimer id
  end.

(** A run of tasks from the fields [t]. *)
Definition run (es : list Event) : Action := runAll handle es.

End Methods.

(** The fields a transport can have: those of a new one, and those after
    a task. *)
Inductive reachable (rt : Runtime) : Transport -> Prop :=
| reachable_new o : reachable rt (new o)
| reachable_step e t : reachable rt t -> reachable rt (fst (handle rt e t)).

(** ** Reading a list of effects *)

(** The promise an effect settles. *)
Definition settlementOf (e : Effect) : option Z :=
  match e with
  | Resolve id _ | Reject id _ => Some id
  | _ => None
  end.

Definition settled (es : list Effect) : list Z := omap settlementOf es.

Definition rejectionOf (e : Effect) : option (Z * TransportRequestError) :=
  match e with
  | Reject id err => Some (id, err)
  | _ => None
  end.

Definition rejections (es : list Effect) : list (Z * TransportRequestError) :=
  omap rejectionOf es.

(** The envelope an effect writes to the channel. *)
Definition envelopeSent (e : Effect) : option Envelope :=
  match e with
  | Send _ (HttpFrame env) => Some env
  | _ => None
  end.

Definition sent (es : list Effect) : list Envelope := omap envelopeSent es.

(** The call an effect of a flush deals with: written to the channel, or
    rejected. *)
Definition attemptOf (e : Effect) : option Z :=
  match e with
  | Send _ (HttpFrame env) => Some (RequestId env)
  | Reject id _ => Some id
  | _ => None
  end.

Definition attempted (es : list Effect) : list Z := omap attemptOf es.

(** The call [request] makes of its arguments. *)
Definition outboundOf (t : Transport) (v : HttpVerb) (u : string)
  (b : JsValue) (timeout : option Z) : OutboundRequest :=
  {| requestId := nextRequestId t; verb := v; target := u; body := b;
     timeoutMs := default (requestTimeoutMs (options t)) timeout;
     timer := None |}.

(** A call as [request] takes it: verb, URL, body and timeout option. *)
Definition Call : Type := HttpVerb * string * JsValue * option Z.

Definition submit (c : Call) : Event :=
  let '(v, u, b, timeout) := c in CallRequest v u b timeout.

(** The entries that calls submitted one after the other make, the first
    with identifier [id]. *)
Fixpoint outbounds (c : Config) (id : Z) (calls : list Call)
  : list OutboundRequest :=
  match calls with
  | [] => []
  | (v, u, b, timeout) :: rest =>
      {| requestId := id; verb := v; target := u; body := b;
         timeoutMs := default (requestTimeoutMs c) timeout; timer := None |}
      :: outbounds c (id + 1) rest
  end.

(** A socket none of whose coming sends throws. *)
Definition neverThrows (future : list SendOutcome) : bool :=
  forallb (fun o => negb (send_throws o)) future.

(** A socket that shows [OPEN] after each of its coming sends. *)
Definition staysOpen (future : list SendOutcome) : bool :=
  forallb (fun o => ReadyState_eqb (state_after o) OPEN) future.

(** The delay of a reconnect an effect schedules. *)
Definition reconnectScheduled (e : Effect) : option double :=
  match e with
  | SetReconnectTimeout ms => Some ms
  | _ => None
  end.

Definition reconnectDelays (es : list Effect) : list double :=
  omap reconnectScheduled es.

(** The status codes with which a frame settles a call with success. *)
Definition isSuccess (code : Q) : Prop :=
  (inject_Z 200 <= code)%Q /\ (code < inject_Z 300)%Q.

(** Whether a [connect()] on [t] is rejected before its task ends: on a
    disposed transport, and where an attempt has to be begun and the
    constructor throws. *)
Definition connectFailsAtOnce (rt : Runtime) (t : Transport) : bool :=
  disposed t
  || (negb (connectedState t)
      && negb (bool_decide (is_Some (connectPromise t)))
      && WebSocket_throws rt (url (options t))).

(** The guard of [scheduleReconnect], the other way round. *)
Definition willSchedule (t : Transport) : bool :=
  autoReconnect (options t) && negb (disposed t)
  && negb (bool_decide (is_Some (reconnectTimer t))).

(** Attempts that fail one after the other: each one fails in the way
    given, and the reconnect timer it leaves behind fires and starts the
    next. *)
Definition failedAttempts (fs : list ConnectFailure) : list Event :=
  List.flat_map (fun f => [ConnectFailed f; ReconnectTimerFired]) fs.

(** The identifiers of the calls the transport holds: sent and waiting for
    a frame, or buffered. *)
Definition pendingIds (t : Transport) : list Z :=
  List.map requestId (JsMap.values (pendingRequests t)).

Definition queuedIds (t : Transport) : list Z :=
  List.map requestId (queuedRequests t).

Definition live (t : Transport) : list Z := pendingIds t ++ queuedIds t.

(** Every entry of the pending map is under its own identifier. *)
Definition keyed (m : JsMap.t OutboundRequest) : Prop :=
  Forall (fun kr => requestId (snd kr) = fst kr) m.

(** The invariant of the bookkeeping: no identifier is held twice, and
    every identifier held has been drawn from the counter. *)
Definition wellFormed (t : Transport) : Prop :=
  NoDup (live t)
  /\ Forall (fun id => id < nextRequestId t) (live t)
  /\ keyed (pendingRequests t).

(** What a step from [t] to [t'] with effects [es] does to the calls: those
    it settles and those held afterwards are, each once, those held before
    and those drawn from the counter in between. *)
Definition accounts (t t' : Transport) (es : list Effect) : Prop :=
  nextRequestId t <= nextRequestId t'
  /\ keyed (pendingRequests t')
  /\ settled es ++ live t' ≡ₚ
       live t ++ seqZ (nextRequestId t) (nextRequestId t' - nextRequestId t).

(** An action that keeps the account of the calls. *)
Definition StepOk (a : Action) : Prop :=
  forall t, wellFormed t -> accounts t (fst (a t)) (snd (a t)).

(** An action that neither touches the calls nor settles one. *)
Definition quiet (a : Action) : Prop :=
  forall t,
    pendingRequests (fst (a t)) = pendingRequests t
    /\ queuedRequests (fst (a t)) = queuedRequests t
    /\ nextRequestId (fst (a t)) = nextRequestId t
    /\ settled (snd (a t)) = [].

(** The fields that decide about reconnecting are as they were, and an
    attached socket is still attached. *)
Definition sameControl (t t' : Transport) : Prop :=
  options t' = options t
  /\ disposed t' = disposed t
  /\ reconnectTimer t' = reconnectTimer t
  /\ reconnectAttempt t' = reconnectAttempt t
  /\ pingTimer t' = pingTimer t
  /\ connectedState t' = connectedState t
  /\ (is_Some (socket t) -> is_Some (socket t')).

(** What a step does to the backoff: the options are as they were, and the
    reconnects it schedules have, one after the other, the delays for the
    attempt counts from the one of [t] on; the count moves on by their
    number. *)
Definition backsOff (rt : Runtime) (t t' : Transport) (es : list Effect)
  : Prop :=
  options t' = options t
  /\ reconnectAttempt t'
       = (reconnectAttempt t + length (reconnectDelays es))%nat
  /\ reconnectDelays es
       = List.map (reconnectDelay rt (options t))
           (seq (reconnectAttempt t) (length (reconnectDelays es))).

Definition BackOk (rt : Runtime) (a : Action) : Prop :=
  forall t, backsOff rt t (fst (a t)) (snd (a t)).

(** A task other than the opening of the channel. *)
Definition notOpening (e : Event) : Prop :=
  match e with
  | SocketOpened _ => False
  | _ => True
  end.

(** [base ** n] by [n] multiplications, which is the double of the power
    where every product on the way is one, as for a base of 2. *)
Definition powerByProducts (base : double) (n : nat) : double :=
  Nat.iter n (times base) (ofZ 1).

(** A runtime for running the model on examples: every text parses to
    [payload], and the constructor takes every URL. *)
Definition fixedRuntime (payload : JsValue) : Runtime :=
  {| JSON_parse := fun _ => Some payload;
     TextDecoder_decode := fun _ => "{}"%string;
     stringToNumber := fun _ => NaN;
     objectToNumber := fun _ => NaN;
     WebSocket_throws := fun _ => false;
     exponentiate := powerByProducts |}.

(** The same with a constructor that takes no URL. *)
Definition refusingRuntime (payload : JsValue) : Runtime :=
  {| JSON_parse := fun _ => Some payload;
     TextDecoder_decode := fun _ => "{}"%string;
     stringToNumber := fun _ => NaN;
     objectToNumber := fun _ => NaN;
     WebSocket_throws := fun _ => true;
     exponentiate := powerByProducts |}.

End Ws.

(** ** The batch correlator *)

Module Batch.

Import Ws.

(** [BatchRequestItem], as [BatchRequestItemSchema] admits it. *)
Record BatchRequestItem : Type := {
  RequestId : Z;
  URL : string;
  Verb : HttpVerb;
  Body : option JsValue
}.

(** [BatchResponseItem]; an absent [ResponseBody] reads as [undefined]. *)
Record BatchResponseItem : Type := {
  item_RequestId : Z;
  ResponseCode : Z;
  ResponseBody : JsValue
}.

Record BatchResponse : Type := {
  Responses : option (list BatchResponseItem)
}.

Record BatchResult : Type := {
  requestId : Z;
  statusCode : Z;
  body : JsValue;
  request : BatchRequestItem
}.

(** [BatchBuilder.add] on the builder's [requests]: [None] where
    [BatchRequestItemSchema.parse] throws, which it does on an empty URL
    (the verb is one of the five by its type), and then nothing is
    pushed. *)
Definition add (v : HttpVerb) (u : string) (b : JsValue)
  (requests : list BatchRequestItem) : option (Z * list BatchRequestItem) :=
  let requestId := Z.of_nat (length requests) in
  if String.eqb u "" then None
  else
    let entry :=
      {| RequestId := requestId; URL := u; Verb := v;
         Body := match b with
                 | JsUndefined => None
                 | _ => Some b
                 end |} in
    Some (requestId, requests ++ [entry]).

(** A sub-call as the builder's public methods hand it to [add]. *)
Definition SubCall : Type := HttpVerb * string * JsValue.

(** The builder after a series of sub-calls; one that throws leaves the
    list as it was. *)
Definition addAll (calls : list SubCall) (requests : list BatchRequestItem)
  : list BatchRequestItem :=
  List.fold_left
    (fun rs '(v, u, b) =>
       match add v u b rs with
       | Some (_, rs') => rs'
       | None => rs
       end)
    calls requests.

(** The [Map] that [correlateBatchResponses] fills. *)
Definition byRequestId (items : list BatchResponseItem)
  : gmap Z BatchResponseItem :=
  List.fold_left (fun m item => <[item_RequestId item := item]> m) items ∅.

Definition correlateBatchResponses (requests : list BatchRequestItem)
  (response : BatchResponse) : list BatchResult :=
  let byId := byRequestId (default [] (Responses response)) in
  List.map
    (fun request =>
       let matched := byId !! RequestId request in
       {| requestId := RequestId request;
          statusCode := default 0 (ResponseCode <$> matched);
          body := default JsUndefined (ResponseBody <$> matched);
          request := request |})
    requests.

(** The identifiers in a builder are the positions, from 0. *)
Definition sequential (requests : list BatchRequestItem) : Prop :=
  List.map RequestId requests = List.map Z.of_nat (seq 0 (length requests)).

(** The sub-calls that [add] accepts. *)
Definition accepted (c : SubCall) : bool :=
  let '(v, u, b) := c in negb (String.eqb u "").

(** The last entry of the response array that carries the identifier
    [k]. *)
Definition lastWith (k : Z) (items : list BatchResponseItem)
  : option BatchResponseItem :=
  last (List.filter (fun x => Z.eqb (item_RequestId x) k) items).

End Batch.

(** ** Transports and runs that the examples use *)

Module Examples.

Import Ws.

Definition withCapacity (n : Z) : WebSocketTransportOptions :=
  {| opt_baseUrl := None; opt_host := None; opt_port := None;
     opt_secure := None; opt_connectTimeoutMs := None;
     opt_requestTimeoutMs := None; opt_pingIntervalMs := None;
     opt_autoReconnect := None; opt_reconnectInitialDelayMs := None;
     opt_reconnectMaxDelayMs := None; opt_reconnectBackoffFactor := None;
     opt_disconnectedBehavior := None; opt_maxQueueSize := Some n |}.

Definition nullRuntime : Runtime := fixedRuntime JsNull.

(** [{ autoReconnect: false }]. *)
Definition withoutReconnect : WebSocketTransportOptions :=
  {| opt_baseUrl := None; opt_host := None; opt_port := None;
     opt_secure := None; opt_connectTimeoutMs := None;
     opt_requestTimeoutMs := None; opt_pingIntervalMs := None;
     opt_autoReconnect := Some false; opt_reconnectInitialDelayMs := None;
     opt_reconnectMaxDelayMs := None; opt_reconnectBackoffFactor := None;
     opt_disconnectedBehavior := None; opt_maxQueueSize := None |}.

(** Two calls submitted to a fresh transport of capacity 2. *)
Definition twoBuffered : Transport :=
  fst (run nullRuntime
         [CallRequest GET "/remote/info" JsUndefined None;
          CallRequest PUT "/remote/object/call" JsNull (Some 50)]
         (new (withCapacity 2))).

(** Capacity 1: a call is buffered, a second one is turned away, the
    channel opens, a third call is sent. *)
Definition gapInIdentifiers : list Event :=
  [CallRequest GET "/a" JsUndefined None;
   CallRequest GET "/b" JsUndefined None;
   SocketOpened [];
   CallRequest GET "/c" JsUndefined None].

(** Two attempts that fail, the second one begun by a call of
    [connect()] while the reconnect after the first is pending. *)
Definition secondAttemptDuringBackoff : list Event :=
  [CallConnect; ConnectFailed ErrorBeforeOpen;
   CallConnect; ConnectFailed ErrorBeforeOpen].

(** The attempts of a run that ended in a rejection. *)
Definition attemptsRejected (es : list Effect) : nat :=
  length
    (List.filter
       (fun e => match e with
                 | ConnectSettled (Rejected _)
                 | ConnectSettled RejectedByConstructor => true
                 | _ => false
                 end) es).

(** Three calls submitted to a fresh transport with the default options. *)
Definition threeBuffered : Transport :=
  fst (run nullRuntime
         [CallRequest GET "/a" JsUndefined None;
          CallRequest PUT "/b" JsNull (Some 50);
          CallRequest POST "/c" (JsBoolean true) None]
         (new no_options)).

(** A socket whose second send finds the channel closing. *)
Definition closesAfterTwo : list SendOutcome :=
  [ {| send_throws := false; state_after := OPEN |};
    {| send_throws := false; state_after := CLOSING |} ].

(** A fresh transport with the default options on which [connect()] was
    called. *)
Definition connecting : Transport :=
  fst (run nullRuntime [CallConnect] (new no_options)).

Definition sevenFailures : list ConnectFailure :=
  [ErrorBeforeOpen; TimedOut; ClosedBeforeOpen; ErrorBeforeOpen;
   ErrorBeforeOpen; TimedOut; ClosedBeforeOpen].

(** A connected transport with three calls sent and not yet answered. *)
Definition threePending : list Event :=
  [CallConnect; SocketOpened [];
   CallRequest GET "/a" JsUndefined None;
   CallRequest PUT "/b" JsNull (Some 50);
   CallRequest POST "/c" (JsBoolean true) None].

(** A connected transport with two calls sent and one more submitted
    after the socket has begun to close. *)
Definition pendingAndBuffered : list Event :=
  [CallConnect; SocketOpened [];
   CallRequest GET "/a" JsUndefined None;
   CallRequest PUT "/b" JsNull (Some 50);
   SocketStateChanged CLOSING;
   CallRequest POST "/c" (JsBoolean true) None].

(** [dispose()] while an attempt is in flight, and the attempt's socket
    opens afterwards. *)
Definition lateOpen : list Event :=
  [CallConnect; CallDispose; SocketOpened []].

(** The batch of the client's test: a call and a describe, answered in
    the other order. *)
Definition twoSubCalls : list Batch.SubCall :=
  [(PUT, "/remote/object/call"%string, JsNull);
   (PUT, "/remote/object/describe"%string, JsNull)].

Definition answeredBackwards : list Batch.BatchResponseItem :=
  [ {| Batch.item_RequestId := 1; Batch.ResponseCode := 204;
       Batch.ResponseBody := JsUndefined |};
    {| Batch.item_RequestId := 0; Batch.ResponseCode := 200;
       Batch.ResponseBody := JsBoolean true |} ].

(** Inbound frames for a transport with calls 1, 2 and 3 pending. *)
Definition frameOf (id code : Z) (responseBody : JsValue) : JsValue :=
  JsObject
    {[ "RequestId"%string := JsNum (Finite (inject_Z id));
       "ResponseCode"%string := JsNum (Finite (inject_Z code));
       "ResponseBody"%string := responseBody ]}.

Definition threeSent : Transport :=
  fst (run nullRuntime threePending (new no_options)).

(** A frame with any value as its status code. *)
Definition frameWithCode (id : Z) (code : JsValue) (responseBody : JsValue)
  : JsValue :=
  JsObject
    {[ "RequestId"%string := JsNum (Finite (inject_Z id));
       "ResponseCode"%string := code;
       "ResponseBody"%string := responseBody ]}.

End Examples.

(** ** Rules that every piece of the transport's code obeys *)

Module Rules.

Import Ws.

(** What a piece of code may do: a relation between the fields before it,
    the fields after it and its effects. *)
Definition Rule : Type := Transport -> Transport -> list Effect -> Prop.

(** A rule that doing nothing obeys, and that two pieces of code run one
    after the other obey when each of them does. *)
Class Compositional (R : Rule) : Prop := {
  rule_stays : forall t, R t t [];
  rule_follows :
    forall t t1 t2 e1 e2, R t t1 e1 -> R t1 t2 e2 -> R t t2 (e1 ++ e2)
}.

Definition Obeys (R : Rule) (a : Action) : Prop :=
  forall t, R t (fst (a t)) (snd (a t)).

(** The rule of an invariant [I] of the fields and a property [P] of every
    effect. *)
Definition keeping (I : Transport -> Prop) (P : Effect -> Prop) : Rule :=
  fun t t' es => I t -> I t' /\ Forall P es.

(** The calls of [request()] among the tasks of a run. *)
Definition isSubmission (e : Event) : bool :=
  match e with
  | CallRequest _ _ _ _ => true
  | _ => false
  end.

Definition submissions (es : list Event) : nat :=
  length (List.filter isSubmission es).

(** The rule of the tasks that draw no identifier. *)
Definition drawsNone : Rule :=
  fun t t' _ => nextRequestId t' = nextRequestId t.

(** The handler that [request] hangs on a connect promise. *)
Definition isCatchOfRequest (c : Catcher) : bool :=
  match c with
  | CatchOfRequest => true
  | _ => false
  end.

(** An effect that is no rejection with a status code. *)
Definition carriesNoStatus (e : Effect) : Prop :=
  match e with
  | Reject _ err => statusCode err = None
  | _ => True
  end.

(** The error [err] is the one that [onMessage] builds from the frame
    [data]: the frame parses, its [ResponseCode] is the finite number
    [code], which is none of the codes of success, and the error names the
    code in its message, carries it as its status code and has the
    frame's [ResponseBody] as details. *)
Definition builtFromFrame (rt : Runtime) (data : MessageData)
  (err : TransportRequestError) : Prop :=
  exists payload code,
    readPayload rt data = Some payload
    /\ numberOf rt (default JsUndefined (getProperty payload "ResponseCode"))
       = Finite code
    /\ ~ isSuccess code
    /\ err = {| message := RemoteFailedWithStatus code;
                statusCode := Some code;
                details :=
                  Some (default JsUndefined
                          (getProperty payload "ResponseBody")) |}.

(** A task other than a frame that arrives. *)
Definition notFrame (e : Event) : Prop :=
  match e with
  | SocketMessage _ => False
  | _ => True
  end.

(** Auto-reconnect is off and no reconnect has been scheduled. *)
Definition neverReconnects (t : Transport) : Prop :=
  autoReconnect (options t) = false
  /\ reconnectTimer t = None
  /\ reconnectAttempt t = 0%nat.

Definition schedulesNothing (e : Effect) : Prop :=
  reconnectScheduled e = None.

(** The policy is to reject, and nothing is buffered. *)
Definition buffersNothing (t : Transport) : Prop :=
  disconnectedBehavior (options t) = reject /\ queuedRequests t = [].

(** The heartbeat is switched off and no interval is armed. *)
Definition pingDisabled (t : Transport) : Prop :=
  pingIntervalMs (options t) <= 0 /\ pingTimer t = None.

Definition noPing (e : Effect) : Prop :=
  match e with
  | Send _ PingFrame | SetInterval _ _ => False
  | _ => True
  end.

(** The heartbeat goes with the connection: a connected transport has a
    socket, and the interval is armed, with [pingIntervalMs], exactly
    while the transport is connected and the heartbeat is switched on. *)
Definition heartbeat (t : Transport) : Prop :=
  (connectedState t = true -> is_Some (socket t))
  /\ pingTimer t
     = if connectedState t && negb (pingIntervalMs (options t) <=? 0)
       then Some (pingIntervalMs (options t))
       else None.

(** A transport that has been disposed of and has nothing left: no socket,
    no timer, no call waiting for a frame. *)
Definition shut (t : Transport) : Prop :=
  disposed t = true
  /\ connectedState t = false
  /\ socket t = None
  /\ pingTimer t = None
  /\ reconnectTimer t = None
  /\ pendingRequests t = [].

(** A shut transport; with [idle], one that has no connection attempt in
    flight either. *)
Definition shutFor (idle : bool) (t : Transport) : Prop :=
  shut t /\ (idle = true -> connectPromise t = None).

(** A shut transport without an attempt in flight that buffers and
    reconnects by its options, and holds the call [id] in its buffer. *)
Definition strands (id : Z) (t : Transport) : Prop :=
  shutFor true t
  /\ autoReconnect (options t) = true
  /\ disconnectedBehavior (options t) = queue
  /\ id < nextRequestId t
  /\ id ∈ queuedIds t.

Definition leavesUnsettled (id : Z) (e : Effect) : Prop :=
  settlementOf e <> Some id.

(** Every call that waits for its frame carries the timer of its
    timeout. *)
Definition timersArmed (t : Transport) : Prop :=
  Forall (fun r => timer r = Some (timeoutMs r))
    (JsMap.values (pendingRequests t)).

Definition anyEffect (e : Effect) : Prop := True.

(** A reconnect timer that is pending was armed with a delay of the
    backoff, for the attempt count of the time. *)
Definition timerFromBackoff (rt : Runtime) (t : Transport) : Prop :=
  forall ms, reconnectTimer t = Some ms ->
    exists attempt : nat,
      ms = Math_min
             (times (reconnectInitialDelayMs (options t))
                (exponentiate rt (reconnectBackoffFactor (options t)) attempt))
             (reconnectMaxDelayMs (options t)).

(** The effects that reach the network or arm a timer, and the resolution
    of a call. *)
Definition noActivity (e : Effect) : Prop :=
  match e with
  | NewWebSocket _ _ | Send _ _ | SetTimeout _ _ | SetReconnectTimeout _
  | SetInterval _ _ | Resolve _ _ => False
  | _ => True
  end.

End Rules.

(** ** More transports and runs for examples *)

Module Scenarios.

Import Ws Examples.

(** [{ disconnectedBehavior: "reject" }]. *)
Definition rejecting : WebSocketTransportOptions :=
  {| opt_baseUrl := None; opt_host := None; opt_port := None;
     opt_secure := None; opt_connectTimeoutMs := None;
     opt_requestTimeoutMs := None; opt_pingIntervalMs := None;
     opt_autoReconnect := None; opt_reconnectInitialDelayMs := None;
     opt_reconnectMaxDelayMs := None; opt_reconnectBackoffFactor := None;
     opt_disconnectedBehavior := Some reject; opt_maxQueueSize := None |}.

(** [{ pingIntervalMs: 0 }]. *)
Definition withoutPing : WebSocketTransportOptions :=
  {| opt_baseUrl := None; opt_host := None; opt_port := None;
     opt_secure := None; opt_connectTimeoutMs := None;
     opt_requestTimeoutMs := None; opt_pingIntervalMs := Some 0;
     opt_autoReconnect := None; opt_reconnectInitialDelayMs := None;
     opt_reconnectMaxDelayMs := None; opt_reconnectBackoffFactor := None;
     opt_disconnectedBehavior := None; opt_maxQueueSize := None |}.

(** Calls and events on a transport after [dispose()]. *)
Definition afterDisposal : list Event :=
  [CallConnect; CallRequest GET "/remote/info" JsUndefined None;
   ReconnectTimerFired; PingTimerFired; SocketClosed; CallDispose;
   SocketOpened []].

(** What can happen to a disposed transport, short of a second
    [dispose()]. *)
Definition afterDisposalNoDispose : list Event :=
  [CallConnect; CallRequest GET "/remote/info" JsUndefined None;
   ReconnectTimerFired; PingTimerFired; SocketClosed; SocketOpened [];
   RequestTimerFired 1; SocketMessage (TextData "{}")].

(** A fresh transport with the default options whose channel is open. *)
Definition connected : Transport :=
  fst (run nullRuntime [CallConnect; SocketOpened []] (new no_options)).

(** An attempt times out, the next one opens, and the channel is lost. *)
Definition lostAfterRetry : list Event :=
  [CallConnect; ConnectFailed TimedOut; CallConnect; SocketOpened [];
   SocketClosed].

End Scenarios.

(** ** The helpers: path builders and the reading of return values *)

Module Helpers.

(** A JavaScript string as the sequence of its UTF-16 code units. *)
Definition text : Type := list N.

(** A string literal of the source, all of whose characters are ASCII. *)
Definition lit (s : string) : text :=
  List.map N_of_ascii (list_ascii_of_string s).

Definition slash : N := 47.
Definition dot : N := 46.

(** The code units that [String.prototype.trim] strips: the WhiteSpace and
    LineTerminator code points of ECMAScript. *)
Definition isWhiteSpace (c : N) : bool :=
  existsb (N.eqb c)
    [9; 10; 11; 12; 13; 32; 160; 5760; 8232; 8233; 8239; 8287; 12288; 65279]%N
  || ((8192 <=? c)%N && (c <=? 8202)%N).

Fixpoint trimStart (s : text) : text :=
  match s with
  | [] => []
  | c :: rest => if isWhiteSpace c then trimStart rest else s
  end.

Definition trimEnd (s : text) : text := rev (trimStart (rev s)).

Definition trim (s : text) : text := trimEnd (trimStart s).

(** [new Error(`${label} cannot be empty`)]. *)
Inductive Thrown : Type :=
| CannotBeEmpty (label : string).

Definition ensureNonEmpty (value : text) (label : string) : Thrown + text :=
  let normalized := trim value in
  match normalized with
  | [] => inl (CannotBeEmpty label)
  | _ => inr normalized
  end.

(** [value.replace(/^\/+|\/+$/g, "")]: the run of slashes at the start and
    the run of slashes at the end are taken away. *)
Fixpoint dropSlashes (s : text) : text :=
  match s with
  | [] => []
  | c :: rest => if N.eqb c slash then dropSlashes rest else s
  end.

Definition stripSurroundingSlashes (value : text) : text :=
  rev (dropSlashes (rev (dropSlashes value))).

(** [s.startsWith("/")]. *)
Definition startsWithSlash (s : text) : bool :=
  match s with
  | c :: _ => N.eqb c slash
  | [] => false
  end.

Definition objectPath (mapPath worldName objectName : text) : Thrown + text :=
  match ensureNonEmpty mapPath "mapPath" with
  | inl e => inl e
  | inr normalizedMapPath =>
      match ensureNonEmpty worldName "worldName" with
      | inl e => inl e
      | inr normalizedWorldName =>
          match ensureNonEmpty objectName "objectName" with
          | inl e => inl e
          | inr normalizedObjectName =>
              let packagePath :=
                if startsWithSlash normalizedMapPath then normalizedMapPath
                else lit "/" ++ normalizedMapPath in
              inr (packagePath ++ lit "." ++ normalizedWorldName ++ lit ":"
                   ++ normalizedObjectName)
          end
      end
  end.

(** [s.split(sep)] for a separator of one code unit: never empty. *)
Fixpoint split (sep : N) (s : text) : list text :=
  match s with
  | [] => [[]]
  | c :: rest =>
      if N.eqb c sep then [] :: split sep rest
      else
        match split sep rest with
        | segment :: segments => (c :: segment) :: segments
        | [] => [[c]]
        end
  end.

(** [s.includes(c)] and [s.lastIndexOf(c)] for one code unit; [None] is
    the -1 of JavaScript. *)
Definition includes (c : N) (s : text) : bool := existsb (N.eqb c) s.

Fixpoint lastIndexOf (c : N) (s : text) : option nat :=
  match s with
  | [] => None
  | x :: rest =>
      match lastIndexOf c rest with
      | Some i => Some (S i)
      | None => if N.eqb x c then Some 0%nat else None
      end
  end.

Section Rendering.

(** The string a template literal makes of a number. *)
Variable numberToString : JsNumber -> text.

Definition piePath (mapName : text) (instanceId : option JsNumber)
  : Thrown + text :=
  match ensureNonEmpty mapName "mapName" with
  | inl e => inl e
  | inr normalizedMapName =>
      let leaf :=
        default normalizedMapName
          (last (split slash (stripSurroundingSlashes normalizedMapName))) in
      let cleanMapName :=
        if includes dot leaf
        then drop (match lastIndexOf dot leaf with
                   | Some i => S i
                   | None => 0%nat
                   end) leaf
        else leaf in
      inr (lit "UEDPIE_" ++ numberToString (default (Finite 0) instanceId)
           ++ lit "_" ++ cleanMapName)
  end.

End Rendering.

Definition blueprintLibraryPath (moduleName className : text) : Thrown + text :=
  match ensureNonEmpty moduleName "moduleName" with
  | inl e => inl e
  | inr normalizedModuleName =>
      match ensureNonEmpty className "className" with
      | inl e => inl e
      | inr normalizedClassName =>
          inr (lit "/Script/" ++ normalizedModuleName ++ lit ".Default__"
               ++ normalizedClassName)
      end
  end.

(** What [value[key]] gives: a value, or a member that the object has from
    its prototype (a method of [Object.prototype], say), which is no value
    of JSON. *)
Inductive Member : Type :=
| Value (v : JsValue)
| Inherited (name : string).

Definition isRecord (value : JsValue) : bool :=
  match value with
  | JsObject _ | JsArray _ => true
  | _ => false
  end.

(** The own property [key] of a record: a field of an object; an element
    or the length of an array. *)
Definition ownProperty (value : JsValue) (key : string) : option JsValue :=
  match value with
  | JsObject fields => fields !! key
  | JsArray items =>
      if String.eqb key "length"
      then Some (JsNum (Finite (inject_Z (Z.of_nat (length items)))))
      else
        match List.find (fun i : nat => String.eqb (pretty i) key)
                (seq 0 (length items)) with
        | Some i => items !! i
        | None => None
        end
  | _ => None
  end.

Section Records.

(** Whether the prototype chain of a record has a property: the
    runtime's. *)
Variable inherits : JsValue -> string -> bool.

Definition member (value : JsValue) (key : string) : Member :=
  match ownProperty value key with
  | Some v => Value v
  | None => if inherits value key then Inherited key else Value JsUndefined
  end.

(** [parseReturnValue(value, key?)]; an absent [key] is [None]. *)
Definition parseReturnValue (value : JsValue) (key : option string) : Member :=
  if negb (isRecord value) then Value JsUndefined
  else
    match key with
    | Some k =>
        if String.eqb k "" then member value "ReturnValue" else member value k
    | None => member value "ReturnValue"
    end.

(** [a ?? b]. *)
Definition orElse (a b : Member) : Member :=
  match a with
  | Value JsUndefined | Value JsNull => b
  | _ => a
  end.

(** [parseReturnValue(response, propertyName) ?? parseReturnValue(response)],
    the expression that [UnrealRC.getProperty] returns once it has its
    response. *)
Definition namedOrReturnValue (response : JsValue) (propertyName : string)
  : Member :=
  orElse (parseReturnValue response (Some propertyName))
         (parseReturnValue response None).

End Records.

End Helpers.

(** ** The HTTP transport

    A call of [request()] runs up to its [await fetch(...)] within the
    task that calls it, and goes on when the runtime settles the fetch:
    these are two kinds of task. Besides the fields of the class the
    state holds what the runtime keeps for it: which controllers are
    aborted, which timers are armed, and the calls of [request()] that
    wait for their fetch, each with the variables it closed over. *)

Module Http.

Import Ws.

Record HttpTransportOptions : Type := {
  opt_baseUrl : option string;
  opt_host : option string;
  opt_port : option Z;
  opt_secure : option bool;
  opt_headers : option (gmap string string);
  opt_requestTimeoutMs : option Z
}.

Definition DEFAULT_HOST : string := "127.0.0.1".
Definition DEFAULT_PORT : Z := 30010.
Definition DEFAULT_TIMEOUT_MS : Z := 15000.

(** [s.replace(/\/$/, "")]: one slash at the end is taken away. *)
Fixpoint stripTrailingSlash (s : string) : string :=
  match s with
  | EmptyString => EmptyString
  | String c EmptyString => if Ascii.eqb c "/" then EmptyString else s
  | String c rest => String c (stripTrailingSlash rest)
  end.

(** What a call of [request()] that waits for its fetch has closed
    over. *)
Record InFlight : Type := {
  controller : nat;
  timeoutMs : Z;
  timer : bool
}.

Record HttpTransport : Type := {
  baseUrl : string;
  requestTimeoutMs : Z;
  headers : gmap string string;
  controllers : list nat;
  aborted : list nat;
  armed : list nat;
  inFlight : list InFlight;
  controllersCreated : nat
}.

(** The constructor. *)
Definition new (o : HttpTransportOptions) : HttpTransport :=
  {| baseUrl :=
       match opt_baseUrl o with
       | Some b => stripTrailingSlash b
       | None =>
           (if default false (opt_secure o) then "https" else "http")
           +:+ "://" +:+ default DEFAULT_HOST (opt_host o)
           +:+ ":" +:+ pretty (default DEFAULT_PORT (opt_port o))
       end;
     requestTimeoutMs := default DEFAULT_TIMEOUT_MS (opt_requestTimeoutMs o);
     headers := default ∅ (opt_headers o);
     controllers := [];
     aborted := [];
     armed := [];
     inFlight := [];
     controllersCreated := 0%nat |}.

(** What [parsePayload] returns: [undefined], the value [JSON.parse]
    made, the decoded text, or the [ArrayBuffer] itself. *)
Inductive Payload : Type :=
| NoPayload
| Parsed (v : JsValue)
| Text (s : string)
| Binary (raw : list Byte.byte).

Inductive ErrorMessage : Type :=
| FailedWithStatus (status : Z)  (* `HTTP request failed with status ${status}` *)
| TimedOutAfter (ms : Z)         (* `HTTP request timed out after ${timeoutMs}ms` *)
| RequestFailed.                 (* "HTTP request failed" *)

Record TransportRequestError : Type := {
  message : ErrorMessage;
  statusCode : option Z;
  details : option Payload
}.

(** How the promise of [request()] ends. *)
Inductive Outcome : Type :=
| Returned (payload : Payload)
| Threw (e : TransportRequestError)
| ThrewTypeError.

Record RequestInit : Type := {
  method : HttpVerb;
  init_headers : gmap string string;
  init_body : option string
}.

Inductive Effect : Type :=
| SetTimeout (controller : nat) (ms : Z)
| ClearTimeout (controller : nat)
| Fetch (controller : nat) (targetUrl : string) (init : RequestInit)
| Abort (controller : nat)
| Settle (controller : nat) (outcome : Outcome).

(** What the runtime makes of a fetch: a response with its status, its
    [ok] flag, its [content-type] header and its body (none when reading
    the body fails), or a rejection. *)
Inductive FetchOutcome : Type :=
| Responded (status : Z) (ok : bool) (contentType : option string)
    (body : option (list Byte.byte))
| Rejects.

(** [toLowerCase] on a header value, whose code units are bytes. *)
Definition lowerByte (c : ascii) : ascii :=
  let n := nat_of_ascii c in
  if ((65 <=? n) && (n <=? 90)
      || (192 <=? n) && (n <=? 222) && negb (n =? 215))%nat
  then ascii_of_nat (n + 32)
  else c.

Fixpoint toLowerCase (s : string) : string :=
  match s with
  | EmptyString => EmptyString
  | String c rest => String (lowerByte c) (toLowerCase rest)
  end.

Fixpoint includes (needle s : string) : bool :=
  String.prefix needle s
  || match s with
     | EmptyString => false
     | String _ rest => includes needle rest
     end.

Definition startsWith (needle s : string) : bool := String.prefix needle s.

(** [set.delete(x)] and [set.add(x)] on a [Set] kept in insertion
    order. *)
Definition remove (x : nat) (l : list nat) : list nat :=
  List.filter (fun y => negb (Nat.eqb y x)) l.

Definition add (x : nat) (l : list nat) : list nat :=
  if existsb (Nat.eqb x) l then l else l ++ [x].

Definition member (x : nat) (l : list nat) : bool := existsb (Nat.eqb x) l.

Section Runtime.

(** The runtime: [JSON.parse] and [TextDecoder] as for the WebSocket
    transport, [JSON.stringify], and [new URL(url, base).toString()],
    which is [None] where the constructor throws. *)
Variable rt : Ws.Runtime.
Variable JSON_stringify : JsValue -> string.
Variable resolveUrl : string -> string -> option string.

(** [parsePayload] on the body read; [None] where [JSON.parse] throws. *)
Definition parsePayload (contentType : option string) (raw : list Byte.byte)
  : option Payload :=
  match raw with
  | [] => Some NoPayload
  | _ =>
      let normalized := toLowerCase (default ""%string contentType) in
      if includes "application/json" normalized
      then Parsed <$> JSON_parse rt (TextDecoder_decode rt raw)
      else if startsWith "text/" normalized || includes "xml" normalized
              || includes "javascript" normalized
      then Some (Text (TextDecoder_decode rt raw))
      else Some (Binary raw)
  end.

Definition Action : Type := HttpTransport -> HttpTransport * list Effect.

(** [request()] up to its [await fetch(...)]. *)
Definition request (v : HttpVerb) (u : string) (b : JsValue)
  (timeout : option Z) : Action :=
  fun t =>
    let c := controllersCreated t in
    let ms := default (requestTimeoutMs t) timeout in
    let timed := 0 <? ms in
    let t1 :=
      {| baseUrl := baseUrl t; requestTimeoutMs := requestTimeoutMs t;
         headers := headers t;
         controllers := add c (controllers t);
         aborted := aborted t;
         armed := if timed then c :: armed t else armed t;
         inFlight := inFlight t;
         controllersCreated := S c |} in
    let e1 := if timed then [SetTimeout c ms] else [] in
    match resolveUrl u (baseUrl t) with
    | None => (t1, e1 ++ [Settle c ThrewTypeError])
    | Some targetUrl =>
        let requestHeaders :=
          match b with
          | JsUndefined => headers t
          | _ =>
              match headers t !! "content-type"%string with
              | Some (String _ _) => headers t
              | _ => <["content-type"%string := "application/json"%string]>
                       (headers t)
              end
          end in
        let requestBody :=
          match b with
          | JsUndefined => None
          | _ => Some (JSON_stringify b)
          end in
        ({| baseUrl := baseUrl t1; requestTimeoutMs := requestTimeoutMs t1;
            headers := headers t1; controllers := controllers t1;
            aborted := aborted t1; armed := armed t1;
            inFlight :=
              inFlight t1
              ++ [{| controller := c; timeoutMs := ms; timer := timed |}];
            controllersCreated := controllersCreated t1 |},
         e1 ++ [Fetch c targetUrl
                  {| method := v; init_headers := requestHeaders;
                     init_body := requestBody |}])
    end.

(** The error of the [catch] block for an error that is no
    [TransportRequestError]. *)
Definition caught (t : HttpTransport) (p : InFlight) : Outcome :=
  if member (controller p) (aborted t)
  then Threw {| message := TimedOutAfter (timeoutMs p); statusCode := None;
                details := None |}
  else Threw {| message := RequestFailed; statusCode := None;
                details := None |}.

(** How the call [p] of [request()] ends when its fetch has settled
    with [o]. *)
Definition outcomeOf (t : HttpTransport) (p : InFlight) (o : FetchOutcome)
  : Outcome :=
  match o with
  | Rejects => caught t p
  | Responded status ok contentType None => caught t p
  | Responded status ok contentType (Some raw) =>
      match parsePayload contentType raw with
      | None => caught t p
      | Some payload =>
          if ok then Returned payload
          else Threw {| message := FailedWithStatus status;
                        statusCode := Some status;
                        details := Some payload |}
      end
  end.

(** [request()] from its [await fetch(...)] on, for the call with
    controller [c]: the outcome, then the [finally] block. *)
Definition onFetchSettled (c : nat) (o : FetchOutcome) : Action :=
  fun t =>
    match List.find (fun p => Nat.eqb (controller p) c) (inFlight t) with
    | None => (t, [])
    | Some p =>
        ({| baseUrl := baseUrl t; requestTimeoutMs := requestTimeoutMs t;
            headers := headers t;
            controllers := remove c (controllers t);
            aborted := aborted t;
            armed := remove c (armed t);
            inFlight :=
              List.filter (fun q => negb (Nat.eqb (controller q) c))
                (inFlight t);
            controllersCreated := controllersCreated t |},
         (if timer p then [ClearTimeout c] else [])
         ++ [Settle c (outcomeOf t p o)])
    end.

(** The callback of the timeout of the call with controller [c]; the
    runtime runs it only while the timer is armed. *)
Definition onTimer (c : nat) : Action :=
  fun t =>
    if member c (armed t)
    then ({| baseUrl := baseUrl t; requestTimeoutMs := requestTimeoutMs t;
             headers := headers t; controllers := controllers t;
             aborted := add c (aborted t);
             armed := remove c (armed t);
             inFlight := inFlight t;
             controllersCreated := controllersCreated t |},
          [Abort c])
    else (t, []).

Definition dispose : Action :=
  fun t =>
    ({| baseUrl := baseUrl t; requestTimeoutMs := requestTimeoutMs t;
        headers := headers t;
        controllers := [];
        aborted := List.fold_left (fun l c => add c l) (controllers t) (aborted t);
        armed := armed t;
        inFlight := inFlight t;
        controllersCreated := controllersCreated t |},
     List.map Abort (controllers t)).

Inductive Event : Type :=
| CallRequest (v : HttpVerb) (u : string) (b : JsValue) (timeout : option Z)
| CallDispose
| TimerFired (c : nat)
| FetchSettled (c : nat) (o : FetchOutcome).

Definition handle (e : Event) : Action :=
  match e with
  | CallRequest v u b timeout => request v u b timeout
  | CallDispose => dispose
  | TimerFired c => onTimer c
  | FetchSettled c o => onFetchSettled c o
  end.

Fixpoint run (es : list Event) (t : HttpTransport)
  : HttpTransport * list Effect :=
  match es with
  | [] => (t, [])
  | e :: rest =>
      let '(t1, e1) := handle e t in
      let '(t2, e2) := run rest t1 in
      (t2, e1 ++ e2)
  end.

End Runtime.

(** The controllers of the calls in flight. *)
Definition inFlightControllers (t : HttpTransport) : list nat :=
  List.map controller (inFlight t).

(** The controllers are numbered as they are made: every number in use
    is below [controllersCreated], and no two calls in flight have the same
    controller. *)
Definition numbered (t : HttpTransport) : Prop :=
  Forall (fun c => (c < controllersCreated t)%nat) (controllers t)
  /\ Forall (fun c => (c < controllersCreated t)%nat) (inFlightControllers t)
  /\ Forall (fun c => (c < controllersCreated t)%nat) (armed t)
  /\ Forall (fun c => (c < controllersCreated t)%nat) (aborted t)
  /\ NoDup (inFlightControllers t).

(** Every controller in the set belongs to a call in flight. *)
Definition tidy (t : HttpTransport) : Prop :=
  controllers t ⊆ inFlightControllers t.

(** The promises that a list of effects settles, with their outcomes. *)
Definition settlementOf (e : Effect) : option (nat * Outcome) :=
  match e with
  | Settle c o => Some (c, o)
  | _ => None
  end.

Definition settlements (es : list Effect) : list (nat * Outcome) :=
  omap settlementOf es.

(** The controllers of the promises that a list of effects settles. *)
Definition settledCalls (es : list Effect) : list nat :=
  List.map fst (settlements es).

(** What a piece of the transport's life does to the calls: no controller
    is made twice, a call in flight afterwards was in flight before or is
    new, and the calls settled, each once, were in flight before or are
    new and are in flight no longer. *)
Definition settlesOnce (t t' : HttpTransport) (es : list Effect) : Prop :=
  (controllersCreated t <= controllersCreated t')%nat
  /\ (forall c, c ∈ inFlightControllers t' ->
                c ∈ inFlightControllers t \/ (controllersCreated t <= c)%nat)
  /\ NoDup (settledCalls es)
  /\ (forall c, c ∈ settledCalls es ->
        (c ∈ inFlightControllers t \/ (controllersCreated t <= c)%nat)
        /\ (c ∉ inFlightControllers t')
        /\ (c < controllersCreated t')%nat).

(** A fetch that gives no payload: it rejects, the body cannot be read,
    or the body is no JSON although the header says so. *)
Definition givesNoPayload (rt : Ws.Runtime) (o : FetchOutcome) : Prop :=
  match o with
  | Rejects => True
  | Responded _ _ _ None => True
  | Responded _ _ contentType (Some raw) => parsePayload rt contentType raw = None
  end.

(** The headers and the body that [request()] hands to [fetch]. *)
Definition headersFor (t : HttpTransport) (b : JsValue) : gmap string string :=
  match b with
  | JsUndefined => headers t
  | _ =>
      match headers t !! "content-type"%string with
      | Some (String _ _) => headers t
      | _ => <["content-type"%string := "application/json"%string]> (headers t)
      end
  end.

(** The options and runtime of the examples: every URL resolves to the
    base followed by the path. *)
Definition joinUrl (u base : string) : option string := Some (base +:+ u).

Definition showJson (b : JsValue) : string := "{}".

Definition no_options : HttpTransportOptions :=
  {| opt_baseUrl := None; opt_host := None; opt_port := None;
     opt_secure := None; opt_headers := None; opt_requestTimeoutMs := None |}.

End Http.

(** ** The client: request schemas, the batch builder's methods and the
      choice of transport (types.ts, client.ts) *)

Module Client.

Import Js.

(** ** The request schemas *)

(** The field schemas the request objects are made of. *)
Inductive FieldSchema : Type :=
| nonEmptyString                       (* z.string().min(1) *)
| unknown                              (* z.unknown() *)
| record                               (* z.record(z.string(), z.unknown()) *)
| boolean                              (* z.boolean() *)
| AccessModeSchema                     (* z.enum([...]) *)
| optional (inner : FieldSchema).      (* .optional() *)

Inductive AccessMode : Type :=
| READ_ACCESS
| WRITE_ACCESS
| WRITE_TRANSACTION_ACCESS.

(** [WritableAccessMode]: [Exclude<AccessMode, "READ_ACCESS">]. *)
Inductive WritableAccessMode : Type :=
| Writable_WRITE_ACCESS
| Writable_WRITE_TRANSACTION_ACCESS.

Definition accessName (a : AccessMode) : string :=
  match a with
  | READ_ACCESS => "READ_ACCESS"
  | WRITE_ACCESS => "WRITE_ACCESS"
  | WRITE_TRANSACTION_ACCESS => "WRITE_TRANSACTION_ACCESS"
  end.

Definition writable (a : WritableAccessMode) : AccessMode :=
  match a with
  | Writable_WRITE_ACCESS => WRITE_ACCESS
  | Writable_WRITE_TRANSACTION_ACCESS => WRITE_TRANSACTION_ACCESS
  end.

(** Whether a field schema takes a value; a key that is absent is read as
    [undefined]. *)
Fixpoint accepts (schema : FieldSchema) (v : JsValue) : bool :=
  match schema with
  | nonEmptyString =>
      match v with
      | JsString s => negb (String.eqb s "")
      | _ => false
      end
  | unknown => true
  | record =>
      match v with
      | JsObject _ => true
      | _ => false
      end
  | boolean =>
      match v with
      | JsBoolean _ => true
      | _ => false
      end
  | AccessModeSchema =>
      match v with
      | JsString s =>
          bool_decide
            (s ∈ ["READ_ACCESS"; "WRITE_ACCESS"; "WRITE_TRANSACTION_ACCESS"])
      | _ => false
      end
  | optional inner =>
      match v with
      | JsUndefined => true
      | _ => accepts inner v
      end
  end.

(** [z.object(shape).strict().parse(input)]: every field of the shape
    takes the input's value under its key, and the input has no key
    outside the shape; the object comes back with the keys it had.
    [None] where [parse] throws. *)
Definition strictObject (shape : list (string * FieldSchema))
  (input : gmap string JsValue) : option JsValue :=
  if forallb (fun '(key, schema) =>
                accepts schema (default JsUndefined (input !! key))) shape
     && forallb (fun '(key, _) => bool_decide (key ∈ shape.*1))
          (map_to_list input)
  then Some (JsObject input)
  else None.

Definition ObjectCallRequestSchema : list (string * FieldSchema) :=
  [ ("objectPath", nonEmptyString);
    ("functionName", nonEmptyString);
    ("parameters", optional record);
    ("generateTransaction", optional boolean) ]%string.

Definition ObjectPropertyRequestSchema : list (string * FieldSchema) :=
  [ ("objectPath", nonEmptyString);
    ("propertyName", optional nonEmptyString);
    ("propertyValue", optional unknown);
    ("access", optional AccessModeSchema) ]%string.

Definition ObjectDescribeRequestSchema : list (string * FieldSchema) :=
  [ ("objectPath", nonEmptyString) ]%string.

(** ** The option bags of the methods *)

Record CallOptions : Type := {
  call_transaction : option bool;
  call_timeoutMs : option Z
}.

Record GetPropertyOptions : Type := {
  get_access : option AccessMode;
  get_timeoutMs : option Z
}.

Record SetPropertyOptions : Type := {
  set_access : option WritableAccessMode;
  set_transaction : option bool;
  set_timeoutMs : option Z
}.

Record DescribeOptions : Type := {
  describe_timeoutMs : option Z
}.

(** [options?.field]: [undefined] when there are no options. *)
Definition field {O A : Type} (f : O -> option A) (options : option O)
  : option A :=
  match options with
  | Some o => f o
  | None => None
  end.

(** The object literals the methods hand to [parse].  A spread
    [...(c ? { k: v } : {})] sets the key when [c] is truthy. *)

Definition callLiteral (objectPath functionName : string)
  (parameters : option (gmap string JsValue)) (transaction : option bool)
  : gmap string JsValue :=
  let o := <["functionName" := JsString functionName]>
             (<["objectPath" := JsString objectPath]> ∅) in
  let o := match parameters with
           | Some p => <["parameters" := JsObject p]> o
           | None => o
           end in
  if default false transaction
  then <["generateTransaction" := JsBoolean true]> o
  else o.

Definition propertyLiteral (objectPath propertyName : string)
  (access : AccessMode) : gmap string JsValue :=
  <["access" := JsString (accessName access)]>
    (<["propertyName" := JsString propertyName]>
       (<["objectPath" := JsString objectPath]> ∅)).

Definition propertiesLiteral (objectPath : string) (access : AccessMode)
  : gmap string JsValue :=
  <["access" := JsString (accessName access)]>
    (<["objectPath" := JsString objectPath]> ∅).

Definition setPropertyLiteral (objectPath propertyName : string)
  (propertyValue : JsValue) (access : AccessMode) : gmap string JsValue :=
  <["access" := JsString (accessName access)]>
    (<["propertyValue" := propertyValue]>
       (<["propertyName" := JsString propertyName]>
          (<["objectPath" := JsString objectPath]> ∅))).

Definition describeLiteral (objectPath : string) : gmap string JsValue :=
  <["objectPath" := JsString objectPath]> ∅.

(** [options?.access ?? (options?.transaction ? "WRITE_TRANSACTION_ACCESS"
    : "WRITE_ACCESS")]. *)
Definition setPropertyAccess (access : option WritableAccessMode)
  (transaction : option bool) : AccessMode :=
  match access with
  | Some a => writable a
  | None =>
      if default false transaction then WRITE_TRANSACTION_ACCESS
      else WRITE_ACCESS
  end.

(** ** [BatchBuilder]'s methods, on the builder's [requests]

    Each gives the identifier returned and the list afterwards, or [None]
    where it throws, and then the list is as it was. *)

Module BatchBuilder.

Definition State : Type := list Batch.BatchRequestItem.

Definition call (objectPath functionName : string)
  (parameters : option (gmap string JsValue))
  (transaction : option bool) (requests : State) : option (Z * State) :=
  match strictObject ObjectCallRequestSchema
          (callLiteral objectPath functionName parameters transaction) with
  | Some body => Batch.add Ws.PUT "/remote/object/call" body requests
  | None => None
  end.

(** The parameter [access] has the default ["READ_ACCESS"]. *)
Definition getProperty (objectPath propertyName : string)
  (access : option AccessMode) (requests : State) : option (Z * State) :=
  let access := default READ_ACCESS access in
  if accepts AccessModeSchema (JsString (accessName access)) then
    match strictObject ObjectPropertyRequestSchema
            (propertyLiteral objectPath propertyName access) with
    | Some body => Batch.add Ws.PUT "/remote/object/property" body requests
    | None => None
    end
  else None.

Definition setProperty (objectPath propertyName : string)
  (propertyValue : JsValue) (access : option WritableAccessMode)
  (transaction : option bool) (requests : State) : option (Z * State) :=
  let access := setPropertyAccess access transaction in
  match strictObject ObjectPropertyRequestSchema
          (setPropertyLiteral objectPath propertyName propertyValue access)
  with
  | Some body => Batch.add Ws.PUT "/remote/object/property" body requests
  | None => None
  end.

Definition describe (objectPath : string) (requests : State)
  : option (Z * State) :=
  match strictObject ObjectDescribeRequestSchema
          (describeLiteral objectPath) with
  | Some body => Batch.add Ws.PUT "/remote/object/describe" body requests
  | None => None
  end.

Definition request (verb : Ws.HttpVerb) (url : string) (body : JsValue)
  (requests : State) : option (Z * State) :=
  Batch.add verb url body requests.

End BatchBuilder.

(** ** [UnrealRC]'s methods, up to the call of [this.send]

    What a method hands to [send]: the verb, the URL, the parsed body and
    the time limit; [None] where [parse] throws and nothing is sent. *)

Record Sent : Type := {
  verb : Ws.HttpVerb;
  url : string;
  body : JsValue;
  timeoutMs : option Z
}.

Definition call (objectPath functionName : string)
  (parameters : option (gmap string JsValue)) (options : option CallOptions)
  : option Sent :=
  match strictObject ObjectCallRequestSchema
          (callLiteral objectPath functionName parameters
             (field call_transaction options)) with
  | Some body =>
      Some {| verb := Ws.PUT; url := "/remote/object/call"; body := body;
              timeoutMs := field call_timeoutMs options |}
  | None => None
  end.

Definition getProperty (objectPath propertyName : string)
  (options : option GetPropertyOptions) : option Sent :=
  match strictObject ObjectPropertyRequestSchema
          (propertyLiteral objectPath propertyName
             (default READ_ACCESS (field get_access options))) with
  | Some body =>
      Some {| verb := Ws.PUT; url := "/remote/object/property"; body := body;
              timeoutMs := field get_timeoutMs options |}
  | None => None
  end.

Definition getProperties (objectPath : string)
  (options : option GetPropertyOptions) : option Sent :=
  match strictObject ObjectPropertyRequestSchema
          (propertiesLiteral objectPath
             (default READ_ACCESS (field get_access options))) with
  | Some body =>
      Some {| verb := Ws.PUT; url := "/remote/object/property"; body := body;
              timeoutMs := field get_timeoutMs options |}
  | None => None
  end.

Definition setProperty (objectPath propertyName : string)
  (propertyValue : JsValue) (options : option SetPropertyOptions)
  : option Sent :=
  let access :=
    setPropertyAccess (field set_access options)
      (field set_transaction options) in
  match strictObject ObjectPropertyRequestSchema
          (setPropertyLiteral objectPath propertyName propertyValue access)
  with
  | Some body =>
      Some {| verb := Ws.PUT; url := "/remote/object/property"; body := body;
              timeoutMs := field set_timeoutMs options |}
  | None => None
  end.

Definition describe (objectPath : string) (options : option DescribeOptions)
  : option Sent :=
  match strictObject ObjectDescribeRequestSchema
          (describeLiteral objectPath) with
  | Some body =>
      Some {| verb := Ws.PUT; url := "/remote/object/describe"; body := body;
              timeoutMs := field describe_timeoutMs options |}
  | None => None
  end.

(** The entry a sent request makes in a batch at position [requestId]. *)
Definition asBatchItem (requestId : Z) (s : Sent) : Batch.BatchRequestItem :=
  {| Batch.RequestId := requestId; Batch.URL := url s;
     Batch.Verb := verb s; Batch.Body := Some (body s) |}.

(** What it is for a builder method to do as the client's method of the
    same name does: the request the client would send is appended, under
    the next free identifier, and where the client throws so does the
    builder. *)
Definition mirrors (sent : option Sent)
  (added : option (Z * BatchBuilder.State)) (requests : BatchBuilder.State)
  : Prop :=
  match sent with
  | Some s =>
      added = Some (Z.of_nat (length requests),
                    requests ++ [asBatchItem (Z.of_nat (length requests)) s])
  | None => added = None
  end.

(** ** [UnrealRC.getProperty], from the call to the value returned *)

(** [ObjectPropertyResponseSchema.parse(raw)]: the schema is
    [z.object({ ReturnValue: z.unknown().optional() }).passthrough()],
    which takes an object that is no array, whatever its keys, and gives
    it back with all of them. [None] where [parse] throws. *)
Definition ObjectPropertyResponseSchema (raw : JsValue) : option JsValue :=
  match raw with
  | JsObject fields => Some (JsObject fields)
  | _ => None
  end.

(** What the transport does with a request: its promise is fulfilled with
    a value or rejected with an error ([ensureConnected] failing counts
    as the latter). *)
Inductive Answer (E : Type) : Type :=
| Answered (raw : JsValue)
| Failed (error : E).

Arguments Answered {E} raw.
Arguments Failed {E} error.

(** How a method of the client ends. *)
Inductive Outcome (E A : Type) : Type :=
| Returned (value : A)
| RequestRefused             (* the request schema threw: nothing was sent *)
| TransportFailed (error : E)
| ResponseRefused.           (* the response schema threw *)

Arguments Returned {E A} value.
Arguments RequestRefused {E A}.
Arguments TransportFailed {E A} error.
Arguments ResponseRefused {E A}.

(** [send], from the transport's answer on. *)
Definition send {E : Type} (validateResponses : bool)
  (responseSchema : JsValue -> option JsValue) (answer : Answer E)
  : Outcome E JsValue :=
  match answer with
  | Failed error => TransportFailed error
  | Answered raw =>
      if negb validateResponses then Returned raw
      else
        match responseSchema raw with
        | Some response => Returned response
        | None => ResponseRefused
        end
  end.

(** [UnrealRC.getProperty] as a whole, on a client made with
    [validateResponses]; [answer] is what the transport does with the
    request, and [inherits] the runtime's prototype chain. *)
Definition getPropertyOutcome {E : Type} (inherits : JsValue -> string -> bool)
  (validateResponses : option bool) (objectPath propertyName : string)
  (options : option GetPropertyOptions) (answer : Answer E)
  : Outcome E Helpers.Member :=
  match getProperty objectPath propertyName options with
  | None => RequestRefused
  | Some _ =>
      match send (default true validateResponses)
              ObjectPropertyResponseSchema answer with
      | Returned response =>
          Returned (Helpers.namedOrReturnValue inherits response propertyName)
      | RequestRefused => RequestRefused
      | TransportFailed error => TransportFailed error
      | ResponseRefused => ResponseRefused
      end
  end.

(** ** The choice of transport *)

(** [options.transport]: one of the two names or a transport object. *)
Inductive TransportChoice (T : Type) : Type :=
| ws_transport
| http_transport
| given (transport : T).

Arguments ws_transport {T}.
Arguments http_transport {T}.
Arguments given {T} transport.

Record UnrealRCOptions (T : Type) : Type := {
  opt_transport : option (TransportChoice T);
  opt_host : option string;
  opt_port : option Z;
  opt_secure : option bool;
  opt_ws : option Ws.WebSocketTransportOptions;
  opt_http : option Http.HttpTransportOptions;
  opt_validateResponses : option bool
}.

Arguments opt_transport {T}.
Arguments opt_host {T}.
Arguments opt_port {T}.
Arguments opt_secure {T}.
Arguments opt_ws {T}.
Arguments opt_http {T}.
Arguments opt_validateResponses {T}.

Definition DEFAULT_WS_PORT : Z := 30020.
Definition DEFAULT_HTTP_PORT : Z := 30010.

(** [a ?? b] on options. *)
Definition orElse {A : Type} (a b : option A) : option A :=
  match a with
  | Some _ => a
  | None => b
  end.

(** The options [createTransport] makes for the HTTP transport: those of
    [options.http], with host, port and secure of the top level over
    them, and a port in any case. *)
Definition httpOptions {T : Type} (options : UnrealRCOptions T)
  : Http.HttpTransportOptions :=
  let base := default Http.no_options (opt_http options) in
  {| Http.opt_baseUrl := Http.opt_baseUrl base;
     Http.opt_host := orElse (opt_host options) (Http.opt_host base);
     Http.opt_port :=
       match opt_port options with
       | Some p => Some p
       | None =>
           Some (default DEFAULT_HTTP_PORT
                   (field Http.opt_port (opt_http options)))
       end;
     Http.opt_secure := orElse (opt_secure options) (Http.opt_secure base);
     Http.opt_headers := Http.opt_headers base;
     Http.opt_requestTimeoutMs := Http.opt_requestTimeoutMs base |}.

Definition wsOptions {T : Type} (options : UnrealRCOptions T)
  : Ws.WebSocketTransportOptions :=
  let base := default Ws.no_options (opt_ws options) in
  {| Ws.opt_baseUrl := Ws.opt_baseUrl base;
     Ws.opt_host := orElse (opt_host options) (Ws.opt_host base);
     Ws.opt_port :=
       match opt_port options with
       | Some p => Some p
       | None =>
           Some (default DEFAULT_WS_PORT
                   (field Ws.opt_port (opt_ws options)))
       end;
     Ws.opt_secure := orElse (opt_secure options) (Ws.opt_secure base);
     Ws.opt_connectTimeoutMs := Ws.opt_connectTimeoutMs base;
     Ws.opt_requestTimeoutMs := Ws.opt_requestTimeoutMs base;
     Ws.opt_pingIntervalMs := Ws.opt_pingIntervalMs base;
     Ws.opt_autoReconnect := Ws.opt_autoReconnect base;
     Ws.opt_reconnectInitialDelayMs := Ws.opt_reconnectInitialDelayMs base;
     Ws.opt_reconnectMaxDelayMs := Ws.opt_reconnectMaxDelayMs base;
     Ws.opt_reconnectBackoffFactor := Ws.opt_reconnectBackoffFactor base;
     Ws.opt_disconnectedBehavior := Ws.opt_disconnectedBehavior base;
     Ws.opt_maxQueueSize := Ws.opt_maxQueueSize base |}.

(** The transport a client is built on. *)
Inductive Created (T : Type) : Type :=
| CreatedWs (t : Ws.Transport)
| CreatedHttp (t : Http.HttpTransport)
| Custom (t : T).

Arguments CreatedWs {T} t.
Arguments CreatedHttp {T} t.
Arguments Custom {T} t.

Definition createTransport {T : Type} (options : UnrealRCOptions T)
  : Created T :=
  match opt_transport options with
  | Some (given transport) => Custom transport
  | Some http_transport => CreatedHttp (Http.new (httpOptions options))
  | Some ws_transport | None => CreatedWs (Ws.new (wsOptions options))
  end.

End Client.

(** * Properties *)

Import Ws Examples.

Lemma andThen_eq (a b : Action) t t1 e1 t2 e2 :
  a t = (t1, e1) -> b t1 = (t2, e2) -> (a >> b) t = (t2, e1 ++ e2).
Proof. intros Ha Hb. unfold andThen. now rewrite Ha, Hb. Qed.

Lemma andThen_inv (a b : Action) t t2 e :
  (a >> b) t = (t2, e) ->
  exists t1 e1 e2, a t = (t1, e1) /\ b t1 = (t2, e2) /\ e = e1 ++ e2.
Proof.
  unfold andThen. destruct (a t) as [t1 e1] eqn:Ha.
  destruct (b t1) as [t2' e2] eqn:Hb.
  intros [= <- <-]. exists t1, e1, e2. auto.
Qed.

Lemma runAll_nil {A} (f : A -> Action) : runAll f [] = skip.
Proof. reflexivity. Qed.

Lemma runAll_cons {A} (f : A -> Action) x l :
  runAll f (x :: l) = f x >> runAll f l.
Proof. reflexivity. Qed.

Lemma runAll_app {A} (f : A -> Action) l1 l2 t :
  runAll f (l1 ++ l2) t = (runAll f l1 >> runAll f l2) t.
Proof.
  revert t. induction l1 as [|x l1 IH]; intros t.
  - unfold andThen. rewrite runAll_nil. unfold skip. simpl app.
    now destruct (runAll f l2 t).
  - simpl app. rewrite runAll_cons. unfold andThen in *.
    rewrite runAll_cons. unfold andThen.
    destruct (f x t) as [t1 e1]. rewrite IH.
    destruct (runAll f l1 t1) as [t2 e2]. destruct (runAll f l2 t2) as [t3 e3].
    now rewrite app_assoc.
Qed.

Lemma omap_nothing {A B} (f : A -> option B) (l : list A) :
  Forall (fun x => f x = None) l -> omap f l = [].
Proof. induction 1 as [|x l Hx _ IH]; cbn; [reflexivity|]. now rewrite Hx. Qed.

(** ** The outbound buffer: capacity *)

(** With the buffer at its capacity a call is turned away. *)
Lemma request_over_capacity_step rt (N : nat) t v u b timeout :
  connectedState t && socketIsOpen t = false ->
  disconnectedBehavior (options t) = queue ->
  maxQueueSize (options t) = Z.of_nat N ->
  length (queuedRequests t) = N ->
  request rt v u b timeout t =
    (set_nextRequestId (nextRequestId t + 1) t,
     [Reject (nextRequestId t) (plainError (QueueLimitReached (Z.of_nat N)))]).
Proof.
  intros Hopen Hpolicy Hmax Hlen.
  unfold request. cbn. unfold socketIsOpen in *. cbn. rewrite Hopen.
  rewrite Hpolicy, Hmax, Hlen.
  destruct (Z.geb_spec (Z.of_nat N) (Z.of_nat N)) as [_|H]; [reflexivity|lia].
Qed.

(** C3: with [N] calls buffered, capacity [N], and the channel not open
    under the [queue] policy, the next call is rejected at once with the
    capacity error; the buffer and the pending map are as before, and only
    the identifier counter moved. *)
Theorem request_over_capacity rt (N : nat) t v u b timeout :
  connectedState t && socketIsOpen t = false ->
  disconnectedBehavior (options t) = queue ->
  maxQueueSize (options t) = Z.of_nat N ->
  length (queuedRequests t) = N ->
  request rt v u b timeout t =
    (set_nextRequestId (nextRequestId t + 1) t,
     [Reject (nextRequestId t) (plainError (QueueLimitReached (Z.of_nat N)))])
  /\ queuedRequests (fst (request rt v u b timeout t)) = queuedRequests t
  /\ pendingRequests (fst (request rt v u b timeout t)) = pendingRequests t.
Proof.
  intros Hopen Hpolicy Hmax Hlen.
  rewrite (request_over_capacity_step rt N t v u b timeout Hopen Hpolicy Hmax Hlen).
  cbn. auto.
Qed.

Lemma request_over_capacity_witness :
  List.map requestId (queuedRequests twoBuffered) = [1; 2]
  /\ request nullRuntime DELETE "/x" JsUndefined None twoBuffered =
       (set_nextRequestId 4 twoBuffered,
        [Reject 3 (plainError (QueueLimitReached 2))]).
Proof.
  split; [reflexivity|].
  apply (request_over_capacity nullRuntime 2 twoBuffered DELETE "/x" JsUndefined None);
    reflexivity.
Defined.

Lemma andThen_fst (a b : Action) t : fst ((a >> b) t) = fst (b (fst (a t))).
Proof.
  unfold andThen. destruct (a t) as [t1 e1]. cbn. now destruct (b t1).
Qed.

Lemma andThen_snd (a b : Action) t :
  snd ((a >> b) t) = snd (a t) ++ snd (b (fst (a t))).
Proof.
  unfold andThen. destruct (a t) as [t1 e1]. cbn. now destruct (b t1).
Qed.

Lemma run_cons rt e es : run rt (e :: es) = handle rt e >> run rt es.
Proof. reflexivity. Qed.

Lemma run_nil rt t : run rt [] t = (t, []).
Proof. reflexivity. Qed.

Lemma run_app rt es1 es2 t :
  run rt (es1 ++ es2) t = (run rt es1 >> run rt es2) t.
Proof. apply runAll_app. Qed.

(** ** Flushing the buffer *)

Lemma sendRequest_queue r t :
  queuedRequests (fst (sendRequest r t)) = queuedRequests t.
Proof.
  unfold sendRequest. destruct (socket t) as [w|]; [|reflexivity].
  destruct (negb _); [reflexivity|].
  destruct (ws_send w) as [threw w']. now destruct threw.
Qed.

Lemma sendRequest_connected r t :
  connectedState (fst (sendRequest r t)) = connectedState t
  /\ nextRequestId (fst (sendRequest r t)) = nextRequestId t.
Proof.
  unfold sendRequest. destruct (socket t) as [w|]; [|easy].
  destruct (negb _); [easy|].
  destruct (ws_send w) as [threw w']. now destruct threw.
Qed.

(** What [sendRequest] does to a call on an open socket: one frame with the
    call's envelope, or one rejection when the send throws. *)
Lemma sendRequest_open r t w :
  socket t = Some w -> readyState w = OPEN ->
  let '(t', es) := sendRequest r t in
  attempted es = [requestId r]
  /\ socket t' = Some (snd (ws_send w))
  /\ (if fst (ws_send w)
      then sent es = [] /\ es = [Reject (requestId r) (plainError FailedToSend)]
      else sent es = [envelopeOf r]).
Proof.
  intros Hs Ho. unfold sendRequest. rewrite Hs, Ho. cbn.
  destruct (ws_send w) as [threw w']. destruct threw; cbn; auto.
Qed.

Lemma ReadyState_eqb_eq a b : ReadyState_eqb a b = true <-> a = b.
Proof. destruct a, b; cbn; split; congruence. Qed.

Lemma ws_send_future w :
  ws_future (snd (ws_send w)) = List.tl (ws_future w)
  /\ ws_id (snd (ws_send w)) = ws_id w.
Proof. unfold ws_send. destruct (ws_future w) eqn:E; cbn; rewrite ?E; auto. Qed.

Lemma ws_send_neverThrows w :
  neverThrows (ws_future w) = true ->
  fst (ws_send w) = false /\ neverThrows (ws_future (snd (ws_send w))) = true.
Proof.
  unfold ws_send, neverThrows.
  destruct (ws_future w) as [|o rest] eqn:E; cbn; rewrite ?E; [easy|].
  intros [H1 H2]%andb_prop. split; [now apply negb_true_iff|easy].
Qed.

Lemma ws_send_staysOpen w :
  readyState w = OPEN -> staysOpen (ws_future w) = true ->
  readyState (snd (ws_send w)) = OPEN
  /\ staysOpen (ws_future (snd (ws_send w))) = true.
Proof.
  unfold ws_send, staysOpen.
  destruct (ws_future w) as [|o rest] eqn:E; cbn; rewrite ?E; [easy|].
  intros _ [H1 H2]%andb_prop. split; [now apply ReadyState_eqb_eq|easy].
Qed.

(** The loop deals with a prefix of the buffer, call by call in order, and
    leaves the rest where it was. *)
Lemma flushLoop_prefix q : forall t,
  queuedRequests t = q ->
  exists k : nat,
    (k <= length q)%nat
    /\ queuedRequests (fst (flushLoop q t)) = drop k q
    /\ attempted (snd (flushLoop q t)) = List.map requestId (take k q)
    /\ sublist (sent (snd (flushLoop q t))) (List.map envelopeOf (take k q))
    /\ nextRequestId (fst (flushLoop q t)) = nextRequestId t
    /\ (forall w, socket t = Some w -> neverThrows (ws_future w) = true ->
        sent (snd (flushLoop q t)) = List.map envelopeOf (take k q))
    /\ (forall w, socket t = Some w -> readyState w = OPEN ->
        connectedState t = true -> staysOpen (ws_future w) = true ->
        k = length q).
Proof.
  induction q as [|next rest IH]; intros t Hq.
  - exists 0%nat. cbn. repeat split; auto; try constructor.
  - cbn [flushLoop].
    assert (Hc : connectedState (set_queuedRequests rest t) = connectedState t)
      by reflexivity.
    assert (Hso : socketIsOpen (set_queuedRequests rest t) = socketIsOpen t)
      by reflexivity.
    rewrite Hc, Hso.
    destruct (negb (connectedState t) || negb (socketIsOpen t)) eqn:Hchk.
    + exists 0%nat. cbn. repeat split; auto; try lia; try constructor.
      intros w Hw Ho Hcon _. unfold socketIsOpen in Hchk. rewrite Hw, Ho, Hcon in Hchk.
      discriminate.
    + apply orb_false_elim in Hchk as [Hcon Hopen].
      apply negb_false_iff in Hcon, Hopen.
      unfold socketIsOpen in Hopen.
      destruct (socket t) as [w|] eqn:Hw; [|discriminate].
      apply ReadyState_eqb_eq in Hopen.
      pose proof (sendRequest_open next (set_queuedRequests rest t) w Hw Hopen) as Hsend.
      pose proof (sendRequest_queue next (set_queuedRequests rest t)) as Hqueue.
      pose proof (sendRequest_connected next (set_queuedRequests rest t)) as [Hconn Hnext].
      destruct (sendRequest next (set_queuedRequests rest t)) as [t2 e2].
      cbn [fst snd] in *. destruct Hsend as (Hatt & Hsock & Hsent).
      destruct (IH t2 Hqueue) as (k & Hk & Hdrop & Hattempted & Hsub & Hid & Hall & Hfull).
      destruct (flushLoop rest t2) as [t3 e3]. cbn [fst snd] in *.
      exists (S k). cbn [length take drop List.map].
      unfold attempted, sent in *. rewrite !omap_app.
      repeat split.
      * lia.
      * exact Hdrop.
      * now rewrite Hatt, Hattempted.
      * destruct (fst (ws_send w)).
        -- destruct Hsent as [-> _]. now apply sublist_cons.
        -- rewrite Hsent. now apply sublist_skip.
      * now rewrite Hid, Hnext.
      * intros w0 [= <-] Hnever.
        destruct (ws_send_neverThrows w Hnever) as [Hno Hnever'].
        rewrite Hno in Hsent. rewrite Hsent. cbn. f_equal.
        now apply (Hall _ Hsock).
      * intros w0 [= <-] _ _ Hstay.
        destruct (ws_send_staysOpen w Hopen Hstay) as [Ho' Hstay'].
        f_equal. apply (Hfull _ Hsock Ho'); [|exact Hstay'].
        now rewrite Hconn.
Qed.

Lemma startPing_frame t :
  let t' := fst (startPing t) in
  socket t' = socket t /\ connectedState t' = connectedState t
  /\ queuedRequests t' = queuedRequests t
  /\ pendingRequests t' = pendingRequests t
  /\ nextRequestId t' = nextRequestId t
  /\ attempted (snd (startPing t)) = [] /\ sent (snd (startPing t)) = [].
Proof.
  unfold startPing, stopPing, andThen.
  destruct (pingTimer t); cbn; destruct (_ <=? _); cbn; auto 10.
Qed.

(** A call submitted while the channel is not open, under the [queue]
    policy and with room in the buffer, draws its identifier and goes to
    the end of the buffer; nothing is written. It stays there, and nothing
    is settled, unless the [connect()] that follows is rejected at once
    and auto-reconnect is off: then the handler of [request] rejects the
    buffered calls, this one last. *)
Lemma request_while_closed rt t v u b timeout :
  connectedState t && socketIsOpen t = false ->
  disconnectedBehavior (options t) = queue ->
  Z.of_nat (length (queuedRequests t)) < maxQueueSize (options t) ->
  let r := request rt v u b timeout t in
  nextRequestId (fst r) = nextRequestId t + 1
  /\ pendingRequests (fst r) = pendingRequests t
  /\ sent (snd r) = []
  /\ if connectFailsAtOnce rt t && negb (autoReconnect (options t))
     then queuedRequests (fst r) = []
          /\ rejections (snd r)
             = List.map
                 (fun id => (id, plainError DisconnectedNoAutoReconnect))
                 (queuedIds t ++ [nextRequestId t])
     else queuedRequests (fst r)
            = queuedRequests t ++ [outboundOf t v u b timeout]
          /\ settled (snd r) = [].
Proof.
  intros Hopen Hpolicy Hroom. cbv zeta.
  assert (forall q,
            rejections (rejectQueuedLoop DisconnectedNoAutoReconnect q)
            = List.map
                (fun id => (id, plainError DisconnectedNoAutoReconnect))
                (List.map requestId q)) as Hloop.
  { induction q as [|r q IH]; [reflexivity|].
    unfold rejections in *. cbn. now f_equal. }
  assert (forall q, sent (rejectQueuedLoop DisconnectedNoAutoReconnect q) = [])
    as Hnone.
  { induction q as [|r q IH]; [reflexivity|]. exact IH. }
  unfold request. cbn. unfold socketIsOpen in *. cbn. rewrite Hopen, Hpolicy.
  destruct (Z.geb_spec (Z.of_nat (length (queuedRequests t)))
              (maxQueueSize (options t))) as [H|_]; [lia|].
  unfold connectFailsAtOnce, andThen, assign, connect, emit, runCatcher,
    rejectQueuedRequests, outboundOf, queuedIds.
  cbn.
  destruct (disposed t); cbn.
  - destruct (autoReconnect (options t)); cbn; [auto|].
    rewrite Hloop, Hnone, List.map_app. auto.
  - destruct (connectedState t); cbn; [auto|].
    destruct (connectPromise t); cbn; [auto|].
    destruct (WebSocket_throws rt (url (options t))); cbn; [|auto].
    destruct (autoReconnect (options t)); cbn; [auto|].
    rewrite Hloop, Hnone, List.map_app. auto.
Qed.

Lemma request_buffers rt t v u b timeout :
  connectedState t && socketIsOpen t = false ->
  disconnectedBehavior (options t) = queue ->
  Z.of_nat (length (queuedRequests t)) < maxQueueSize (options t) ->
  connectFailsAtOnce rt t && negb (autoReconnect (options t)) = false ->
  queuedRequests (fst (request rt v u b timeout t))
    = queuedRequests t ++ [outboundOf t v u b timeout]
  /\ nextRequestId (fst (request rt v u b timeout t)) = nextRequestId t + 1
  /\ pendingRequests (fst (request rt v u b timeout t)) = pendingRequests t
  /\ sent (snd (request rt v u b timeout t)) = []
  /\ settled (snd (request rt v u b timeout t)) = [].
Proof.
  intros Hopen Hpolicy Hroom Hfail.
  pose proof (request_while_closed rt t v u b timeout Hopen Hpolicy Hroom)
    as (Hn & Hp & Hs & Hq).
  cbv zeta in *. rewrite Hfail in Hq. destruct Hq as [Hq Hset]. auto.
Qed.

(** With an attempt in flight [connect()] joins it. *)
Lemma joins_attempt rt t a :
  connectPromise t = Some a ->
  connectFailsAtOnce rt t = disposed t.
Proof.
  intros Ha. unfold connectFailsAtOnce. rewrite Ha.
  rewrite bool_decide_eq_true_2 by eauto. cbn.
  now rewrite andb_false_r, orb_false_r.
Qed.

(** ** The outbound buffer: order of the flush *)

Lemma onOpen_flush rt t a future :
  connectPromise t = Some a ->
  exists t1,
    queuedRequests t1 = queuedRequests t
    /\ nextRequestId t1 = nextRequestId t
    /\ connectedState t1 = true
    /\ socket t1 =
         Some {| ws_id := ws_id (attempt_socket a); readyState := OPEN;
                 ws_future := future |}
    /\ queuedRequests (fst (onOpen rt future t))
         = queuedRequests (fst (flushLoop (queuedRequests t) t1))
    /\ nextRequestId (fst (onOpen rt future t))
         = nextRequestId (fst (flushLoop (queuedRequests t) t1))
    /\ attempted (snd (onOpen rt future t))
         = attempted (snd (flushLoop (queuedRequests t) t1))
    /\ sent (snd (onOpen rt future t))
         = sent (snd (flushLoop (queuedRequests t) t1)).
Proof.
  intros Ha. unfold onOpen. rewrite Ha.
  unfold andThen, emit, attachSocket, assign, settleConnect, skip,
    flushQueuedRequests.
  set (t0 := set_reconnectAttempt 0%nat _).
  pose proof (startPing_frame t0) as (Hs & Hc & Hq & Hp & Hn & Hatt & Hsent).
  destruct (startPing t0) as [t1 e1]. cbn [fst snd] in *.
  exists t1. rewrite Hq. subst t0. cbn in Hs, Hc, Hq, Hn |- *.
  destruct (flushLoop (queuedRequests t) t1) as [t2 e2]. cbn.
  unfold attempted, sent in *. rewrite !omap_app, Hatt, Hsent. cbn.
  rewrite !app_nil_r. auto 10.
Qed.

(** C4: when the channel opens, the transport goes through the buffered
    calls from the oldest on: it deals with the first [k] of them in order,
    each written to the channel or, if that send throws, rejected; the
    others stay buffered in their order. On a socket whose sends do not
    throw the frames written are exactly those [k] envelopes in order, and
    on a socket that stays open the whole buffer is dealt with. The buffer
    is in submission order, because [request] appends to it. *)
Theorem flush_in_submission_order rt t a future :
  connectPromise t = Some a ->
  (exists k : nat,
    (k <= length (queuedRequests t))%nat
    /\ queuedRequests (fst (onOpen rt future t)) = drop k (queuedRequests t)
    /\ attempted (snd (onOpen rt future t))
         = List.map requestId (take k (queuedRequests t))
    /\ sublist (sent (snd (onOpen rt future t)))
         (List.map envelopeOf (take k (queuedRequests t)))
    /\ (neverThrows future = true ->
        sent (snd (onOpen rt future t))
          = List.map envelopeOf (take k (queuedRequests t)))
    /\ (staysOpen future = true -> k = length (queuedRequests t)))
  /\ (forall v u b timeout,
        connectedState t && socketIsOpen t = false ->
        disconnectedBehavior (options t) = queue ->
        Z.of_nat (length (queuedRequests t)) < maxQueueSize (options t) ->
        disposed t && negb (autoReconnect (options t)) = false ->
        queuedRequests (fst (request rt v u b timeout t))
          = queuedRequests t ++ [outboundOf t v u b timeout]).
Proof.
  intros Ha. split.
  - destruct (onOpen_flush rt t a future Ha)
      as (t1 & Hq & Hn & Hc & Hs & Eq & En & Eatt & Esent).
    destruct (flushLoop_prefix (queuedRequests t) t1 Hq)
      as (k & Hk & Hdrop & Hatt & Hsub & Hid & Hall & Hfull).
    exists k. rewrite Eq, Eatt, Esent. repeat split; auto.
    + intros Hnever. now apply (Hall _ Hs).
    + intros Hstay. now apply (Hfull _ Hs).
  - intros v u b timeout H1 H2 H3 H4.
    apply request_buffers; auto. now rewrite (joins_attempt rt t a Ha).
Qed.

Lemma flush_in_submission_order_witness :
  let t := threeBuffered in
  List.map requestId (queuedRequests t) = [1; 2; 3]
  /\ List.map RequestId (sent (snd (onOpen nullRuntime closesAfterTwo t))) = [1; 2]
  /\ List.map requestId (queuedRequests (fst (onOpen nullRuntime closesAfterTwo t))) = [3]
  /\ exists k : nat,
       (k <= 3)%nat
       /\ queuedRequests (fst (onOpen nullRuntime closesAfterTwo t))
            = drop k (queuedRequests t)
       /\ attempted (snd (onOpen nullRuntime closesAfterTwo t))
            = List.map requestId (take k (queuedRequests t)).
Proof.
  cbv zeta. split; [reflexivity|]. split; [reflexivity|].
  split; [reflexivity|].
  destruct (flush_in_submission_order nullRuntime threeBuffered
              {| attempt_socket :=
                   {| ws_id := 0; readyState := CONNECTING; ws_future := [] |};
                 attempt_catchers := [CatchOfRequest; CatchOfRequest; CatchOfRequest] |}
              closesAfterTwo eq_refl) as [(k & Hk & Hq & Hatt & _) _].
  exists k. auto.
Defined.

(** Buffering a call leaves the connection as it is. *)
Lemma request_buffers_frame rt t v u b timeout :
  connectedState t && socketIsOpen t = false ->
  disconnectedBehavior (options t) = queue ->
  Z.of_nat (length (queuedRequests t)) < maxQueueSize (options t) ->
  connectFailsAtOnce rt t && negb (autoReconnect (options t)) = false ->
  let t' := fst (request rt v u b timeout t) in
  options t' = options t /\ disposed t' = disposed t
  /\ connectedState t' = connectedState t /\ socket t' = socket t
  /\ connectFailsAtOnce rt t' && negb (autoReconnect (options t')) = false.
Proof.
  intros Hopen Hpolicy Hroom. unfold connectFailsAtOnce.
  unfold request. cbn. unfold socketIsOpen in *. cbn. rewrite Hopen, Hpolicy.
  destruct (Z.geb_spec (Z.of_nat (length (queuedRequests t)))
              (maxQueueSize (options t))) as [H|_]; [lia|].
  unfold andThen, assign, connect, emit, runCatcher. cbn.
  destruct (disposed t) eqn:Hd; cbn.
  - intros Hdis. apply negb_false_iff in Hdis. rewrite Hdis. cbn.
    rewrite Hd, Hdis. auto.
  - destruct (connectedState t) eqn:Hc; cbn; [now rewrite Hd, Hc|].
    destruct (connectPromise t) eqn:Hp; cbn.
    + rewrite Hd, Hc. cbn. auto.
    + destruct (WebSocket_throws rt (url (options t))) eqn:Hw; cbn.
      * intros Hdis. apply negb_false_iff in Hdis. rewrite Hdis. cbn.
        rewrite Hd, Hc, Hp, Hw, Hdis. auto.
      * rewrite Hd, Hc, Hw. cbn. rewrite ?andb_false_r. auto.
Qed.

(** Calls submitted one after the other while the channel is not open and
    the buffer has room for them all: they are buffered in the order of
    submission, with consecutive identifiers, and nothing is written or
    settled. *)
Lemma submissions_are_buffered rt calls : forall t,
  connectedState t && socketIsOpen t = false ->
  disconnectedBehavior (options t) = queue ->
  Z.of_nat (length (queuedRequests t) + length calls) <= maxQueueSize (options t) ->
  connectFailsAtOnce rt t && negb (autoReconnect (options t)) = false ->
  let r := run rt (List.map submit calls) t in
  queuedRequests (fst r)
    = queuedRequests t ++ outbounds (options t) (nextRequestId t) calls
  /\ nextRequestId (fst r) = nextRequestId t + Z.of_nat (length calls)
  /\ pendingRequests (fst r) = pendingRequests t
  /\ sent (snd r) = [] /\ settled (snd r) = []
  /\ options (fst r) = options t
  /\ connectedState (fst r) && socketIsOpen (fst r) = false.
Proof.
  induction calls as [|[[[v u] b] timeout] calls IH];
    intros t Hopen Hpolicy Hroom Hdis.
  - cbn. rewrite app_nil_r, Z.add_0_r. auto 10.
  - cbn [List.map submit]. cbv zeta. rewrite run_cons.
    rewrite andThen_fst, andThen_snd. cbn [handle].
    cbn [length] in Hroom.
    assert (Hroom1 : Z.of_nat (length (queuedRequests t))
                     < maxQueueSize (options t)) by lia.
    destruct (request_buffers rt t v u b timeout Hopen Hpolicy Hroom1 Hdis)
      as (Hq & Hn & Hp & Hs & Hset).
    destruct (request_buffers_frame rt t v u b timeout Hopen Hpolicy Hroom1 Hdis)
      as (Ho & Hd & Hc & Hsock & Hdis1).
    set (t1 := fst (request rt v u b timeout t)) in *.
    assert (Hopen1 : connectedState t1 && socketIsOpen t1 = false).
    { unfold socketIsOpen in *. now rewrite Hc, Hsock. }
    assert (Hroom' : Z.of_nat (length (queuedRequests t1) + length calls)
                     <= maxQueueSize (options t1)).
    { rewrite Hq, Ho, length_app. cbn [length]. lia. }
    rewrite <- Ho in Hpolicy.
    destruct (IH t1 Hopen1 Hpolicy Hroom' Hdis1)
      as (Hq2 & Hn2 & Hp2 & Hs2 & Hset2 & Ho2 & Hopen2).
    unfold sent, settled in *. rewrite !omap_app, Hs, Hs2, Hset, Hset2.
    rewrite Hq2, Hn2, Hp2, Ho2, Hq, Hn, Hp, Ho.
    cbn [outbounds length]. unfold outboundOf. rewrite <- app_assoc.
    repeat split; auto. lia.
Qed.

(** On a transport that is neither disposed nor connected, buffering a
    call leaves a connection attempt in flight. *)
Lemma request_buffers_attempt rt t v u b timeout :
  connectedState t = false -> disposed t = false ->
  WebSocket_throws rt (url (options t)) = false ->
  disconnectedBehavior (options t) = queue ->
  Z.of_nat (length (queuedRequests t)) < maxQueueSize (options t) ->
  is_Some (connectPromise (fst (request rt v u b timeout t))).
Proof.
  intros Hc Hd Hw Hpolicy Hroom.
  unfold request. cbn. rewrite Hc, Hpolicy. cbn.
  destruct (Z.geb_spec (Z.of_nat (length (queuedRequests t)))
              (maxQueueSize (options t))) as [H|_]; [lia|].
  unfold andThen, assign, connect. cbn. rewrite Hd, Hc, Hw.
  destruct (connectPromise t); cbn; now eexists.
Qed.

Lemma submissions_keep_attempt rt calls : forall t,
  connectedState t = false -> disposed t = false ->
  WebSocket_throws rt (url (options t)) = false ->
  disconnectedBehavior (options t) = queue ->
  Z.of_nat (length (queuedRequests t) + length calls) <= maxQueueSize (options t) ->
  is_Some (connectPromise t) \/ calls <> [] ->
  is_Some (connectPromise (fst (run rt (List.map submit calls) t))).
Proof.
  induction calls as [|[[[v u] b] timeout] calls IH];
    intros t Hc Hd Hw Hpolicy Hroom Hsome.
  - destruct Hsome as [H|H]; [exact H|contradiction].
  - cbn [List.map submit]. rewrite run_cons, andThen_fst. cbn [handle].
    cbn [length] in Hroom.
    assert (Hroom1 : Z.of_nat (length (queuedRequests t))
                     < maxQueueSize (options t)) by lia.
    assert (Hopen : connectedState t && socketIsOpen t = false)
      by now rewrite Hc.
    assert (Hdis : connectFailsAtOnce rt t
                   && negb (autoReconnect (options t)) = false).
    { unfold connectFailsAtOnce. rewrite Hd, Hw. cbn.
      now rewrite andb_false_r. }
    destruct (request_buffers rt t v u b timeout Hopen Hpolicy Hroom1 Hdis)
      as (Hq & _).
    destruct (request_buffers_frame rt t v u b timeout Hopen Hpolicy Hroom1 Hdis)
      as (Ho & Hd1 & Hc1 & _).
    pose proof (request_buffers_attempt rt t v u b timeout Hc Hd Hw Hpolicy
                  Hroom1) as Hattempt.
    set (t1 := fst (request rt v u b timeout t)) in *.
    apply IH; [congruence|congruence|congruence|congruence| |now left].
    rewrite Hq, Ho, length_app. cbn [length]. lia.
Qed.

Lemma rejections_unsettled es : settled es = [] -> rejections es = [].
Proof.
  unfold settled, rejections.
  induction es as [|e es IH]; [reflexivity|].
  destruct e as [id v|id err| | | | | | | | | |]; cbn; try exact IH; discriminate.
Qed.

(** [N] calls submitted to a transport that is not connected, has an empty
    buffer of capacity [N] and the [queue] policy, and then one more: the
    [N] are buffered, in order, and the last one is rejected with the
    capacity error. *)
Lemma overflow_after_submissions rt (N : nat) calls c t :
  connectedState t && socketIsOpen t = false ->
  disconnectedBehavior (options t) = queue ->
  connectFailsAtOnce rt t && negb (autoReconnect (options t)) = false ->
  queuedRequests t = [] ->
  maxQueueSize (options t) = Z.of_nat N ->
  length calls = N ->
  let r := run rt (List.map submit calls ++ [submit c]) t in
  queuedRequests (fst r) = outbounds (options t) (nextRequestId t) calls
  /\ rejections (snd r)
       = [(nextRequestId t + Z.of_nat N,
           plainError (QueueLimitReached (Z.of_nat N)))].
Proof.
  intros Hopen Hpolicy Hdis Hempty Hmax Hlen. cbv zeta.
  assert (Hroom : Z.of_nat (length (queuedRequests t) + length calls)
                  <= maxQueueSize (options t)).
  { rewrite Hempty, Hmax, Hlen. cbn. lia. }
  destruct (submissions_are_buffered rt calls t Hopen Hpolicy Hroom Hdis)
    as (Hq & Hn & _ & _ & Hset & Ho & Hopen1).
  rewrite run_app, andThen_fst, andThen_snd.
  set (t1 := fst (run rt (List.map submit calls) t)) in *.
  rewrite Hempty in Hq. cbn [app] in Hq.
  destruct c as [[[v u] b] timeout]. cbn [submit].
  rewrite run_cons, andThen_fst, andThen_snd, run_nil. cbn [handle fst snd].
  assert (Hlen1 : length (queuedRequests t1) = N).
  { rewrite Hq. clear -Hlen. revert Hlen. generalize (nextRequestId t).
    revert N. induction calls as [|[[[v u] b] timeout] calls IH];
      intros N z <-; [reflexivity|]. cbn. f_equal. now apply IH. }
  rewrite <- Ho in Hpolicy, Hmax.
  pose proof (request_over_capacity_step rt N t1 v u b timeout
                Hopen1 Hpolicy Hmax Hlen1) as E.
  rewrite E. cbn [fst snd queuedRequests set_nextRequestId].
  split; [exact Hq|].
  rewrite app_nil_r. unfold rejections, settled in *. rewrite omap_app.
  rewrite Hn, Hlen. cbn.
  assert (Hnone : omap rejectionOf (snd (run rt (List.map submit calls) t)) = [])
    by exact (rejections_unsettled _ Hset).
  now rewrite Hnone.
Qed.

Lemma outbounds_ids c id calls :
  List.map requestId (outbounds c id calls)
    = List.map (fun k => id + Z.of_nat k) (seq 0 (length calls)).
Proof.
  revert id. induction calls as [|[[[v u] b] timeout] calls IH]; intros id;
    [reflexivity|].
  cbn [outbounds List.map length seq requestId]. f_equal; [lia|].
  rewrite IH, <- seq_shift, List.map_map.
  apply List.map_ext. intros k. lia.
Qed.

(** Calls submitted to a transport that is neither connected nor disposed
    and has an empty buffer with room for them, and then the channel opens,
    on a socket that stays open and whose sends do not throw: the frames
    written are the envelopes of the calls in the order of submission, and
    the buffer is empty. The constructor takes the URL, so that an
    attempt is in flight. *)
Lemma buffered_calls_flushed_in_order rt calls t future :
  connectedState t = false -> disposed t = false ->
  WebSocket_throws rt (url (options t)) = false ->
  disconnectedBehavior (options t) = queue ->
  queuedRequests t = [] ->
  Z.of_nat (length calls) <= maxQueueSize (options t) ->
  calls <> [] ->
  neverThrows future = true -> staysOpen future = true ->
  let r := run rt (List.map submit calls ++ [SocketOpened future]) t in
  sent (snd r)
    = List.map envelopeOf (outbounds (options t) (nextRequestId t) calls)
  /\ List.map RequestId (sent (snd r))
       = List.map (fun k => nextRequestId t + Z.of_nat k) (seq 0 (length calls))
  /\ queuedRequests (fst r) = [].
Proof.
  intros Hc Hd Hw Hpolicy Hempty Hroom Hne Hnever Hstay. cbv zeta.
  assert (Hopen : connectedState t && socketIsOpen t = false) by now rewrite Hc.
  assert (Hdis : connectFailsAtOnce rt t
                 && negb (autoReconnect (options t)) = false).
  { unfold connectFailsAtOnce. rewrite Hd, Hw. cbn.
    now rewrite andb_false_r. }
  assert (Hroom' : Z.of_nat (length (queuedRequests t) + length calls)
                   <= maxQueueSize (options t)) by now rewrite Hempty.
  destruct (submissions_are_buffered rt calls t Hopen Hpolicy Hroom' Hdis)
    as (Hq & _ & _ & Hs & _).
  destruct (submissions_keep_attempt rt calls t Hc Hd Hw Hpolicy Hroom'
              (or_intror Hne)) as [a Ha].
  rewrite run_app, andThen_fst, andThen_snd, run_cons, andThen_fst,
    andThen_snd, run_nil. cbn [handle fst snd].
  set (t1 := fst (run rt (List.map submit calls) t)) in *.
  rewrite Hempty in Hq. cbn [app] in Hq.
  destruct (onOpen_flush rt t1 a future Ha)
    as (t2 & Hq2 & _ & Hc2 & Hs2 & Eq & _ & _ & Esent).
  destruct (flushLoop_prefix (queuedRequests t1) t2 Hq2)
    as (k & _ & Hdrop & _ & _ & _ & Hall & Hfull).
  specialize (Hall _ Hs2 Hnever). specialize (Hfull _ Hs2 eq_refl Hc2 Hstay).
  subst k. rewrite firstn_all in Hall. rewrite drop_all in Hdrop.
  assert (Hsent : sent (snd (run rt (List.map submit calls) t) ++
                        (snd (onOpen rt future t1) ++ []))
                  = List.map envelopeOf (queuedRequests t1)).
  { unfold sent in *. rewrite !omap_app, Hs, Esent, Hall. cbn.
    now rewrite app_nil_r. }
  rewrite Hsent, Eq, Hdrop, Hq. repeat split.
  rewrite List.map_map. cbn [RequestId envelopeOf].
  apply outbounds_ids.
Qed.

(** ** Identifiers *)

Lemma sublist_elem_of {A} (l1 l2 : list A) x :
  sublist l1 l2 -> x ∈ l1 -> x ∈ l2.
Proof.
  intros Hs Hx. eapply elem_of_submseteq; [exact Hx|].
  now apply sublist_submseteq.
Qed.

(** C1, as the code has it: the identifier is drawn when the call is
    submitted. A call submitted while the channel is not open, under the
    [queue] policy and with room in the buffer, takes the value of the
    counter, which moves on by one, and nothing is written. The call is
    put at the end of the buffer under this identifier and stays there
    unsettled, except where the [connect()] that [request] then calls is
    rejected at once (the transport is disposed, or an attempt has to be
    begun and the constructor refuses the URL) and auto-reconnect is off:
    there the buffered calls, this one last, are rejected in the same
    task, each under the identifier it was given, and the buffer is
    empty. A flush draws no identifier: the counter stays, and every
    envelope it writes is the envelope of a buffered call, with the
    identifier that call was buffered with. *)
Theorem identifier_drawn_at_submission rt :
  (forall t v u b timeout,
     connectedState t && socketIsOpen t = false ->
     disconnectedBehavior (options t) = queue ->
     Z.of_nat (length (queuedRequests t)) < maxQueueSize (options t) ->
     let r := request rt v u b timeout t in
     requestId (outboundOf t v u b timeout) = nextRequestId t
     /\ nextRequestId (fst r) = nextRequestId t + 1
     /\ sent (snd r) = []
     /\ if connectFailsAtOnce rt t && negb (autoReconnect (options t))
        then queuedRequests (fst r) = []
             /\ rejections (snd r)
                = List.map
                    (fun id => (id, plainError DisconnectedNoAutoReconnect))
                    (queuedIds t ++ [nextRequestId t])
        else queuedRequests (fst r)
               = queuedRequests t ++ [outboundOf t v u b timeout]
             /\ settled (snd r) = [])
  /\ (forall t,
        nextRequestId (fst (flushQueuedRequests t)) = nextRequestId t
        /\ forall env, env ∈ sent (snd (flushQueuedRequests t)) ->
             exists r, r ∈ queuedRequests t /\ env = envelopeOf r
                       /\ RequestId env = requestId r).
Proof.
  split.
  - intros t v u b timeout H1 H2 H3.
    destruct (request_while_closed rt t v u b timeout H1 H2 H3)
      as (Hn & _ & Hs & Hq).
    cbv zeta in *. auto.
  - intros t. unfold flushQueuedRequests.
    destruct (flushLoop_prefix (queuedRequests t) t eq_refl)
      as (k & _ & _ & _ & Hsub & Hid & _).
    split; [exact Hid|].
    intros env Henv. eapply sublist_elem_of in Henv; [|exact Hsub].
    apply list_elem_of_fmap in Henv as (r & -> & Hr).
    exists r. repeat split.
    eapply sublist_elem_of; [apply sublist_take|exact Hr].
Qed.

Lemma identifier_drawn_at_submission_witness :
  let t := twoBuffered in
  nextRequestId t = 3
  /\ (forall env, env ∈ sent (snd (flushQueuedRequests t)) ->
      exists r, r ∈ queuedRequests t /\ env = envelopeOf r
                /\ RequestId env = requestId r)
  /\ List.map requestId
       (queuedRequests
          (fst (request nullRuntime GET "/late" JsUndefined None
                  (new no_options)))) = [1]
  /\ rejections
       (snd (request (refusingRuntime JsNull) GET "/late" JsUndefined None
               (fst (request (refusingRuntime JsNull) GET "/early"
                       JsUndefined None (new no_options)))))
     = []
  /\ rejections
       (snd (request (refusingRuntime JsNull) GET "/late" JsUndefined None
               (new withoutReconnect)))
     = [(1, plainError DisconnectedNoAutoReconnect)].
Proof.
  cbv zeta. split; [reflexivity|]. split; [|split; [|split]].
  - apply (proj2 (identifier_drawn_at_submission nullRuntime) twoBuffered).
  - destruct (proj1 (identifier_drawn_at_submission nullRuntime)
                (new no_options) GET "/late"%string JsUndefined None)
      as (_ & _ & _ & Hq); [reflexivity ..|].
    change (connectFailsAtOnce nullRuntime (new no_options)
            && negb (autoReconnect (options (new no_options))))
      with false in Hq.
    destruct Hq as [Hq _]. now rewrite Hq.
  - reflexivity.
  - destruct (proj1 (identifier_drawn_at_submission (refusingRuntime JsNull))
                (new withoutReconnect) GET "/late"%string JsUndefined None)
      as (_ & _ & _ & Hq); [reflexivity ..|].
    change (connectFailsAtOnce (refusingRuntime JsNull) (new withoutReconnect)
            && negb (autoReconnect (options (new withoutReconnect))))
      with true in Hq.
    destruct Hq as [_ Hq]. exact Hq.
Defined.

(** C1 as stated fails. On a fresh transport (not connected, [queue]
    policy) a submitted call is buffered with identifier 1 and the counter
    is at 2 before anything is written. With capacity 1, a second call is
    turned away and still uses up identifier 2: once the channel opens, the
    frames written carry the identifiers 1 and 3. *)
Lemma identifier_at_send_time_counterexample :
  let t0 := new (withCapacity 1) in
  let '(t1, es1) := request nullRuntime GET "/a" JsUndefined None t0 in
  connectedState t0 = false
  /\ disconnectedBehavior (options t0) = queue
  /\ sent es1 = []
  /\ List.map requestId (queuedRequests t1) = [1]
  /\ nextRequestId t0 = 1 /\ nextRequestId t1 = 2
  /\ List.map RequestId (sent (snd (run nullRuntime gapInIdentifiers t0)))
       = [1; 3].
Proof. vm_compute. repeat split; reflexivity. Qed.

(** ** Reconnecting with backoff *)

(** With a reconnect already scheduled, the handlers on a rejected connect
    promise change nothing when auto-reconnect is on. *)
Lemma catchers_idle rt cs : forall t,
  autoReconnect (options t) = true ->
  is_Some (reconnectTimer t) ->
  runAll (runCatcher rt) cs t = (t, []).
Proof.
  induction cs as [|c cs IH]; intros t Hauto Htimer; [reflexivity|].
  rewrite runAll_cons. unfold andThen.
  assert (Hc : runCatcher rt c t = (t, [])).
  { destruct c; cbn; [reflexivity| |].
    - now rewrite Hauto.
    - unfold scheduleReconnect. rewrite Hauto.
      rewrite (bool_decide_eq_true_2 _ Htimer).
      now rewrite orb_true_r. }
  rewrite Hc, (IH t Hauto Htimer). reflexivity.
Qed.

(** One failed attempt and the reconnect that follows it. *)
Lemma failed_round rt t a f :
  connectPromise t = Some a ->
  WebSocket_throws rt (url (options t)) = false ->
  autoReconnect (options t) = true ->
  disposed t = false ->
  connectedState t = false ->
  reconnectTimer t = None ->
  let r := run rt [ConnectFailed f; ReconnectTimerFired] t in
  reconnectDelays (snd r) = [reconnectDelay rt (options t) (reconnectAttempt t)]
  /\ options (fst r) = options t
  /\ reconnectAttempt (fst r) = S (reconnectAttempt t)
  /\ is_Some (connectPromise (fst r))
  /\ disposed (fst r) = false
  /\ connectedState (fst r) = false
  /\ reconnectTimer (fst r) = None.
Proof.
  intros Ha Hw Hauto Hdis Hcon Htimer.
  unfold run. rewrite !runAll_cons, runAll_nil.
  cbn [handle].
  assert (E : exists es,
    onConnectFailure rt f t =
      (set_connectPromise None
         (set_reconnectTimer
            (Some (reconnectDelay rt (options t) (reconnectAttempt t)))
            (set_reconnectAttempt (S (reconnectAttempt t)) t)), es)
    /\ reconnectDelays es = [reconnectDelay rt (options t) (reconnectAttempt t)]).
  { unfold onConnectFailure. rewrite Ha.
    destruct f;
      unfold andThen, emit, skip, scheduleReconnect, settleConnect, assign;
      cbn -[runAll]; rewrite Hauto, Hdis, Htimer; cbn -[runAll];
      (rewrite catchers_idle; [|assumption|now eexists]);
      eexists; split; reflexivity. }
  destruct E as (es & E & Hes).
  unfold andThen. rewrite E.
  unfold skip, onReconnectTimer, assign, andThen, connect. cbn.
  rewrite Hdis, Hcon, Hw. cbn.
  unfold reconnectDelays in *. rewrite omap_app, Hes. cbn.
  repeat split; auto.
Qed.

Lemma failed_rounds rt fs : forall t a,
  connectPromise t = Some a ->
  WebSocket_throws rt (url (options t)) = false ->
  autoReconnect (options t) = true ->
  disposed t = false ->
  connectedState t = false ->
  reconnectTimer t = None ->
  let r := run rt (failedAttempts fs) t in
  reconnectDelays (snd r)
    = List.map (fun k => reconnectDelay rt (options t) (reconnectAttempt t + k))
        (seq 0 (length fs))
  /\ reconnectAttempt (fst r) = (reconnectAttempt t + length fs)%nat
  /\ options (fst r) = options t
  /\ is_Some (connectPromise (fst r))
  /\ disposed (fst r) = false
  /\ reconnectTimer (fst r) = None.
Proof.
  induction fs as [|f fs IH]; intros t a Ha Hw Hauto Hdis Hcon Htimer.
  - cbn. repeat split; auto.
  - change (failedAttempts (f :: fs))
      with ([ConnectFailed f; ReconnectTimerFired] ++ failedAttempts fs).
    cbv zeta. unfold run. rewrite runAll_app. unfold andThen.
    pose proof (failed_round rt t a f Ha Hw Hauto Hdis Hcon Htimer)
      as (Hd & Ho & Hn & [a' Ha'] & Hdis' & Hcon' & Htimer').
    unfold run in *.
    destruct (runAll (handle rt) [ConnectFailed f; ReconnectTimerFired] t)
      as [t1 e1].
    cbn [fst snd] in *.
    rewrite <- Ho in Hauto, Hw.
    pose proof (IH t1 a' Ha' Hw Hauto Hdis' Hcon' Htimer')
      as (Hd2 & Hn2 & Ho2 & Hp2 & Hdis2 & Htimer2).
    unfold run in *.
    destruct (runAll (handle rt) (failedAttempts fs) t1) as [t2 e2].
    cbn [fst snd] in *.
    unfold reconnectDelays in *. rewrite omap_app, Hd, Hd2.
    cbn [length seq List.map app]. rewrite Ho, Hn.
    repeat split.
    + f_equal; [f_equal; lia|].
      rewrite <- seq_shift, List.map_map.
      apply List.map_ext. intros k. f_equal. lia.
    + lia.
    + congruence.
    + exact Hp2.
    + exact Hdis2.
    + exact Htimer2.
Qed.

Lemma sendRequest_control r t :
  sameControl t (fst (sendRequest r t))
  /\ reconnectDelays (snd (sendRequest r t)) = [].
Proof.
  unfold sameControl, sendRequest. destruct (socket t) as [w|] eqn:Hs.
  - destruct (negb _); [cbn; rewrite Hs; auto 10|].
    destruct (ws_send w) as [threw w'] eqn:Hsend.
    destruct threw; cbn; repeat split; auto; intros _; now eexists.
  - cbn. rewrite Hs. auto 10.
Qed.

Lemma flushLoop_control q : forall t,
  sameControl t (fst (flushLoop q t))
  /\ reconnectDelays (snd (flushLoop q t)) = [].
Proof.
  induction q as [|next rest IH]; intros t.
  - cbn. unfold sameControl. auto 10.
  - cbn [flushLoop].
    destruct (negb _ || negb _); [unfold sameControl; cbn; auto 10|].
    pose proof (sendRequest_control next (set_queuedRequests rest t))
      as [Hc Hd].
    destruct (sendRequest next (set_queuedRequests rest t)) as [t2 e2].
    pose proof (IH t2) as [Hc2 Hd2].
    destruct (flushLoop rest t2) as [t3 e3]. cbn [fst snd] in *.
    unfold reconnectDelays in *. rewrite omap_app, Hd, Hd2.
    split; [|reflexivity].
    unfold sameControl in *. cbn in Hc.
    destruct Hc as (? & ? & ? & ? & ? & ? & ?).
    destruct Hc2 as (? & ? & ? & ? & ? & ? & ?).
    repeat split; try congruence; auto.
Qed.



(** [startPing] touches the ping timer and nothing else. *)
Lemma startPing_shape t :
  exists p es,
    startPing t = (set_pingTimer p t, es)
    /\ Forall (fun e => e = ClearInterval PingTimer
                        \/ exists ms, e = SetInterval PingTimer ms) es.
Proof.
  unfold startPing, stopPing, andThen. destruct t. cbn.
  destruct pingTimer0; cbn; destruct (_ <=? _); cbn;
    eexists _, _; (split; [reflexivity|]);
    repeat (apply List.Forall_cons; [eauto|]); apply List.Forall_nil.
Qed.

Lemma onOpen_control rt t a future :
  connectPromise t = Some a ->
  let r := onOpen rt future t in
  options (fst r) = options t
  /\ disposed (fst r) = disposed t
  /\ reconnectTimer (fst r) = reconnectTimer t
  /\ reconnectAttempt (fst r) = 0%nat
  /\ connectedState (fst r) = true
  /\ is_Some (socket (fst r))
  /\ reconnectDelays (snd r) = [].
Proof.
  intros Ha. unfold onOpen. rewrite Ha.
  unfold andThen, emit, attachSocket, assign, settleConnect, skip,
    flushQueuedRequests.
  set (t0 := set_reconnectAttempt 0%nat _).
  destruct (startPing_shape t0) as (p & e1 & -> & He1).
  pose proof (flushLoop_control (queuedRequests (set_pingTimer p t0))
                (set_pingTimer p t0)) as [Hc Hd].
  destruct (flushLoop _ _) as [t2 e2]. cbn [fst snd] in *.
  destruct Hc as (Ho & Hdis & Ht & Hn & _ & Hcon & Hs).
  cbn in Ho, Hdis, Ht, Hn, Hcon, Hs |- *.
  unfold reconnectDelays in *. rewrite !omap_app, Hd.
  rewrite (omap_nothing reconnectScheduled e1).
  - repeat split; auto; apply Hs; now eexists.
  - eapply Forall_impl; [exact He1|]. intros e [->|[ms ->]]; reflexivity.
Qed.

Lemma reconnectDelays_rejectAll msg m : reconnectDelays (rejectAll msg m) = [].
Proof.
  unfold rejectAll. apply omap_nothing, Forall_flat_map, Forall_forall.
  intros r _. unfold clearRequestTimer.
  destruct (timer r); repeat constructor.
Qed.

(** [onClose], field by field. *)
Lemma onClose_eq rt t :
  onClose rt t =
    let t1 :=
      set_pendingRequests []
        (set_socket None (set_pingTimer None (set_connectedState false t))) in
    let delay := reconnectDelay rt (options t) (reconnectAttempt t) in
    (if willSchedule t
     then set_reconnectTimer (Some delay)
            (set_reconnectAttempt (S (reconnectAttempt t)) t1)
     else t1,
     (if pingTimer t is Some _ then [ClearInterval PingTimer] else [])
     ++ rejectAll DisconnectedBeforeResponses (pendingRequests t)
     ++ (if willSchedule t then [SetReconnectTimeout delay] else [])).
Proof.
  unfold onClose, andThen, assign, stopPing, rejectPendingRequests,
    scheduleReconnect, willSchedule, rejectAll.
  destruct t as [[u ct qt pi ar ri rm rb db mq] s c rct pt n i d cs p q sc].
  destruct pt, s, d, ar, rct; cbn; rewrite ?app_nil_r; reflexivity.
Qed.

(** The channel opens and is then lost: the attempt count is back at 0,
    and the reconnect is scheduled with the first delay. *)
Lemma open_then_close rt t a future :
  connectPromise t = Some a ->
  autoReconnect (options t) = true ->
  disposed t = false ->
  reconnectTimer t = None ->
  let r := run rt [SocketOpened future; SocketClosed] t in
  reconnectAttempt (fst (onOpen rt future t)) = 0%nat
  /\ reconnectDelays (snd r) = [reconnectDelay rt (options t) 0]
  /\ reconnectAttempt (fst r) = 1%nat.
Proof.
  intros Ha Hauto Hdis Htimer.
  destruct (onOpen_control rt t a future Ha) as (Ho & Hd & Ht & Hn & _ & Hs & Hnone).
  cbv zeta. rewrite !run_cons.
  rewrite !andThen_fst, !andThen_snd, run_nil. cbn [handle fst snd].
  set (t1 := fst (onOpen rt future t)) in *.
  rewrite (bool_decide_eq_true_2 _ Hs), onClose_eq.
  assert (Hw : willSchedule t1 = true).
  { unfold willSchedule. rewrite Ho, Hd, Ht, Hauto, Hdis, Htimer.
    rewrite bool_decide_eq_false_2; [reflexivity|]. intros [? ?]; discriminate. }
  cbv zeta. rewrite Hw. cbn [fst snd reconnectAttempt set_reconnectTimer].
  unfold reconnectDelays in *.
  rewrite !omap_app, Hnone.
  pose proof (reconnectDelays_rejectAll DisconnectedBeforeResponses
                (pendingRequests t1)) as Hr.
  unfold reconnectDelays in Hr. rewrite Hr.
  rewrite (omap_nothing reconnectScheduled (if pingTimer t1 is Some _ then _ else _))
    by (destruct (pingTimer t1); repeat constructor).
  cbn. rewrite Ho, Hn. auto.
Qed.

Lemma sameDouble_eq a b : sameDouble a b = true -> a = b.
Proof.
  destruct a as [s| s| |s m e], b as [s'| s'| |s' m' e']; cbn;
    try discriminate; try reflexivity.
  - intros H. apply Bool.eqb_prop in H. now subst.
  - intros H. apply Bool.eqb_prop in H. now subst.
  - intros H. apply andb_prop in H as [H He]. apply andb_prop in H as [Hs Hm].
    apply Bool.eqb_prop in Hs. apply Pos.eqb_eq in Hm. apply Z.eqb_eq in He.
    now subst.
Qed.

(** The delays for 250, 2 and 5000, for each attempt count at which the
    power of two is a finite double. *)
Lemma delays_table :
  forallb
    (fun n =>
       sameDouble
         (Math_min (times (ofZ 250) (powerOfTwo n)) (ofZ 5000))
         (ofZ (nth n [250; 500; 1000; 2000; 4000] 5000)))
    (seq 0 1024) = true.
Proof. vm_compute. reflexivity. Qed.

(** The delays for the default options, in a runtime that gives the power
    of two for the attempt count. *)
Lemma default_delays rt c (n : nat) :
  reconnectInitialDelayMs c = ofZ 250 ->
  reconnectBackoffFactor c = ofZ 2 ->
  reconnectMaxDelayMs c = ofZ 5000 ->
  exponentiate rt (ofZ 2) n = powerOfTwo n ->
  reconnectDelay rt c n = ofZ (nth n [250; 500; 1000; 2000; 4000] 5000).
Proof.
  intros Hi Hf Hm Hp. unfold reconnectDelay. rewrite Hi, Hf, Hm, Hp.
  destruct (Nat.leb_spec n 1023) as [Hn|Hn].
  - apply sameDouble_eq.
    pose proof delays_table as Ht. rewrite forallb_forall in Ht.
    apply (Ht n). apply in_seq. lia.
  - unfold powerOfTwo.
    destruct (Nat.leb_spec n 1023) as [Hn'|_]; [lia|].
    rewrite nth_overflow by (cbn; lia). reflexivity.
Qed.

(** *** The backoff in any run without an opening *)

Lemma reconnectDelays_app e1 e2 :
  reconnectDelays (e1 ++ e2) = reconnectDelays e1 ++ reconnectDelays e2.
Proof. apply omap_app. Qed.

Lemma backsOff_still rt t t' es :
  options t' = options t ->
  reconnectAttempt t' = reconnectAttempt t ->
  reconnectDelays es = [] ->
  backsOff rt t t' es.
Proof.
  intros Ho Hn Hd. unfold backsOff. rewrite Ho, Hn, Hd. cbn.
  repeat split. lia.
Qed.

Lemma backsOff_trans rt t t1 t2 e1 e2 :
  backsOff rt t t1 e1 -> backsOff rt t1 t2 e2 -> backsOff rt t t2 (e1 ++ e2).
Proof.
  intros (Ho1 & Hn1 & Hd1) (Ho2 & Hn2 & Hd2). unfold backsOff.
  rewrite reconnectDelays_app, length_app.
  split; [congruence|]. split; [lia|].
  rewrite seq_app, List.map_app, <- Hd1. f_equal.
  rewrite Hd2 at 1. now rewrite Ho1, Hn1.
Qed.

Lemma BackOk_andThen rt a b : BackOk rt a -> BackOk rt b -> BackOk rt (a >> b).
Proof.
  intros Ha Hb t. rewrite andThen_fst, andThen_snd.
  eapply backsOff_trans; [apply Ha|apply Hb].
Qed.

Lemma BackOk_skip rt : BackOk rt skip.
Proof. intros t. now apply backsOff_still. Qed.

Lemma BackOk_emit rt e : reconnectScheduled e = None -> BackOk rt (emit e).
Proof.
  intros He t. apply backsOff_still; try reflexivity.
  unfold reconnectDelays. cbn. now rewrite He.
Qed.

Lemma BackOk_assign rt f :
  (forall t, options (f t) = options t
             /\ reconnectAttempt (f t) = reconnectAttempt t) ->
  BackOk rt (assign f).
Proof. intros Hf t. destruct (Hf t). now apply backsOff_still. Qed.

Lemma BackOk_stopPing rt : BackOk rt stopPing.
Proof.
  intros t. unfold stopPing. destruct (pingTimer t); now apply backsOff_still.
Qed.

Lemma BackOk_startPing rt : BackOk rt startPing.
Proof.
  apply BackOk_andThen; [apply BackOk_stopPing|].
  intros t. destruct (_ <=? _); now apply backsOff_still.
Qed.

Lemma BackOk_scheduleReconnect rt : BackOk rt (scheduleReconnect rt).
Proof.
  intros t. unfold scheduleReconnect.
  destruct (_ || _); [now apply backsOff_still|].
  unfold backsOff. cbn. repeat split. lia.
Qed.

Lemma reconnectDelays_rejectQueuedLoop msg q :
  reconnectDelays (rejectQueuedLoop msg q) = [].
Proof. induction q as [|r q IH]; [reflexivity|exact IH]. Qed.

Lemma BackOk_rejectPendingRequests rt msg : BackOk rt (rejectPendingRequests msg).
Proof.
  intros t. apply backsOff_still; try reflexivity.
  apply (reconnectDelays_rejectAll msg).
Qed.

Lemma BackOk_rejectQueuedRequests rt msg : BackOk rt (rejectQueuedRequests msg).
Proof.
  intros t. apply backsOff_still; try reflexivity.
  apply reconnectDelays_rejectQueuedLoop.
Qed.

Lemma BackOk_sendRequest rt r : BackOk rt (sendRequest r).
Proof.
  intros t. destruct (sendRequest_control r t) as [(Ho & _ & _ & Hn & _) Hd].
  now apply backsOff_still.
Qed.

Lemma BackOk_flushQueuedRequests rt : BackOk rt flushQueuedRequests.
Proof.
  intros t. unfold flushQueuedRequests.
  destruct (flushLoop_control (queuedRequests t) t)
    as [(Ho & _ & _ & Hn & _) Hd].
  now apply backsOff_still.
Qed.

Lemma BackOk_runCatcher rt c : BackOk rt (runCatcher rt c).
Proof.
  destruct c; cbn.
  - apply BackOk_skip.
  - intros t. destruct (negb _);
      [apply BackOk_rejectQueuedRequests|now apply backsOff_still].
  - apply BackOk_scheduleReconnect.
Qed.

Lemma BackOk_runAll rt {A} (f : A -> Action) l :
  Forall (fun x => BackOk rt (f x)) l -> BackOk rt (runAll f l).
Proof.
  induction 1 as [|x l Hx _ IH].
  - apply BackOk_skip.
  - rewrite runAll_cons. now apply BackOk_andThen.
Qed.

Lemma BackOk_connect rt c : BackOk rt (connect rt c).
Proof.
  intros t. unfold connect. destruct (disposed t).
  - apply BackOk_andThen; [now apply BackOk_emit|apply BackOk_runCatcher].
  - destruct (connectedState t); [now apply backsOff_still|].
    destruct (connectPromise t); [now apply backsOff_still|].
    destruct (WebSocket_throws rt _); [|now apply backsOff_still].
    apply BackOk_andThen; [now apply BackOk_emit|apply BackOk_runCatcher].
Qed.

Lemma BackOk_settleConnect rt a outcome : BackOk rt (settleConnect rt a outcome).
Proof.
  unfold settleConnect.
  apply BackOk_andThen; [apply BackOk_andThen|].
  - now apply BackOk_assign.
  - now apply BackOk_emit.
  - destruct outcome; [apply BackOk_skip| |];
      apply BackOk_runAll, Forall_forall; intros c _; apply BackOk_runCatcher.
Qed.

Ltac back_ok :=
  lazymatch goal with
  | |- BackOk _ (_ >> _) => apply BackOk_andThen; back_ok
  | |- BackOk _ (assign _) => now apply BackOk_assign
  | |- BackOk _ (emit _) => now apply BackOk_emit
  | |- BackOk _ skip => apply BackOk_skip
  | |- BackOk _ stopPing => apply BackOk_stopPing
  | |- BackOk _ startPing => apply BackOk_startPing
  | |- BackOk _ (scheduleReconnect _) => apply BackOk_scheduleReconnect
  | |- BackOk _ (rejectPendingRequests _) => apply BackOk_rejectPendingRequests
  | |- BackOk _ (rejectQueuedRequests _) => apply BackOk_rejectQueuedRequests
  | |- BackOk _ (connect _ _) => apply BackOk_connect
  | |- BackOk _ (settleConnect _ _ _) => apply BackOk_settleConnect
  | |- _ => idtac
  end.

Lemma backsOff_from rt t t0 t' es :
  options t0 = options t ->
  reconnectAttempt t0 = reconnectAttempt t ->
  backsOff rt t0 t' es -> backsOff rt t t' es.
Proof. unfold backsOff. now intros -> ->. Qed.

Lemma BackOk_request rt v u b timeout : BackOk rt (request rt v u b timeout).
Proof.
  intros t. unfold request.
  set (t1 := set_nextRequestId (nextRequestId t + 1) t).
  apply (backsOff_from rt t t1); [reflexivity..|].
  destruct (connectedState t1 && socketIsOpen t1).
  - apply (BackOk_sendRequest rt _ t1).
  - destruct (disconnectedBehavior (options t1)); [|now apply backsOff_still].
    destruct (_ >=? _); [now apply backsOff_still|].
    refine (BackOk_andThen rt (assign _) (connect rt CatchOfRequest) _ _ t1);
      back_ok.
Qed.

Lemma BackOk_dispose rt : BackOk rt dispose.
Proof.
  unfold dispose. back_ok.
  - intros t. destruct (reconnectTimer t); now apply backsOff_still.
  - intros t. destruct (socket t) as [w|]; [|now apply backsOff_still].
    apply backsOff_still; try reflexivity. now destruct (readyState w).
Qed.

Lemma BackOk_onClose rt : BackOk rt (onClose rt).
Proof.
  unfold onClose. back_ok.
  - intros t. destruct (socket t); now apply backsOff_still.
  - intros t. destruct (negb _);
      [apply BackOk_scheduleReconnect|now apply backsOff_still].
Qed.

Lemma BackOk_onConnectFailure rt f : BackOk rt (onConnectFailure rt f).
Proof.
  intros t. unfold onConnectFailure.
  destruct (connectPromise t) as [a|]; [|now apply backsOff_still].
  revert t. apply BackOk_andThen; [|apply BackOk_settleConnect].
  back_ok. destruct f; back_ok.
Qed.

Lemma BackOk_onMessage rt data : BackOk rt (onMessage rt data).
Proof.
  intros t. unfold onMessage.
  destruct (readPayload rt data) as [payload|]; [|now apply backsOff_still].
  destruct (getProperty payload "RequestId") as [idValue|];
    [|now apply backsOff_still].
  destruct (numberOf rt idValue) as [| |rid]; try now apply backsOff_still.
  destruct (JsMap.getNumber rid (pendingRequests t)) as [p|];
    [|now apply backsOff_still].
  apply backsOff_still; try reflexivity.
  unfold reconnectDelays, clearRequestTimer, settleFromFrame.
  now destruct (timer p), (_ && _).
Qed.

Lemma BackOk_onReconnectTimer rt : BackOk rt (onReconnectTimer rt).
Proof.
  intros t. unfold onReconnectTimer.
  destruct (reconnectTimer t); [|now apply backsOff_still].
  revert t. apply BackOk_andThen; back_ok.
Qed.

Lemma BackOk_onPingTimer rt : BackOk rt onPingTimer.
Proof.
  intros t. unfold onPingTimer.
  destruct (pingTimer t); [|now apply backsOff_still].
  destruct (socket t) as [w|]; [|now apply backsOff_still].
  destruct (ReadyState_eqb _ _); [|now apply backsOff_still].
  destruct (ws_send w) as [threw w']. now destruct threw; apply backsOff_still.
Qed.

Lemma BackOk_onRequestTimer rt id : BackOk rt (onRequestTimer id).
Proof.
  intros t. unfold onRequestTimer.
  destruct (JsMap.get id (pendingRequests t)); now apply backsOff_still.
Qed.

Lemma BackOk_handle rt e : notOpening e -> BackOk rt (handle rt e).
Proof.
  destruct e; cbn [handle notOpening]; intros Hn.
  - apply BackOk_connect.
  - apply BackOk_request.
  - apply BackOk_dispose.
  - contradiction.
  - apply BackOk_onConnectFailure.
  - intros t. destruct (bool_decide _);
      [apply BackOk_onMessage|now apply backsOff_still].
  - intros t. destruct (bool_decide _);
      [apply BackOk_onClose|now apply backsOff_still].
  - apply BackOk_skip.
  - intros t. destruct (socket t); now apply backsOff_still.
  - apply BackOk_onReconnectTimer.
  - apply BackOk_onPingTimer.
  - apply BackOk_onRequestTimer.
Qed.

(** In a run of tasks none of which is the opening of the channel,
    whatever starts the attempts and however they end, the [k]-th
    reconnect scheduled has the delay of the backoff for the attempt count
    at the start plus [k], and the count goes up by one with each reconnect
    scheduled. *)
Lemma scheduled_delays_follow_backoff rt es t :
  Forall notOpening es -> backsOff rt t (fst (run rt es t)) (snd (run rt es t)).
Proof.
  intros Hes. apply BackOk_runAll.
  eapply Forall_impl; [exact Hes|]. intros e. apply BackOk_handle.
Qed.

(** A call of [connect()] or [request()] schedules no reconnect, however
    the attempt it begins ends. *)
Lemma calls_schedule_nothing rt e t :
  e = CallConnect \/ (exists v u b timeout, e = CallRequest v u b timeout) ->
  reconnectDelays (snd (handle rt e t)) = []
  /\ reconnectAttempt (fst (handle rt e t)) = reconnectAttempt t
  /\ reconnectTimer (fst (handle rt e t)) = reconnectTimer t.
Proof.
  assert (forall c t0, c <> CatchOfReconnect ->
            reconnectDelays (snd (connect rt c t0)) = []
            /\ reconnectAttempt (fst (connect rt c t0)) = reconnectAttempt t0
            /\ reconnectTimer (fst (connect rt c t0)) = reconnectTimer t0)
    as Hconnect.
  { intros c t0 Hc. unfold connect, andThen, emit, runCatcher,
      rejectQueuedRequests.
    destruct (disposed t0); [|destruct (connectedState t0); [now cbn|];
      destruct (connectPromise t0); [now cbn|];
      destruct (WebSocket_throws rt _); [|now cbn]];
      (destruct c; [now cbn| |contradiction]);
      destruct (negb _); cbn; auto using reconnectDelays_rejectQueuedLoop. }
  intros [->|(v & u & b & timeout & ->)]; cbn [handle].
  - now apply Hconnect.
  - unfold request.
    set (t1 := set_nextRequestId (nextRequestId t + 1) t).
    destruct (connectedState t1 && socketIsOpen t1).
    + destruct (sendRequest_control
                  {| requestId := nextRequestId t; verb := v; target := u;
                     body := b;
                     timeoutMs := default (requestTimeoutMs (options t)) timeout;
                     timer := None |} t1)
        as [(_ & _ & Ht & Hn & _) Hd].
      auto.
    + destruct (disconnectedBehavior (options t1)); [|now cbn].
      destruct (_ >=? _); [now cbn|].
      unfold andThen, assign. cbn [fst snd app].
      destruct (Hconnect CatchOfRequest
                  (set_queuedRequests
                     (queuedRequests t1 ++
                      [{| requestId := nextRequestId t; verb := v; target := u;
                          body := b;
                          timeoutMs :=
                            default (requestTimeoutMs (options t)) timeout;
                          timer := None |}]) t1))
        as (Hd & Hn & Ht); [discriminate|].
      destruct (connect rt CatchOfRequest _) as [t2 e2]. cbn [fst snd] in *.
      auto.
Qed.

(** C2, as the code has it. The delay of a reconnect is
    [Math.min(initial * factor ** attempt, max)] in the doubles of the
    code, [attempt] being the count when it is scheduled, which then goes
    up by one. In a run of attempts that fail one after the other by
    timeout, close or error, each begun by the reconnect timer of the one
    before, with auto-reconnect on, the reconnect after the [k]-th failure
    has the delay for the count at the start plus [k]. When the channel
    then opens the count is back at 0, so that the reconnect after the
    next loss has the delay for 0. For 250, 2 and 5000, a count starting
    at 0 and a runtime whose powers of two are the doubles they should be,
    the delays are 250, 500, 1000, 2000, 4000 and 5000 from then on, and
    250 again after the channel has opened. In every run in which the
    channel does not open, from any transport and whatever begins the
    attempts, the count goes up once per reconnect scheduled, and the
    delays of the reconnects scheduled follow the formula one after the
    other. A call of [connect()] or [request()] never schedules a
    reconnect itself: where the attempt it begins is refused by the
    constructor, the promise is rejected and nothing is scheduled. *)
Theorem reconnect_backoff rt t a fs future :
  connectPromise t = Some a ->
  WebSocket_throws rt (url (options t)) = false ->
  autoReconnect (options t) = true ->
  disposed t = false ->
  connectedState t = false ->
  reconnectTimer t = None ->
  let delay (cfg : Config) (n : nat) :=
    Math_min
      (times (reconnectInitialDelayMs cfg)
         (exponentiate rt (reconnectBackoffFactor cfg) n))
      (reconnectMaxDelayMs cfg) in
  let failures := run rt (failedAttempts fs) t in
  let recovered :=
    run rt (failedAttempts fs ++ [SocketOpened future; SocketClosed]) t in
  reconnectDelays (snd failures)
    = List.map (fun k => delay (options t) (reconnectAttempt t + k)%nat)
        (seq 0 (length fs))
  /\ reconnectAttempt (fst failures) = (reconnectAttempt t + length fs)%nat
  /\ reconnectDelays (snd recovered)
       = reconnectDelays (snd failures) ++ [delay (options t) 0%nat]
  /\ (reconnectInitialDelayMs (options t) = ofZ 250 ->
      reconnectBackoffFactor (options t) = ofZ 2 ->
      reconnectMaxDelayMs (options t) = ofZ 5000 ->
      reconnectAttempt t = 0%nat ->
      (forall k, (k <= length fs)%nat ->
         exponentiate rt (ofZ 2) k = powerOfTwo k) ->
      reconnectDelays (snd failures)
        = List.map (fun k => ofZ (nth k [250; 500; 1000; 2000; 4000] 5000))
            (seq 0 (length fs))
      /\ delay (options t) 0%nat = ofZ 250)
  /\ (forall t0 es,
        Forall notOpening es ->
        let scheduled := reconnectDelays (snd (run rt es t0)) in
        scheduled
          = List.map (delay (options t0))
              (seq (reconnectAttempt t0) (length scheduled))
        /\ reconnectAttempt (fst (run rt es t0))
             = (reconnectAttempt t0 + length scheduled)%nat)
  /\ (forall t0 e,
        e = CallConnect
        \/ (exists v u b timeout, e = CallRequest v u b timeout) ->
        reconnectDelays (snd (handle rt e t0)) = []
        /\ reconnectAttempt (fst (handle rt e t0)) = reconnectAttempt t0
        /\ reconnectTimer (fst (handle rt e t0)) = reconnectTimer t0)
  /\ (forall t0,
        disposed t0 = false -> connectedState t0 = false ->
        connectPromise t0 = None ->
        WebSocket_throws rt (url (options t0)) = true ->
        handle rt CallConnect t0 = (t0, [ConnectSettled RejectedByConstructor])).
Proof.
  intros Ha Hw Hauto Hdis Hcon Htimer. cbv zeta.
  pose proof (failed_rounds rt fs t a Ha Hw Hauto Hdis Hcon Htimer)
    as (Hd & Hn & Ho & [a' Ha'] & Hdis' & Htimer').
  fold (reconnectDelay rt).
  split; [exact Hd|]. split; [exact Hn|].
  split; [|split; [intros Hi Hf Hm H0 Hpow; split|split; [|split]]].
  - rewrite run_app, andThen_snd.
    unfold reconnectDelays at 1. rewrite omap_app. f_equal.
    rewrite <- Ho in Hauto.
    pose proof (open_then_close rt _ a' future Ha' Hauto Hdis' Htimer')
      as (_ & Hr & _).
    fold (reconnectDelays
            (snd (run rt [SocketOpened future; SocketClosed]
                    (fst (run rt (failedAttempts fs) t))))).
    rewrite Hr, Ho. reflexivity.
  - rewrite Hd, H0. apply Forall_fmap_ext_1, Forall_forall.
    intros k Hk. apply list_elem_of_In, in_seq in Hk. cbn [Nat.add].
    apply default_delays; auto. apply Hpow. lia.
  - apply default_delays; auto. apply Hpow. lia.
  - intros t0 es Hes.
    destruct (scheduled_delays_follow_backoff rt es t0 Hes)
      as (_ & Hcount & Hseq).
    split; [exact Hseq|exact Hcount].
  - intros t0 e He. now apply calls_schedule_nothing.
  - intros t0 Hd0 Hc0 Hp0 Hw0. cbn [handle]. unfold connect.
    now rewrite Hd0, Hc0, Hp0, Hw0.
Qed.

Lemma reconnect_backoff_witness :
  reconnectDelays
    (snd (run nullRuntime (failedAttempts sevenFailures) connecting))
    = List.map ofZ [250; 500; 1000; 2000; 4000; 5000; 5000]
  /\ reconnectDelays
       (snd (run nullRuntime
               (failedAttempts sevenFailures ++ [SocketOpened []; SocketClosed])
               connecting))
     = List.map ofZ [250; 500; 1000; 2000; 4000; 5000; 5000; 250].
Proof.
  pose proof (reconnect_backoff nullRuntime connecting
                {| attempt_socket :=
                     {| ws_id := 0; readyState := CONNECTING; ws_future := [] |};
                   attempt_catchers := [CatchOutside] |}
                sevenFailures []
                eq_refl eq_refl eq_refl eq_refl eq_refl eq_refl)
    as (Hd & _ & Hr & Hdef & _).
  assert (forall k, (k <= length sevenFailures)%nat ->
            exponentiate nullRuntime (ofZ 2) k = powerOfTwo k) as Hpow.
  { intros k Hk. do 8 (destruct k as [|k]; [reflexivity|]).
    cbn in Hk. lia. }
  destruct (Hdef eq_refl eq_refl eq_refl eq_refl Hpow) as [Hseq H0].
  split.
  - rewrite Hseq. reflexivity.
  - rewrite Hr, Hseq, H0. reflexivity.
Defined.

(** C2 as stated fails. Auto-reconnect is on and two attempts fail one
    after the other, the second begun by [connect()] while the reconnect
    after the first is pending: the attempt count is 1, not 2, and one
    reconnect has been scheduled. *)
Lemma attempt_count_counterexample :
  let r := run nullRuntime secondAttemptDuringBackoff (new no_options) in
  autoReconnect (options (new no_options)) = true
  /\ attemptsRejected (snd r) = 2%nat
  /\ reconnectAttempt (fst r) = 1%nat
  /\ reconnectDelays (snd r) = [ofZ 250].
Proof. vm_compute. repeat split; reflexivity. Qed.

(** ** The pending map *)

Lemma JsMap_get_delete {V} k (m : JsMap.t V) :
  JsMap.get k (JsMap.delete k m) = None.
Proof.
  unfold JsMap.get, JsMap.delete.
  induction m as [|[k' v] m IH]; cbn; [reflexivity|].
  destruct (Z.eqb_spec k' k) as [->|Hne]; cbn; [exact IH|].
  destruct (Z.eqb_spec k' k) as [->|_]; [contradiction|exact IH].
Qed.

Lemma JsMap_getNumber_delete {V} q (m : JsMap.t V) :
  JsMap.getNumber q (JsMap.deleteNumber q m) = None.
Proof.
  unfold JsMap.getNumber, JsMap.deleteNumber.
  destruct (asInteger q); [apply JsMap_get_delete|reflexivity].
Qed.

(** ** Inbound frames *)

Lemma geZ_spec q k : geZ (Finite q) k = true <-> (inject_Z k <= q)%Q.
Proof. apply Qle_bool_iff. Qed.

Lemma ltZ_spec q k : ltZ (Finite q) k = true <-> (q < inject_Z k)%Q.
Proof.
  cbn. rewrite negb_true_iff. split.
  - intros H. apply Qnot_le_lt. intros Hle.
    apply Qle_bool_iff in Hle. congruence.
  - intros H. destruct (Qle_bool (inject_Z k) q) eqn:E; [|reflexivity].
    apply Qle_bool_iff in E. now apply Qlt_not_le in H.
Qed.

Lemma isSuccess_integer (z : Z) : isSuccess (inject_Z z) <-> 200 <= z <= 299.
Proof.
  unfold isSuccess. rewrite <- Zle_Qle, <- Zlt_Qlt. lia.
Qed.

Lemma settleFromFrame_success pending code responseBody :
  isSuccess code ->
  settleFromFrame pending (Finite code) responseBody
    = Resolve (requestId pending) responseBody.
Proof.
  intros [H1 H2]. unfold settleFromFrame.
  apply geZ_spec in H1. apply ltZ_spec in H2. now rewrite H1, H2.
Qed.

Lemma settleFromFrame_failure pending code responseBody :
  ~ isSuccess code ->
  settleFromFrame pending (Finite code) responseBody
    = Reject (requestId pending)
        {| message := RemoteFailedWithStatus code;
           statusCode := Some code;
           details := Some responseBody |}.
Proof.
  intros Hn. unfold settleFromFrame.
  destruct (geZ (Finite code) 200) eqn:H1; [|reflexivity].
  destruct (ltZ (Finite code) 300) eqn:H2; [|reflexivity].
  exfalso. apply Hn. split; [now apply geZ_spec|now apply ltZ_spec].
Qed.

(** C5, as the code has it: a frame whose identifier finds the pending
    call [pending] takes it out of the map and clears its timer. With a
    status code that is a finite number from 200 up to, and not
    including, 300 (for an integer code: 200 to 299) the call is resolved
    with the frame's body; with any other finite status code it is
    rejected with an error that carries this code and, as details, the
    body. With a status code that is no finite number (none at all, a
    text that is no number, a number too large for a double) the call is
    rejected with an error that carries no status code, and the body as
    details. *)
Theorem frame_settles_pending_call rt t data payload idValue rid pending :
  readPayload rt data = Some payload ->
  getProperty payload "RequestId" = Some idValue ->
  numberOf rt idValue = Finite rid ->
  JsMap.getNumber rid (pendingRequests t) = Some pending ->
  let responseCode :=
    numberOf rt (default JsUndefined (getProperty payload "ResponseCode")) in
  let responseBody := default JsUndefined (getProperty payload "ResponseBody") in
  pendingRequests (fst (onMessage rt data t))
    = JsMap.deleteNumber rid (pendingRequests t)
  /\ (forall code, responseCode = Finite code -> isSuccess code ->
      snd (onMessage rt data t)
        = clearRequestTimer pending ++ [Resolve (requestId pending) responseBody])
  /\ (forall code, responseCode = Finite code -> ~ isSuccess code ->
      snd (onMessage rt data t)
        = clearRequestTimer pending ++
          [Reject (requestId pending)
             {| message := RemoteFailedWithStatus code;
                statusCode := Some code;
                details := Some responseBody |}])
  /\ (isFinite responseCode = false ->
      snd (onMessage rt data t)
        = clearRequestTimer pending ++
          [Reject (requestId pending)
             {| message := RemoteFailed;
                statusCode := None;
                details := Some responseBody |}])
  /\ (forall z : Z, isSuccess (inject_Z z) <-> 200 <= z <= 299).
Proof.
  intros Hp Hid Hn Hget. cbv zeta.
  unfold onMessage. rewrite Hp, Hid, Hn, Hget. cbn [fst snd].
  split; [reflexivity|]. split; [|split; [|split]].
  - intros code -> Hs. now rewrite settleFromFrame_success.
  - intros code -> Hs. now rewrite settleFromFrame_failure.
  - unfold settleFromFrame.
    generalize (numberOf rt
                  (default JsUndefined (getProperty payload "ResponseCode"))).
    intros [| |q] Hnot; [reflexivity|reflexivity|discriminate].
  - intros z. apply isSuccess_integer.
Qed.

(** X22: a frame that parses to a value other than [null], so that its
    [RequestId] can be read, and whose identifier is no finite number or
    has no entry in the pending map is dropped: the fields of the
    transport are as before and there is no effect at all. That is so for
    an identifier that was never pending, and for one that a frame has
    settled already: the same frame once more is dropped. *)
Lemma stray_frame_dropped rt t data payload idValue :
  readPayload rt data = Some payload ->
  getProperty payload "RequestId" = Some idValue ->
  ((forall rid, numberOf rt idValue = Finite rid ->
      JsMap.getNumber rid (pendingRequests t) = None) ->
   onMessage rt data t = (t, []))
  /\ onMessage rt data (fst (onMessage rt data t))
       = (fst (onMessage rt data t), []).
Proof.
  intros Hp Hid. unfold onMessage. rewrite Hp, Hid. split.
  - intros Hnone. destruct (numberOf rt idValue) as [| |rid]; try reflexivity.
    now rewrite (Hnone rid eq_refl).
  - destruct (numberOf rt idValue) as [| |rid]; try reflexivity.
    destruct (JsMap.getNumber rid (pendingRequests t)) as [p|] eqn:Hget; cbn.
    + now rewrite JsMap_getNumber_delete.
    + now rewrite Hget.
Qed.

Lemma frame_settles_pending_call_witness :
  snd (onMessage (fixedRuntime (frameOf 2 204 JsNull)) (TextData "{}") threeSent)
    = [ClearTimeout (RequestTimer 2); Resolve 2 JsNull]
  /\ snd (onMessage (fixedRuntime (frameOf 3 404 (JsString "no such object")))
            (TextData "{}") threeSent)
     = [ClearTimeout (RequestTimer 3);
        Reject 3
          {| message := RemoteFailedWithStatus (inject_Z 404);
             statusCode := Some (inject_Z 404);
             details := Some (JsString "no such object") |}]
  /\ snd (onMessage
            (fixedRuntime (frameWithCode 1 (JsString "teapot") JsNull))
            (TextData "{}") threeSent)
     = [ClearTimeout (RequestTimer 1);
        Reject 1
          {| message := RemoteFailed; statusCode := None;
             details := Some JsNull |}].
Proof.
  split; [|split].
  - pose proof (frame_settles_pending_call
                  (fixedRuntime (frameOf 2 204 JsNull)) threeSent (TextData "{}")
                  (frameOf 2 204 JsNull) (JsNum (Finite (inject_Z 2)))
                  (inject_Z 2)
                  {| requestId := 2; verb := PUT; target := "/b"; body := JsNull;
                     timeoutMs := 50; timer := Some 50 |}
                  eq_refl) as H.
    destruct H as (_ & Hok & _ & _ & Hrange); [vm_compute; reflexivity ..|].
    rewrite (Hok (inject_Z 204)); [vm_compute; reflexivity|vm_compute; reflexivity|].
    apply (Hrange 204). lia.
  - pose proof (frame_settles_pending_call
                  (fixedRuntime (frameOf 3 404 (JsString "no such object")))
                  threeSent (TextData "{}")
                  (frameOf 3 404 (JsString "no such object"))
                  (JsNum (Finite (inject_Z 3))) (inject_Z 3)
                  {| requestId := 3; verb := POST; target := "/c";
                     body := JsBoolean true;
                     timeoutMs := 15000; timer := Some 15000 |}
                  eq_refl) as H.
    destruct H as (_ & _ & Hfail & _ & Hrange); [vm_compute; reflexivity ..|].
    rewrite (Hfail (inject_Z 404)); [vm_compute; reflexivity|vm_compute; reflexivity|].
    intros Hs. apply (Hrange 404) in Hs. lia.
  - pose proof (frame_settles_pending_call
                  (fixedRuntime (frameWithCode 1 (JsString "teapot") JsNull))
                  threeSent (TextData "{}")
                  (frameWithCode 1 (JsString "teapot") JsNull)
                  (JsNum (Finite (inject_Z 1))) (inject_Z 1)
                  {| requestId := 1; verb := GET; target := "/a";
                     body := JsUndefined;
                     timeoutMs := 15000; timer := Some 15000 |}
                  eq_refl) as H.
    destruct H as (_ & _ & _ & Hnone & _); [vm_compute; reflexivity ..|].
    rewrite Hnone; vm_compute; reflexivity.
Defined.

(** C5 as stated fails. A frame for the pending call 1 carries the status
    code [1e999], which [JSON.parse] reads as [Infinity]: a status code
    outside 200 to 299. The call is rejected, and the error carries no
    status code. *)
Lemma status_code_not_carried_counterexample :
  let frame := frameWithCode 1 (JsNum (Infinity false)) (JsString "busy") in
  getProperty frame "ResponseCode" = Some (JsNum (Infinity false))
  /\ pendingIds threeSent = [1; 2; 3]
  /\ snd (onMessage (fixedRuntime frame) (TextData "{}") threeSent)
     = [ClearTimeout (RequestTimer 1);
        Reject 1
          {| message := RemoteFailed; statusCode := None;
             details := Some (JsString "busy") |}].
Proof. vm_compute. repeat split. Qed.

Lemma stray_frame_dropped_witness :
  onMessage (fixedRuntime (frameOf 7 200 JsNull)) (TextData "{}") threeSent
    = (threeSent, [])
  /\ let once :=
       fst (onMessage (fixedRuntime (frameOf 2 204 JsNull)) (TextData "{}")
              threeSent) in
     pendingIds once = [1; 3]
     /\ onMessage (fixedRuntime (frameOf 2 204 JsNull)) (TextData "{}") once
        = (once, []).
Proof.
  split.
  - destruct (stray_frame_dropped (fixedRuntime (frameOf 7 200 JsNull))
                threeSent (TextData "{}") (frameOf 7 200 JsNull)
                (JsNum (Finite (inject_Z 7))) eq_refl) as [Hdrop _];
      [vm_compute; reflexivity|].
    apply Hdrop. intros rid [= <-]. vm_compute. reflexivity.
  - cbv zeta. split; [vm_compute; reflexivity|].
    destruct (stray_frame_dropped (fixedRuntime (frameOf 2 204 JsNull))
                threeSent (TextData "{}") (frameOf 2 204 JsNull)
                (JsNum (Finite (inject_Z 2))) eq_refl) as [_ Hagain];
      [vm_compute; reflexivity|].
    exact Hagain.
Defined.

(** C6 fails on the frame [null]. It is a frame without a live pending
    entry, and the code means to drop such frames: it returns on data
    that is no text, on text that is no JSON, on an identifier that is no
    finite number and on one that is not pending. But it reads
    [RequestId] off the parsed value unguarded, and on [null] that read
    throws a [TypeError] out of the listener; the fields of the transport
    are as before. *)
Lemma null_frame_throws t :
  let rt := fixedRuntime JsNull in
  readPayload rt (TextData "null") = Some JsNull
  /\ getProperty JsNull "RequestId" = None
  /\ onMessage rt (TextData "null") t = (t, [UncaughtTypeError])
  /\ is_Some (socket threeSent)
  /\ handle rt (SocketMessage (TextData "null")) threeSent
     = (threeSent, [UncaughtTypeError]).
Proof.
  cbv zeta. split; [reflexivity|]. split; [reflexivity|].
  split; [reflexivity|]. split; [now eexists|].
  vm_compute. reflexivity.
Qed.

(** A frame without a usable status code that finds a pending call
    rejects it with no status code. *)
Lemma frame_without_status_code :
  snd (onMessage
         (fixedRuntime (JsObject {[ "RequestId"%string := JsNum (Finite 1) ]}))
         (TextData "{}") threeSent)
    = [ClearTimeout (RequestTimer 1);
       Reject 1 {| message := RemoteFailed; statusCode := None;
                   details := Some JsUndefined |}].
Proof. vm_compute. reflexivity. Qed.

(** ** Bookkeeping of the calls *)

Lemma settled_app e1 e2 : settled (e1 ++ e2) = settled e1 ++ settled e2.
Proof. apply omap_app. Qed.

Lemma live_eq t t' :
  pendingRequests t' = pendingRequests t ->
  queuedRequests t' = queuedRequests t ->
  live t' = live t.
Proof. unfold live, pendingIds, queuedIds. now intros -> ->. Qed.

Lemma accounts_wellFormed t t' es :
  wellFormed t -> accounts t t' es -> wellFormed t'.
Proof.
  intros (Hnd & Hlt & _) (Hle & Hk & Hp).
  assert (Hrhs : NoDup (live t ++
            seqZ (nextRequestId t) (nextRequestId t' - nextRequestId t))).
  { apply NoDup_app. split; [exact Hnd|]. split; [|apply NoDup_seqZ].
    intros x Hx Hs. apply elem_of_seqZ in Hs.
    rewrite Forall_forall in Hlt. specialize (Hlt x Hx). lia. }
  rewrite <- Hp in Hrhs. apply NoDup_app in Hrhs as (_ & _ & Hnd').
  split; [exact Hnd'|]. split; [|exact Hk].
  apply Forall_forall. intros x Hx.
  assert (Hin : x ∈ settled es ++ live t') by (apply elem_of_app; auto).
  rewrite Hp in Hin. apply elem_of_app in Hin as [Hin|Hin].
  - rewrite Forall_forall in Hlt. specialize (Hlt x Hin). lia.
  - apply elem_of_seqZ in Hin. lia.
Qed.

Lemma accounts_trans t t1 t2 e1 e2 :
  accounts t t1 e1 -> accounts t1 t2 e2 -> accounts t t2 (e1 ++ e2).
Proof.
  intros (Hle1 & _ & Hp1) (Hle2 & Hk2 & Hp2).
  split; [lia|]. split; [exact Hk2|].
  rewrite settled_app, <- app_assoc, Hp2, app_assoc, Hp1, <- app_assoc.
  apply Permutation_app_head.
  replace (nextRequestId t2 - nextRequestId t)
    with ((nextRequestId t1 - nextRequestId t)
          + (nextRequestId t2 - nextRequestId t1)) by lia.
  rewrite seqZ_app by lia.
  now replace (nextRequestId t + (nextRequestId t1 - nextRequestId t))
    with (nextRequestId t1) by lia.
Qed.

Lemma StepOk_andThen a b : StepOk a -> StepOk b -> StepOk (a >> b).
Proof.
  intros Ha Hb t Hwf. rewrite andThen_fst, andThen_snd.
  eapply accounts_trans; [now apply Ha|].
  apply Hb. eapply accounts_wellFormed; [exact Hwf|now apply Ha].
Qed.

Lemma accounts_quiet t t' es :
  wellFormed t ->
  pendingRequests t' = pendingRequests t ->
  queuedRequests t' = queuedRequests t ->
  nextRequestId t' = nextRequestId t ->
  settled es = [] ->
  accounts t t' es.
Proof.
  intros (_ & _ & Hk) Hp Hq Hn Hs. unfold accounts.
  rewrite Hn, Hp, Hs, (live_eq t t' Hp Hq), Z.sub_diag.
  split; [lia|]. split; [exact Hk|]. cbn. now rewrite app_nil_r.
Qed.

Lemma quiet_StepOk a : quiet a -> StepOk a.
Proof.
  intros Hq t Hwf. destruct (Hq t) as (Hp & Hqu & Hn & Hs).
  now apply accounts_quiet.
Qed.

Lemma quiet_skip : quiet skip.
Proof. intros t. cbn. auto. Qed.

Lemma quiet_stopPing : quiet stopPing.
Proof. intros t. unfold stopPing. destruct (pingTimer t); cbn; auto. Qed.

Lemma quiet_startPing : quiet startPing.
Proof.
  intros t. unfold startPing, stopPing, andThen.
  destruct (pingTimer t); cbn; destruct (_ <=? _); cbn; auto.
Qed.

Lemma quiet_scheduleReconnect rt : quiet (scheduleReconnect rt).
Proof.
  intros t. unfold scheduleReconnect. destruct (_ || _); cbn; auto.
Qed.

Lemma quiet_onPingTimer : quiet onPingTimer.
Proof.
  intros t. unfold onPingTimer.
  destruct (pingTimer t); [|cbn; auto].
  destruct (socket t) as [w|]; [|cbn; auto].
  destruct (ReadyState_eqb _ _); [|cbn; auto].
  destruct (ws_send w) as [threw w']. destruct threw; cbn; auto.
Qed.

(** The identifiers that the two reject-all methods settle. *)
Lemma settled_rejectAll msg m :
  settled (rejectAll msg m) = List.map requestId (JsMap.values m).
Proof.
  unfold rejectAll, JsMap.values.
  induction m as [|[k r] m IH]; [reflexivity|].
  cbn [List.map List.flat_map snd]. rewrite !settled_app, IH.
  unfold clearRequestTimer. destruct (timer r); reflexivity.
Qed.

Lemma settled_rejectQueuedLoop msg q :
  settled (rejectQueuedLoop msg q) = List.map requestId q.
Proof. induction q as [|r q IH]; cbn; [reflexivity|]. now rewrite <- IH. Qed.

Lemma StepOk_rejectPendingRequests msg : StepOk (rejectPendingRequests msg).
Proof.
  intros t (_ & _ & _). unfold rejectPendingRequests. cbn [fst snd].
  fold (rejectAll msg (pendingRequests t)).
  split; [cbn; lia|]. split; [constructor|].
  rewrite settled_rejectAll. cbn [nextRequestId set_pendingRequests].
  rewrite Z.sub_diag. unfold live, pendingIds, queuedIds. cbn.
  now rewrite app_nil_r.
Qed.

Lemma StepOk_rejectQueuedRequests msg : StepOk (rejectQueuedRequests msg).
Proof.
  intros t (_ & _ & Hk). unfold rejectQueuedRequests. cbn [fst snd].
  split; [cbn; lia|]. split; [exact Hk|].
  rewrite settled_rejectQueuedLoop. cbn [nextRequestId set_queuedRequests].
  rewrite Z.sub_diag. unfold live, pendingIds, queuedIds. cbn.
  rewrite !app_nil_r. apply Permutation_app_comm.
Qed.

(** *** The pending map under the invariant *)

Lemma JsMap_keys_keyed (m : JsMap.t OutboundRequest) :
  keyed m -> JsMap.keys m = List.map requestId (JsMap.values m).
Proof.
  unfold keyed, JsMap.keys, JsMap.values.
  induction 1 as [|[k r] m Hk _ IH]; cbn in *; [reflexivity|].
  now rewrite IH, Hk.
Qed.

Lemma JsMap_set_fresh {V} k (v : V) (m : JsMap.t V) :
  k ∉ JsMap.keys m -> JsMap.set k v m = m ++ [(k, v)].
Proof.
  unfold JsMap.keys. induction m as [|[k' v'] m IH]; cbn; [reflexivity|].
  intros Hk. apply not_elem_of_cons in Hk as [Hne Hk].
  destruct (Z.eqb_spec k' k) as [->|_]; [contradiction|].
  now rewrite IH.
Qed.

Lemma JsMap_delete_absent {V} k (m : JsMap.t V) :
  k ∉ JsMap.keys m -> JsMap.delete k m = m.
Proof.
  unfold JsMap.keys, JsMap.delete.
  induction m as [|[k' v'] m IH]; cbn; [reflexivity|].
  intros Hk. apply not_elem_of_cons in Hk as [Hne Hk].
  destruct (Z.eqb_spec k' k) as [->|_]; [contradiction|].
  cbn. now rewrite IH.
Qed.

Lemma JsMap_get_keyed k (m : JsMap.t OutboundRequest) r :
  keyed m -> JsMap.get k m = Some r -> requestId r = k.
Proof.
  unfold keyed, JsMap.get.
  induction 1 as [|[k' r'] m Hk _ IH]; cbn; [discriminate|].
  destruct (Z.eqb_spec k' k) as [->|_]; cbn.
  - now intros [= <-].
  - exact IH.
Qed.

Lemma keyed_delete k (m : JsMap.t OutboundRequest) :
  keyed m -> keyed (JsMap.delete k m).
Proof.
  unfold keyed, JsMap.delete. intros H.
  apply Forall_forall. intros x Hx%list_elem_of_In%filter_In.
  rewrite Forall_forall in H. apply H, list_elem_of_In, Hx.
Qed.

Lemma JsMap_delete_cons {V} k k' (v : V) (m : JsMap.t V) :
  JsMap.delete k ((k', v) :: m)
    = if Z.eqb k' k then JsMap.delete k m else (k', v) :: JsMap.delete k m.
Proof. unfold JsMap.delete. cbn. now destruct (k' =? k). Qed.

Lemma JsMap_get_cons {V} k k' (v : V) (m : JsMap.t V) :
  JsMap.get k ((k', v) :: m) = if Z.eqb k' k then Some v else JsMap.get k m.
Proof. unfold JsMap.get. cbn. now destruct (k' =? k). Qed.

(** Deleting the key of a pending call takes out that call and no other. *)
Lemma JsMap_delete_found k (m : JsMap.t OutboundRequest) r :
  keyed m ->
  NoDup (List.map requestId (JsMap.values m)) ->
  JsMap.get k m = Some r ->
  requestId r :: List.map requestId (JsMap.values (JsMap.delete k m))
    ≡ₚ List.map requestId (JsMap.values m).
Proof.
  induction m as [|[k' r'] m IH]; intros Hk Hnd; [discriminate|].
  apply Forall_cons in Hk as [Hk' Hk]. cbn in Hk'.
  unfold JsMap.values in Hnd. cbn in Hnd.
  apply NoDup_cons in Hnd as [Hnotin Hnd].
  rewrite JsMap_delete_cons, JsMap_get_cons.
  destruct (Z.eqb_spec k' k) as [->|Hne].
  - intros [= <-].
    rewrite JsMap_delete_absent; [reflexivity|].
    rewrite JsMap_keys_keyed by exact Hk. now rewrite <- Hk'.
  - intros Hget. unfold JsMap.values in *. cbn [List.map snd].
    rewrite <- (IH Hk Hnd Hget). apply perm_swap.
Qed.

(** *** The methods, one by one *)

(** [sendRequest] either files the call in the pending map or rejects
    it. *)
Lemma sendRequest_cases r t :
  requestId r ∉ JsMap.keys (pendingRequests t) ->
  queuedRequests (fst (sendRequest r t)) = queuedRequests t
  /\ nextRequestId (fst (sendRequest r t)) = nextRequestId t
  /\ ((pendingRequests (fst (sendRequest r t))
         = pendingRequests t ++ [(requestId r, with_timer (timeoutMs r) r)]
       /\ settled (snd (sendRequest r t)) = [])
      \/ (pendingRequests (fst (sendRequest r t)) = pendingRequests t
          /\ settled (snd (sendRequest r t)) = [requestId r])).
Proof.
  intros Hfresh. unfold sendRequest.
  destruct (socket t) as [w|]; [|cbn; auto].
  destruct (negb _); [cbn; auto|].
  destruct (ws_send w) as [threw w']. destruct threw; cbn; [auto|].
  rewrite JsMap_set_fresh by exact Hfresh. auto.
Qed.

Lemma pendingIds_keys t :
  keyed (pendingRequests t) -> JsMap.keys (pendingRequests t) = pendingIds t.
Proof. apply JsMap_keys_keyed. Qed.

(** A call that [t] does not hold goes through [sendRequest]: afterwards it
    is held or settled, and nothing else has changed in the account. *)
Lemma sendRequest_accounts r t :
  keyed (pendingRequests t) ->
  requestId r ∉ pendingIds t ->
  let t' := fst (sendRequest r t) in
  nextRequestId t' = nextRequestId t
  /\ queuedRequests t' = queuedRequests t
  /\ keyed (pendingRequests t')
  /\ settled (snd (sendRequest r t)) ++ pendingIds t'
       ≡ₚ requestId r :: pendingIds t.
Proof.
  intros Hk Hfresh. cbv zeta.
  rewrite <- pendingIds_keys in Hfresh by exact Hk.
  destruct (sendRequest_cases r t Hfresh) as (Hq & Hn & [[Hp Hs]|[Hp Hs]]);
    unfold pendingIds, JsMap.values; rewrite Hp, Hs; repeat split; auto.
  - apply Forall_app. split; [exact Hk|]. now repeat constructor.
  - rewrite !List.map_app. cbn. symmetry. apply Permutation_cons_append.
Qed.

Lemma StepOk_skip : StepOk skip.
Proof. apply quiet_StepOk, quiet_skip. Qed.

Lemma StepOk_assign f :
  (forall t, pendingRequests (f t) = pendingRequests t
             /\ queuedRequests (f t) = queuedRequests t
             /\ nextRequestId (f t) = nextRequestId t) ->
  StepOk (assign f).
Proof.
  intros Hf. apply quiet_StepOk. intros t. cbn.
  destruct (Hf t) as (? & ? & ?). auto.
Qed.

Lemma StepOk_emit e : settlementOf e = None -> StepOk (emit e).
Proof.
  intros He. apply quiet_StepOk. intros t. cbn. now rewrite He.
Qed.

Lemma StepOk_runCatcher rt c : StepOk (runCatcher rt c).
Proof.
  destruct c; cbn.
  - apply StepOk_skip.
  - intros t Hwf. destruct (negb _).
    + now apply StepOk_rejectQueuedRequests.
    + now apply StepOk_skip.
  - apply quiet_StepOk, quiet_scheduleReconnect.
Qed.

Lemma StepOk_runAll {A} (f : A -> Action) l :
  (forall x, StepOk (f x)) -> StepOk (runAll f l).
Proof.
  intros Hf. induction l as [|x l IH].
  - apply StepOk_skip.
  - rewrite runAll_cons. now apply StepOk_andThen.
Qed.

Lemma StepOk_connect rt c : StepOk (connect rt c).
Proof.
  intros t Hwf. unfold connect. destruct (disposed t).
  - apply StepOk_andThen; [now apply StepOk_emit|apply StepOk_runCatcher|exact Hwf].
  - destruct (connectedState t); [now apply accounts_quiet|].
    destruct (connectPromise t); [now apply accounts_quiet|].
    destruct (WebSocket_throws rt _); [|now apply accounts_quiet].
    apply StepOk_andThen;
      [now apply StepOk_emit|apply StepOk_runCatcher|exact Hwf].
Qed.

Lemma StepOk_request rt v u b timeout : StepOk (request rt v u b timeout).
Proof.
  intros t Hwf. pose proof Hwf as (Hnd & Hlt & Hk).
  assert (Hfresh : nextRequestId t ∉ live t).
  { intros Hin. rewrite Forall_forall in Hlt. specialize (Hlt _ Hin). lia. }
  assert (Hone : seqZ (nextRequestId t) (nextRequestId t + 1 - nextRequestId t)
                 = [nextRequestId t]).
  { replace (nextRequestId t + 1 - nextRequestId t) with 1 by lia.
    cbn. f_equal; lia. }
  set (t1 := set_nextRequestId (nextRequestId t + 1) t).
  set (outbound := outboundOf t v u b timeout).
  assert (Hrejected : forall e,
    accounts t t1 [Reject (nextRequestId t) e]).
  { intros e. split; [cbn; lia|]. split; [exact Hk|].
    cbn [settled omap settlementOf nextRequestId t1 set_nextRequestId].
    rewrite Hone. change (live t1) with (live t). cbn.
    apply Permutation_cons_append. }
  unfold request. fold t1. fold outbound.
  change {| requestId := nextRequestId t; verb := v; target := u; body := b;
            timeoutMs := default (requestTimeoutMs (options t)) timeout;
            timer := None |} with outbound.
  destruct (connectedState t1 && socketIsOpen t1).
  - assert (Hf : requestId outbound ∉ pendingIds t1).
    { intros Hin. apply Hfresh. apply elem_of_app. now left. }
    destruct (sendRequest_accounts outbound t1 Hk Hf) as (Hn & Hq & Hk' & Hp).
    split; [rewrite Hn; cbn; lia|]. split; [exact Hk'|].
    rewrite Hn. cbn [nextRequestId t1 set_nextRequestId]. rewrite Hone.
    unfold live at 1. unfold queuedIds. rewrite Hq, app_assoc, Hp.
    change (queuedRequests t1) with (queuedRequests t). cbn.
    unfold live, queuedIds. change (pendingIds t1) with (pendingIds t).
    rewrite <- Permutation_cons_append. reflexivity.
  - destruct (disconnectedBehavior (options t1)); [|apply Hrejected].
    destruct (_ >=? _); [apply Hrejected|].
    rewrite andThen_fst, andThen_snd. cbn [assign fst snd app].
    set (t2 := set_queuedRequests (queuedRequests t1 ++ [outbound]) t1).
    assert (H2 : accounts t t2 []).
    { split; [cbn; lia|]. split; [exact Hk|].
      cbn [settled omap nextRequestId t2 t1 set_queuedRequests
             set_nextRequestId app].
      rewrite Hone. unfold live, queuedIds. cbn.
      now rewrite List.map_app, app_assoc. }
    change (snd (connect rt CatchOfRequest t2))
      with ([] ++ snd (connect rt CatchOfRequest t2)).
    eapply accounts_trans; [exact H2|].
    apply StepOk_connect. eapply accounts_wellFormed; [exact Hwf|exact H2].
Qed.

(** The flush moves calls from the buffer to the pending map, or rejects
    them. *)
Lemma flushLoop_accounts q : forall t,
  queuedRequests t = q -> wellFormed t ->
  accounts t (fst (flushLoop q t)) (snd (flushLoop q t)).
Proof.
  induction q as [|next rest IH]; intros t Hq Hwf.
  - now apply accounts_quiet.
  - cbn [flushLoop]. destruct (negb _ || negb _).
    + cbn [fst snd]. apply accounts_quiet; cbn; auto.
    + pose proof Hwf as (Hnd & Hlt & Hk).
      set (t1 := set_queuedRequests rest t).
      assert (Hf : requestId next ∉ pendingIds t1).
      { unfold live, queuedIds in Hnd. rewrite Hq in Hnd. cbn in Hnd.
        apply NoDup_app in Hnd as (_ & Hdisj & _).
        intros Hin. apply (Hdisj _ Hin). now left. }
      destruct (sendRequest_accounts next t1 Hk Hf) as (Hn & Hqu & Hk' & Hp).
      assert (H1 : accounts t (fst (sendRequest next t1))
                     (snd (sendRequest next t1))).
      { split; [rewrite Hn; cbn; lia|]. split; [exact Hk'|].
        rewrite Hn. cbn [nextRequestId t1 set_queuedRequests].
        rewrite Z.sub_diag. cbn [seqZ]. rewrite app_nil_r.
        unfold live at 1. unfold queuedIds. rewrite Hqu, app_assoc, Hp.
        cbn [queuedRequests t1 set_queuedRequests].
        unfold live, queuedIds. rewrite Hq.
        change (pendingIds t1) with (pendingIds t). cbn.
        apply Permutation_middle. }
      pose proof (accounts_wellFormed _ _ _ Hwf H1) as Hwf1.
      specialize (IH (fst (sendRequest next t1)) Hqu Hwf1).
      destruct (sendRequest next t1) as [t2 e2]. cbn [fst snd] in *.
      destruct (flushLoop rest t2) as [t3 e3]. cbn [fst snd] in *.
      eapply accounts_trans; eassumption.
Qed.

Lemma StepOk_flushQueuedRequests : StepOk flushQueuedRequests.
Proof. intros t Hwf. now apply flushLoop_accounts. Qed.

Lemma settled_settleFromFrame p code b0 :
  settlementOf (settleFromFrame p code b0) = Some (requestId p).
Proof. unfold settleFromFrame. now destruct (_ && _). Qed.

Lemma settled_single e id : settlementOf e = Some id -> settled [e] = [id].
Proof. intros H. unfold settled. cbn. now rewrite H. Qed.

Lemma settled_clearRequestTimer r : settled (clearRequestTimer r) = [].
Proof. unfold clearRequestTimer. now destruct (timer r). Qed.

Lemma StepOk_onMessage rt data : StepOk (onMessage rt data).
Proof.
  intros t Hwf. unfold onMessage.
  destruct (readPayload rt data) as [payload|]; [|now apply accounts_quiet].
  destruct (getProperty payload "RequestId") as [idValue|];
    [|now apply accounts_quiet].
  destruct (numberOf rt idValue) as [| |rid]; try now apply accounts_quiet.
  unfold JsMap.getNumber, JsMap.deleteNumber.
  destruct (asInteger rid) as [k|]; [|now apply accounts_quiet].
  destruct (JsMap.get k (pendingRequests t)) as [p|] eqn:Hget;
    [|now apply accounts_quiet].
  destruct Hwf as (Hnd & _ & Hk). cbn [fst snd].
  split; [cbn; lia|]. split; [now apply keyed_delete|].
  cbn [nextRequestId set_pendingRequests]. rewrite Z.sub_diag. cbn [seqZ].
  rewrite app_nil_r, settled_app, settled_clearRequestTimer.
  cbn [app]. rewrite (settled_single _ _ (settled_settleFromFrame _ _ _)).
  unfold live, pendingIds, queuedIds in *.
  cbn [pendingRequests queuedRequests set_pendingRequests app].
  apply NoDup_app in Hnd as (Hnd & _).
  change (requestId p :: ?l ++ ?r) with ((requestId p :: l) ++ r).
  now rewrite JsMap_delete_found.
Qed.

Lemma StepOk_onRequestTimer id : StepOk (onRequestTimer id).
Proof.
  intros t Hwf. unfold onRequestTimer.
  destruct (JsMap.get id (pendingRequests t)) as [r|] eqn:Hget;
    [|now apply accounts_quiet].
  destruct Hwf as (Hnd & _ & Hk). cbn [fst snd].
  pose proof (JsMap_get_keyed id _ r Hk Hget) as Hid.
  split; [cbn; lia|]. split; [now apply keyed_delete|].
  cbn [nextRequestId set_pendingRequests]. rewrite Z.sub_diag. cbn [seqZ].
  rewrite app_nil_r.
  change (settled [Reject (requestId r) ?e]) with [requestId r].
  unfold live, pendingIds, queuedIds in *.
  cbn [pendingRequests queuedRequests set_pendingRequests app].
  apply NoDup_app in Hnd as (Hnd & _).
  pose proof (JsMap_delete_found id _ r Hk Hnd Hget) as Hperm.
  replace (JsMap.delete (requestId r) (pendingRequests t))
    with (JsMap.delete id (pendingRequests t)) by now rewrite Hid.
  change (requestId r :: ?l ++ ?q) with ((requestId r :: l) ++ q).
  now rewrite Hperm.
Qed.

Lemma StepOk_guard (a : Action) (c : Transport -> bool) :
  StepOk a -> StepOk (fun t => if c t then a t else (t, [])).
Proof.
  intros Ha t Hwf. destruct (c t); [now apply Ha|now apply accounts_quiet].
Qed.

Ltac step_ok :=
  lazymatch goal with
  | |- StepOk (_ >> _) => apply StepOk_andThen; step_ok
  | |- StepOk (assign _) => apply StepOk_assign; intros ?; cbn; auto
  | |- StepOk (attachSocket _) => apply StepOk_assign; intros ?; cbn; auto
  | |- StepOk (emit _) => now apply StepOk_emit
  | |- StepOk skip => apply StepOk_skip
  | |- StepOk stopPing => apply quiet_StepOk, quiet_stopPing
  | |- StepOk startPing => apply quiet_StepOk, quiet_startPing
  | |- StepOk (scheduleReconnect _) => apply quiet_StepOk, quiet_scheduleReconnect
  | |- StepOk (rejectPendingRequests _) => apply StepOk_rejectPendingRequests
  | |- StepOk (rejectQueuedRequests _) => apply StepOk_rejectQueuedRequests
  | |- StepOk flushQueuedRequests => apply StepOk_flushQueuedRequests
  | |- StepOk (connect _ _) => apply StepOk_connect
  | |- _ => idtac
  end.

Lemma StepOk_dispose : StepOk dispose.
Proof.
  unfold dispose. step_ok.
  - intros t Hwf. destruct (reconnectTimer t); now apply accounts_quiet.
  - intros t Hwf. destruct (socket t) as [w|]; [|now apply accounts_quiet].
    apply accounts_quiet; auto. now destruct (readyState w).
Qed.

Lemma StepOk_onClose rt : StepOk (onClose rt).
Proof.
  unfold onClose. step_ok.
  - intros t Hwf. destruct (socket t); now apply accounts_quiet.
  - intros t Hwf. destruct (negb _); [|now apply accounts_quiet].
    now apply (quiet_StepOk _ (quiet_scheduleReconnect rt)).
Qed.

Lemma StepOk_settleConnect rt a outcome : StepOk (settleConnect rt a outcome).
Proof.
  unfold settleConnect. step_ok.
  destruct outcome; [apply StepOk_skip| |];
    apply StepOk_runAll, StepOk_runCatcher.
Qed.

Lemma StepOk_onOpen rt future : StepOk (onOpen rt future).
Proof.
  intros t Hwf. unfold onOpen.
  destruct (connectPromise t) as [a|]; [|now apply accounts_quiet].
  revert t Hwf. fold (StepOk
    (emit (ClearTimeout (ConnectTimer (ws_id (attempt_socket a)))) >>
     attachSocket
       {| ws_id := ws_id (attempt_socket a); readyState := OPEN;
          ws_future := future |} >>
     assign (set_connectedState true) >>
     assign (set_reconnectAttempt 0%nat) >>
     startPing >> flushQueuedRequests >> (settleConnect rt) a Fulfilled)).
  step_ok. apply StepOk_settleConnect.
Qed.

Lemma StepOk_onConnectFailure rt f : StepOk (onConnectFailure rt f).
Proof.
  intros t Hwf. unfold onConnectFailure.
  destruct (connectPromise t) as [a|]; [|now apply accounts_quiet].
  revert t Hwf.
  apply StepOk_andThen; [|apply StepOk_settleConnect].
  step_ok. destruct f; step_ok.
Qed.

Lemma StepOk_onReconnectTimer rt : StepOk (onReconnectTimer rt).
Proof.
  intros t Hwf. unfold onReconnectTimer.
  destruct (reconnectTimer t); [|now apply accounts_quiet].
  revert t Hwf. apply StepOk_andThen; step_ok.
Qed.

(** Every task keeps the account of the calls. *)
Lemma StepOk_handle rt e : StepOk (handle rt e).
Proof.
  destruct e; cbn [handle].
  - apply StepOk_connect.
  - apply StepOk_request.
  - apply StepOk_dispose.
  - apply StepOk_onOpen.
  - apply StepOk_onConnectFailure.
  - apply (StepOk_guard (onMessage rt data)), StepOk_onMessage.
  - apply (StepOk_guard (onClose rt)), StepOk_onClose.
  - apply StepOk_skip.
  - intros t Hwf. destruct (socket t); now apply accounts_quiet.
  - apply StepOk_onReconnectTimer.
  - apply quiet_StepOk, quiet_onPingTimer.
  - apply StepOk_onRequestTimer.
Qed.

Lemma StepOk_run rt es : StepOk (run rt es).
Proof. apply StepOk_runAll, StepOk_handle. Qed.

Lemma wellFormed_new o : wellFormed (new o).
Proof. repeat split; constructor. Qed.

(** The invariant holds throughout the life of a transport. *)
Lemma reachable_wellFormed rt t : reachable rt t -> wellFormed t.
Proof.
  induction 1 as [o|e t _ IH]; [apply wellFormed_new|].
  eapply accounts_wellFormed; [exact IH|now apply StepOk_handle].
Qed.

Lemma reachable_run rt es t :
  reachable rt t -> reachable rt (fst (run rt es t)).
Proof.
  revert t. induction es as [|e es IH]; intros t Ht; [exact Ht|].
  rewrite run_cons, andThen_fst. apply IH. now constructor.
Qed.

(** In a run of tasks from a new transport, the calls settled so far and
    the calls held are, each exactly once, the calls that drew an
    identifier. *)
Lemma every_call_accounted rt o es :
  let r := run rt es (new o) in
  settled (snd r) ++ live (fst r) ≡ₚ seqZ 1 (nextRequestId (fst r) - 1).
Proof.
  destruct (StepOk_run rt es (new o) (wellFormed_new o)) as (_ & _ & Hp).
  exact Hp.
Qed.

(** No call is settled twice, and a settled call is held no longer. *)
Lemma settled_once rt o es :
  NoDup (settled (snd (run rt es (new o))) ++ live (fst (run rt es (new o)))).
Proof.
  rewrite (every_call_accounted rt o es). apply NoDup_seqZ.
Qed.

(** ** Disposal *)

(** [dispose], field by field. *)
Lemma dispose_eq t :
  dispose t =
    (set_socket None
       (set_queuedRequests []
          (set_pendingRequests []
             (set_reconnectTimer None
                (set_pingTimer None
                   (set_connectedState false (set_disposed true t)))))),
     (if pingTimer t is Some _ then [ClearInterval PingTimer] else [])
     ++ (if reconnectTimer t is Some _ then [ClearTimeout ReconnectTimer] else [])
     ++ rejectAll TransportDisposed (pendingRequests t)
     ++ rejectQueuedLoop TransportDisposed (queuedRequests t)
     ++ match socket t with
        | Some w =>
            match readyState w with
            | OPEN | CONNECTING => [Close (ws_id w) (Some 1000)]
            | _ => []
            end
        | None => []
        end).
Proof.
  unfold dispose, andThen, assign, stopPing, rejectPendingRequests,
    rejectQueuedRequests, rejectAll.
  destruct t as [o s c rt pt n i d cs p q sc].
  destruct pt, rt, s; cbn; rewrite <- ?app_assoc, ?app_nil_r;
    cbn; rewrite ?app_nil_r; reflexivity.
Qed.

Lemma rejections_app e1 e2 :
  rejections (e1 ++ e2) = rejections e1 ++ rejections e2.
Proof. apply omap_app. Qed.

Lemma rejections_rejectAll msg m :
  rejections (rejectAll msg m)
    = List.map (fun r => (requestId r, plainError msg)) (JsMap.values m).
Proof.
  unfold rejectAll, JsMap.values.
  induction m as [|[k r] m IH]; [reflexivity|].
  cbn [List.map List.flat_map snd]. rewrite !rejections_app, IH.
  unfold clearRequestTimer. destruct (timer r); reflexivity.
Qed.

Lemma rejections_rejectQueuedLoop msg q :
  rejections (rejectQueuedLoop msg q)
    = List.map (fun r => (requestId r, plainError msg)) q.
Proof. induction q as [|r q IH]; cbn; [reflexivity|]. now rewrite <- IH. Qed.

Lemma clearTimeout_rejectAll msg m r :
  r ∈ JsMap.values m -> is_Some (timer r) ->
  ClearTimeout (RequestTimer (requestId r)) ∈ rejectAll msg m.
Proof.
  intros Hr [ms Hms]. unfold rejectAll.
  apply list_elem_of_In, in_flat_map. exists r.
  split; [now apply list_elem_of_In|].
  unfold clearRequestTimer. rewrite Hms. now left.
Qed.

(** [dispose()] on a transport as it can be. Every call it holds,
    pending or buffered, is rejected with the disposal error, once, and no
    call is held afterwards; the timeout of each pending call, a pending
    reconnect timer and the ping interval are cleared; an attached socket
    that is open or connecting is closed, and no socket is attached
    afterwards. A second [dispose()] changes no field and has no effect. *)
Lemma dispose_settles_and_is_idempotent rt t :
  reachable rt t ->
  let t' := fst (dispose t) in
  let es := snd (dispose t) in
  rejections es
    = List.map (fun id => (id, plainError TransportDisposed)) (live t)
  /\ settled es = live t
  /\ NoDup (settled es)
  /\ pendingRequests t' = [] /\ queuedRequests t' = []
  /\ (forall r, r ∈ JsMap.values (pendingRequests t) -> is_Some (timer r) ->
      ClearTimeout (RequestTimer (requestId r)) ∈ es)
  /\ reconnectTimer t' = None
  /\ (is_Some (reconnectTimer t) -> ClearTimeout ReconnectTimer ∈ es)
  /\ pingTimer t' = None
  /\ (is_Some (pingTimer t) -> ClearInterval PingTimer ∈ es)
  /\ socket t' = None
  /\ (forall w, socket t = Some w ->
      readyState w = OPEN \/ readyState w = CONNECTING ->
      Close (ws_id w) (Some 1000) ∈ es)
  /\ disposed t' = true /\ connectedState t' = false
  /\ dispose t' = (t', []).
Proof.
  intros Hreach. cbv zeta. rewrite dispose_eq. cbn [fst snd].
  destruct (reachable_wellFormed rt t Hreach) as (Hnd & _ & _).
  assert (Hs : settled
    ((if pingTimer t is Some _ then [ClearInterval PingTimer] else []) ++
     (if reconnectTimer t is Some _ then [ClearTimeout ReconnectTimer] else []) ++
     rejectAll TransportDisposed (pendingRequests t) ++
     rejectQueuedLoop TransportDisposed (queuedRequests t) ++
     match socket t with
     | Some w =>
         match readyState w with
         | OPEN | CONNECTING => [Close (ws_id w) (Some 1000)]
         | _ => []
         end
     | None => []
     end) = live t).
  { rewrite !settled_app, settled_rejectAll, settled_rejectQueuedLoop.
    destruct (pingTimer t), (reconnectTimer t), (socket t) as [w|];
      try destruct (readyState w); cbn; now rewrite ?app_nil_r. }
  repeat split.
  - rewrite !rejections_app, rejections_rejectAll, rejections_rejectQueuedLoop.
    unfold live, pendingIds, queuedIds.
    rewrite List.map_app, !List.map_map.
    destruct (pingTimer t), (reconnectTimer t), (socket t) as [w|];
      try destruct (readyState w); cbn; now rewrite ?app_nil_r.
  - exact Hs.
  - rewrite Hs. exact Hnd.
  - intros r Hr Htimer. rewrite !elem_of_app. right. right. left.
    now apply clearTimeout_rejectAll.
  - intros [ms ->]. rewrite !elem_of_app. right. left. now left.
  - intros [ms ->]. rewrite !elem_of_app. left. now left.
  - intros w -> Hstate. rewrite !elem_of_app. do 4 right.
    destruct Hstate as [-> | ->]; now left.
Qed.


(** C7 fails where [dispose()] is called while a connection attempt is in
    flight. The socket of an attempt is held by the promise executor of
    [connect()] and is put into [this.socket] only when it opens, so
    that the test for [CONNECTING] in [dispose()] never applies:
    [dispose()] on a connecting transport has no effect on the outside,
    it closes no socket and leaves the attempt and its timeout. When the
    socket then opens, the disposed transport is connected, with the
    socket attached and the ping interval started, and a second
    [dispose()] is the one that stops the heartbeat and closes the
    channel: it is not without effect. *)
Lemma dispose_misses_attempt_in_flight :
  let started := run nullRuntime [CallConnect] (new no_options) in
  let disposedEarly := handle nullRuntime CallDispose (fst started) in
  let opened := handle nullRuntime (SocketOpened []) (fst disposedEarly) in
  let disposedAgain := handle nullRuntime CallDispose (fst opened) in
  snd started
    = [NewWebSocket 0 "ws://127.0.0.1:30020"; SetTimeout (ConnectTimer 0) 7000]
  /\ snd disposedEarly = []
  /\ is_Some (connectPromise (fst disposedEarly))
  /\ snd opened
     = [ClearTimeout (ConnectTimer 0); SetInterval PingTimer 25000;
        ConnectSettled Fulfilled]
  /\ disposed (fst opened) = true
  /\ connectedState (fst opened) = true
  /\ is_Some (socket (fst opened))
  /\ pingTimer (fst opened) = Some 25000
  /\ snd disposedAgain = [ClearInterval PingTimer; Close 0 (Some 1000)].
Proof. vm_compute. repeat split; now eexists. Qed.

(** ** Loss of the channel *)

Lemma willSchedule_true t :
  autoReconnect (options t) = true -> disposed t = false ->
  reconnectTimer t = None -> willSchedule t = true.
Proof.
  intros Ha Hd Ht. unfold willSchedule. rewrite Ha, Hd, Ht.
  rewrite bool_decide_eq_false_2; [reflexivity|]. intros [? ?]; discriminate.
Qed.

Lemma willSchedule_false t :
  autoReconnect (options t) = false \/ disposed t = true ->
  willSchedule t = false.
Proof.
  unfold willSchedule. intros [-> | ->]; [reflexivity|].
  now rewrite andb_false_r.
Qed.

(** ** [connect()] on a disposed transport *)

(** X24: on a disposed transport [connect()] ends in the rejection "Cannot
    connect a disposed transport": no socket is made, no attempt is begun,
    and no field changes, so that a transport that is not connected, as it
    is when [dispose()] returns, stays so. The same holds for the calls of
    [connect()] that [request] and the reconnect timer make, up to what
    their own [catch] handlers do, which leave the connection as it is. *)
Lemma connect_after_dispose_rejects rt t :
  disposed t = true ->
  handle rt CallConnect t
    = (t, [ConnectSettled (Rejected (plainError CannotConnectDisposed))])
  /\ (connectedState t = false ->
      connectedState (fst (handle rt CallConnect t)) = false)
  /\ (forall t0,
        disposed (fst (dispose t0)) = true
        /\ connectedState
             (fst (handle rt CallConnect (fst (dispose t0)))) = false)
  /\ (forall c,
        exists es,
          snd (connect rt c t)
            = ConnectSettled (Rejected (plainError CannotConnectDisposed)) :: es
          /\ Forall (fun e => forall id u, e <> NewWebSocket id u) es
          /\ connectedState (fst (connect rt c t)) = connectedState t
          /\ connectPromise (fst (connect rt c t)) = connectPromise t
          /\ socket (fst (connect rt c t)) = socket t).
Proof.
  intros Hd.
  assert (E : handle rt CallConnect t =
    (t, [ConnectSettled (Rejected (plainError CannotConnectDisposed))])).
  { cbn [handle]. unfold connect. rewrite Hd. reflexivity. }
  split; [exact E|]. split; [now rewrite E|]. split.
  - intros t0. rewrite dispose_eq. cbn [fst]. split; [reflexivity|].
    cbn [handle]. unfold connect. reflexivity.
  - intros c. unfold connect. rewrite Hd.
    unfold andThen, emit. destruct c; cbn.
    + exists []. repeat split; constructor.
    + destruct (autoReconnect (options t)); cbn.
      * exists []. repeat split; constructor.
      * exists (rejectQueuedLoop DisconnectedNoAutoReconnect (queuedRequests t)).
        repeat split.
        induction (queuedRequests t) as [|r q IH]; cbn; constructor;
          [discriminate|exact IH].
    + unfold scheduleReconnect. rewrite Hd, orb_true_r. cbn.
      exists []. repeat split; constructor.
Qed.

Lemma connect_after_dispose_rejects_witness :
  let t := fst (run nullRuntime [CallConnect; CallDispose] (new no_options)) in
  disposed t = true
  /\ handle nullRuntime CallConnect t
       = (t, [ConnectSettled (Rejected (plainError CannotConnectDisposed))])
  /\ connectedState (fst (handle nullRuntime CallConnect t)) = false.
Proof.
  cbv zeta. split; [reflexivity|].
  pose proof (connect_after_dispose_rejects nullRuntime
                (fst (run nullRuntime [CallConnect; CallDispose] (new no_options)))
                eq_refl) as (E & Hc & _).
  split; [exact E|]. apply Hc. reflexivity.
Defined.

(** C10 fails on a transport that was disposed while a connection
    attempt was in flight. [dispose()] does not reach the attempt; when
    its socket opens afterwards, the disposed transport is connected, with
    a socket attached and the ping interval running. [connect()] is
    rejected all the same and changes nothing, so that the connection
    state after it is connected, not disconnected. *)
Lemma open_after_dispose :
  let t := fst (run nullRuntime lateOpen (new no_options)) in
  disposed t = true /\ connectedState t = true
  /\ is_Some (socket t) /\ pingTimer t = Some 25000
  /\ handle nullRuntime CallConnect t
       = (t, [ConnectSettled (Rejected (plainError CannotConnectDisposed))])
  /\ connectedState (fst (handle nullRuntime CallConnect t)) = true.
Proof. vm_compute. repeat split. now eexists. Qed.

(** ** Batches *)

Lemma add_spec v u b requests id requests' :
  Batch.add v u b requests = Some (id, requests') ->
  id = Z.of_nat (length requests)
  /\ exists entry,
       requests' = requests ++ [entry]
       /\ Batch.RequestId entry = id
       /\ Batch.URL entry = u /\ Batch.Verb entry = v.
Proof.
  unfold Batch.add. destruct (String.eqb u ""); [discriminate|].
  intros [= <- <-]. split; [reflexivity|]. eexists. repeat split.
Qed.

Lemma add_throws v u b requests :
  Batch.add v u b requests = None <-> u = ""%string.
Proof.
  unfold Batch.add. destruct (String.eqb_spec u ""); split; congruence.
Qed.

Lemma sequential_snoc requests entry :
  Batch.sequential requests ->
  Batch.RequestId entry = Z.of_nat (length requests) ->
  Batch.sequential (requests ++ [entry]).
Proof.
  unfold Batch.sequential. intros Hs He.
  rewrite List.map_app, length_app, Nat.add_comm. cbn [length Nat.add].
  rewrite seq_S, List.map_app, Hs. cbn. now rewrite He.
Qed.

Lemma addAll_sequential calls : forall requests,
  Batch.sequential requests -> Batch.sequential (Batch.addAll calls requests).
Proof.
  induction calls as [|[[v u] b] calls IH]; intros requests Hs; [exact Hs|].
  cbn. destruct (Batch.add v u b requests) as [[id requests']|] eqn:Hadd.
  - apply IH. apply add_spec in Hadd as (-> & entry & -> & He & _).
    now apply sequential_snoc.
  - now apply IH.
Qed.

Lemma addAll_order calls : forall requests,
  List.map (fun r => (Batch.Verb r, Batch.URL r)) (Batch.addAll calls requests)
    = List.map (fun r => (Batch.Verb r, Batch.URL r)) requests
      ++ List.map (fun '(v, u, b) => (v, u)) (List.filter Batch.accepted calls).
Proof.
  induction calls as [|[[v u] b] calls IH]; intros requests.
  - cbn. now rewrite app_nil_r.
  - cbn [Batch.addAll fold_left List.filter Batch.accepted].
    fold (Batch.addAll calls).
    unfold Batch.add. destruct (String.eqb u ""); cbn [negb].
    + apply IH.
    + rewrite IH, List.map_app. cbn. now rewrite <- app_assoc.
Qed.

Lemma fill_lookup items : forall (m : gmap Z Batch.BatchResponseItem) k,
  List.fold_left (fun m item => <[Batch.item_RequestId item := item]> m)
    items m !! k
  = match Batch.lastWith k items with
    | Some x => Some x
    | None => m !! k
    end.
Proof.
  unfold Batch.lastWith. induction items as [|x items IH]; intros m k; [reflexivity|].
  cbn [fold_left List.filter]. rewrite IH.
  destruct (Z.eqb_spec (Batch.item_RequestId x) k) as [<-|Hne].
  - rewrite lookup_insert_eq, last_cons.
    now destruct (last (List.filter _ items)).
  - now rewrite lookup_insert_ne.
Qed.

Lemma byRequestId_lookup items k :
  Batch.byRequestId items !! k = Batch.lastWith k items.
Proof.
  unfold Batch.byRequestId. rewrite fill_lookup, lookup_empty.
  now destruct (Batch.lastWith k items).
Qed.

Lemma lastWith_found k before item after :
  Batch.item_RequestId item = k ->
  (forall x, x ∈ after -> Batch.item_RequestId x <> k) ->
  Batch.lastWith k (before ++ item :: after) = Some item.
Proof.
  intros Hk Hafter. unfold Batch.lastWith.
  rewrite List.filter_app. cbn [List.filter].
  destruct (Z.eqb_spec (Batch.item_RequestId item) k) as [_|]; [|contradiction].
  assert (Hnil : List.filter (fun x => Batch.item_RequestId x =? k) after = []).
  { induction after as [|y after IH]; [reflexivity|]. cbn.
    destruct (Z.eqb_spec (Batch.item_RequestId y) k) as [Heq|_].
    - exfalso. apply (Hafter y); [now left|exact Heq].
    - apply IH. intros x Hx. apply Hafter. now right. }
  rewrite Hnil. apply last_snoc.
Qed.

Lemma lastWith_absent k items :
  (forall x, x ∈ items -> Batch.item_RequestId x <> k) ->
  Batch.lastWith k items = None.
Proof.
  intros Habs. unfold Batch.lastWith.
  induction items as [|y items IH]; [reflexivity|]. cbn.
  destruct (Z.eqb_spec (Batch.item_RequestId y) k) as [Heq|_].
  - exfalso. apply (Habs y); [now left|exact Heq].
  - apply IH. intros x Hx. apply Habs. now right.
Qed.

(** With one entry per identifier, the order of the response array does
    not matter. *)
Lemma lastWith_perm k items items' :
  NoDup (List.map Batch.item_RequestId items) ->
  items ≡ₚ items' ->
  Batch.lastWith k items = Batch.lastWith k items'.
Proof.
  intros Hnd Hperm.
  destruct (decide (k ∈ List.map Batch.item_RequestId items)) as [Hin|Hno].
  - apply list_elem_of_In, in_map_iff in Hin as (x & Hk & Hx).
    apply list_elem_of_In in Hx.
    assert (Hnd' : NoDup (List.map Batch.item_RequestId items')).
    { now rewrite <- Hperm. }
    assert (Hx' : x ∈ items') by now rewrite <- Hperm.
    assert (Hsplit : forall l, NoDup (List.map Batch.item_RequestId l) ->
              x ∈ l -> Batch.lastWith k l = Some x).
    { intros l Hl Hin. apply list_elem_of_split in Hin as (l1 & l2 & ->).
      apply lastWith_found; [exact Hk|].
      intros y Hy Hyk. rewrite List.map_app in Hl. cbn in Hl.
      apply NoDup_app in Hl as (_ & _ & Hl). apply NoDup_cons in Hl as [Hl _].
      apply Hl. rewrite Hk, <- Hyk.
      apply list_elem_of_In, in_map, list_elem_of_In, Hy. }
    now rewrite !Hsplit.
  - rewrite !lastWith_absent; [reflexivity| |].
    + intros x Hx Hk. apply Hno. rewrite <- Hk.
      apply list_elem_of_In, in_map, list_elem_of_In. now rewrite Hperm.
    + intros x Hx Hk. apply Hno. rewrite <- Hk.
      apply list_elem_of_In, in_map, list_elem_of_In, Hx.
Qed.

(** C8: the builder numbers the sub-calls it accepts 0, 1, 2, ... in the
    order they are added, and keeps them in that order; [add] returns the
    number. The correlation gives one result per sub-request, in the order
    of the requests, each with the identifier of its request: status and
    body are those of the last entry of the response array with that
    identifier (the only one, when the identifiers of the array are
    distinct), and 0 and [undefined] when the array has none. When the
    identifiers of the array are distinct its order does not matter. *)
Theorem batch_ids_and_correlation :
  (forall calls : list Batch.SubCall,
     let requests := Batch.addAll calls [] in
     List.map Batch.RequestId requests
       = List.map Z.of_nat (seq 0 (length requests))
     /\ List.map (fun r => (Batch.Verb r, Batch.URL r)) requests
          = List.map (fun '(v, u, b) => (v, u)) (List.filter Batch.accepted calls)
     /\ forall v u b id requests',
          Batch.add v u b requests = Some (id, requests') ->
          id = Z.of_nat (length requests)
          /\ exists entry,
               requests' = requests ++ [entry] /\ Batch.RequestId entry = id)
  /\ (forall requests response,
        let results := Batch.correlateBatchResponses requests response in
        let items := default [] (Batch.Responses response) in
        List.map Batch.request results = requests
        /\ length results = length requests
        /\ forall (i : nat) req, requests !! i = Some req ->
           exists res,
             results !! i = Some res
             /\ Batch.requestId res = Batch.RequestId req
             /\ Batch.request res = req
             /\ (forall before item after,
                   items = before ++ item :: after ->
                   Batch.item_RequestId item = Batch.RequestId req ->
                   (forall x, x ∈ after ->
                      Batch.item_RequestId x <> Batch.RequestId req) ->
                   Batch.statusCode res = Batch.ResponseCode item
                   /\ Batch.body res = Batch.ResponseBody item)
             /\ ((forall x, x ∈ items ->
                    Batch.item_RequestId x <> Batch.RequestId req) ->
                 Batch.statusCode res = 0 /\ Batch.body res = JsUndefined))
  /\ (forall requests items items',
        NoDup (List.map Batch.item_RequestId items) ->
        items ≡ₚ items' ->
        Batch.correlateBatchResponses requests {| Batch.Responses := Some items |}
          = Batch.correlateBatchResponses requests
              {| Batch.Responses := Some items' |}).
Proof.
  split; [|split].
  - intros calls. cbv zeta. split; [|split].
    + now apply (addAll_sequential calls []).
    + now rewrite addAll_order.
    + intros v u b id requests' Hadd.
      apply add_spec in Hadd as (-> & entry & -> & He & _). eauto.
  - intros requests response. cbv zeta.
    unfold Batch.correlateBatchResponses.
    split; [|split].
    + rewrite List.map_map. cbn. apply List.map_id.
    + apply length_map.
    + intros i req Hi. eexists. split.
      { change (List.map ?f ?l) with (f <$> l).
        rewrite list_lookup_fmap, Hi. reflexivity. }
      cbn [Batch.requestId Batch.request Batch.statusCode Batch.body].
      split; [reflexivity|]. split; [reflexivity|].
      rewrite byRequestId_lookup. split.
      * intros before item after -> Hk Hafter.
        now rewrite (lastWith_found _ before item after Hk Hafter).
      * intros Habs. now rewrite (lastWith_absent _ _ Habs).
  - intros requests items items' Hnd Hperm.
    unfold Batch.correlateBatchResponses. cbn [default Batch.Responses].
    apply List.map_ext. intros req.
    now rewrite !byRequestId_lookup, (lastWith_perm _ items items' Hnd Hperm).
Qed.

Lemma batch_ids_and_correlation_witness :
  let requests := Batch.addAll twoSubCalls [] in
  List.map Batch.RequestId requests = [0; 1]
  /\ List.map (fun r => (Batch.requestId r, Batch.statusCode r, Batch.body r))
       (Batch.correlateBatchResponses requests
          {| Batch.Responses := Some answeredBackwards |})
     = [(0, 200, JsBoolean true); (1, 204, JsUndefined)]
  /\ List.map (fun r => (Batch.requestId r, Batch.statusCode r, Batch.body r))
       (Batch.correlateBatchResponses requests
          {| Batch.Responses := Some (List.tl answeredBackwards) |})
     = [(0, 200, JsBoolean true); (1, 0, JsUndefined)]
  /\ Batch.correlateBatchResponses requests
       {| Batch.Responses := Some answeredBackwards |}
     = Batch.correlateBatchResponses requests
         {| Batch.Responses := Some (List.rev answeredBackwards) |}.
Proof.
  destruct batch_ids_and_correlation as (Hbuild & Hcorr & Hperm).
  cbv zeta. split; [|split; [|split]].
  - destruct (Hbuild twoSubCalls) as (Hids & _). rewrite Hids. reflexivity.
  - vm_compute. reflexivity.
  - vm_compute. reflexivity.
  - apply Hperm.
    + apply (bool_decide_unpack (NoDup [1; 0])). vm_compute. exact I.
    + apply Permutation_rev.
Defined.

(** * Further properties of the WebSocket transport *)

Import Rules Scenarios.

(** ** Rules and how they compose *)

Section Obeying.

Context (R : Rule) `{!Compositional R}.

Lemma Obeys_skip : Obeys R skip.
Proof. intros t. apply rule_stays. Qed.

Lemma Obeys_andThen a b : Obeys R a -> Obeys R b -> Obeys R (a >> b).
Proof.
  intros Ha Hb t. rewrite andThen_fst, andThen_snd.
  eapply rule_follows; [apply Ha|apply Hb].
Qed.

Lemma Obeys_runAll {A} (f : A -> Action) l :
  (forall x, Obeys R (f x)) -> Obeys R (runAll f l).
Proof.
  intros Hf. induction l as [|x l IH].
  - apply Obeys_skip.
  - rewrite runAll_cons. now apply Obeys_andThen.
Qed.

Lemma Obeys_run rt es :
  Forall (fun e => Obeys R (handle rt e)) es -> Obeys R (run rt es).
Proof.
  induction 1 as [|e es He _ IH].
  - apply Obeys_skip.
  - rewrite run_cons. now apply Obeys_andThen.
Qed.

(** The loop of [flushQueuedRequests] obeys a rule that the assignments to
    the queue and [sendRequest] obey. *)
Lemma Obeys_flushLoop :
  (forall q, Obeys R (assign (set_queuedRequests q))) ->
  (forall r, Obeys R (sendRequest r)) ->
  forall q, Obeys R (flushLoop q).
Proof.
  intros Hq Hs. induction q as [|next rest IH]; intros t.
  - apply rule_stays.
  - cbn [flushLoop].
    destruct (negb _ || negb _).
    + pose proof (rule_follows _ _ _ _ _
                    (Hq rest t) (Hq (next :: rest) (set_queuedRequests rest t)))
        as H.
      exact H.
    + pose proof (Hq rest t) as H1.
      pose proof (Hs next (set_queuedRequests rest t)) as H2.
      destruct (sendRequest next (set_queuedRequests rest t)) as [t2 e2].
      pose proof (IH t2) as H3.
      destruct (flushLoop rest t2) as [t3 e3]. cbn [fst snd] in *.
      pose proof (rule_follows _ _ _ _ _ H1
                    (rule_follows _ _ _ _ _ H2 H3)) as H.
      exact H.
Qed.

End Obeying.

#[global] Instance keeping_compositional I P : Compositional (keeping I P).
Proof.
  split.
  - intros t Ht. split; [exact Ht|constructor].
  - intros t t1 t2 e1 e2 H1 H2 Ht.
    destruct (H1 Ht) as [Ht1 He1]. destruct (H2 Ht1) as [Ht2 He2].
    split; [exact Ht2|]. apply Forall_app; auto.
Qed.

#[global] Instance drawsNone_compositional : Compositional drawsNone.
Proof.
  split.
  - reflexivity.
  - unfold drawsNone. intros. congruence.
Qed.

Ltac in_sequence :=
  lazymatch goal with
  | |- Obeys ?R (_ >> _) => apply (@Obeys_andThen R _)
  end.

Ltac as_rule :=
  lazymatch goal with
  | |- ?R ?t (fst (?a ?t)) (snd (?a ?t)) => refine ((_ : Obeys R a) t)
  end.

Ltac each_of :=
  lazymatch goal with
  | |- Obeys ?R (runAll _ _) => apply (@Obeys_runAll R _)
  end.

(** ** The identifiers are drawn by [request()] and by nothing else *)

Ltac by_cases :=
  repeat match goal with
         | |- context [match ?x with _ => _ end] =>
             lazymatch x with
             | context [match _ with _ => _ end] => fail
             | _ => destruct x eqn:?
             end
         end.

(** Case analysis with the facts at hand rewritten before each step. *)
Ltac by_cases_with rw :=
  repeat (cbn; repeat (progress rw; cbn);
          match goal with
          | |- context [match ?x with _ => _ end] =>
              lazymatch x with
              | context [match _ with _ => _ end] => fail
              | _ => destruct x eqn:?
              end
          end);
  cbn; repeat (progress rw; cbn).

Lemma drawsNone_sendRequest r : Obeys drawsNone (sendRequest r).
Proof.
  intros t. unfold drawsNone, sendRequest. by_cases; reflexivity.
Qed.

Lemma drawsNone_flush : Obeys drawsNone flushQueuedRequests.
Proof.
  intros t. unfold flushQueuedRequests.
  apply (@Obeys_flushLoop drawsNone _); [now intros ? ?|apply drawsNone_sendRequest].
Qed.

Lemma drawsNone_runCatcher rt c : Obeys drawsNone (runCatcher rt c).
Proof.
  intros t. unfold drawsNone, runCatcher, scheduleReconnect, skip,
    rejectQueuedRequests.
  by_cases; reflexivity.
Qed.

Lemma drawsNone_scheduleReconnect rt : Obeys drawsNone (scheduleReconnect rt).
Proof. apply (drawsNone_runCatcher rt CatchOfReconnect). Qed.

Lemma drawsNone_connect rt c : Obeys drawsNone (connect rt c).
Proof.
  intros t. unfold connect. destruct (disposed t).
  - as_rule; in_sequence; [now intros ?|apply drawsNone_runCatcher].
  - destruct (connectedState t); [reflexivity|].
    destruct (connectPromise t); [reflexivity|].
    destruct (WebSocket_throws rt _); [|reflexivity].
    as_rule; in_sequence; [now intros ?|apply drawsNone_runCatcher].
Qed.

Lemma drawsNone_settleConnect rt a o : Obeys drawsNone (settleConnect rt a o).
Proof.
  unfold settleConnect.
  repeat in_sequence; try (now intros ?).
  destruct o; [now intros ?| |]; each_of; apply drawsNone_runCatcher.
Qed.

Lemma drawsNone_startPing : Obeys drawsNone startPing.
Proof.
  intros t. unfold drawsNone, startPing, stopPing, andThen.
  by_cases; reflexivity.
Qed.

Lemma drawsNone_handle rt e :
  isSubmission e = false -> Obeys drawsNone (handle rt e).
Proof.
  destruct e; cbn [handle isSubmission]; intros He; try discriminate.
  - apply drawsNone_connect.
  - intros t. unfold drawsNone, dispose, andThen, assign, stopPing,
      rejectPendingRequests, rejectQueuedRequests.
    cbn. by_cases; reflexivity.
  - intros t. unfold onOpen. destruct (connectPromise t); [|reflexivity].
    as_rule.
    repeat in_sequence; try (now intros ?);
      auto using drawsNone_startPing, drawsNone_flush, drawsNone_settleConnect.
  - intros t. unfold onConnectFailure. destruct (connectPromise t); [|reflexivity].
    as_rule.
    repeat in_sequence; try (now intros ?);
      auto using drawsNone_settleConnect, drawsNone_scheduleReconnect.
    destruct f; now intros ?.
  - intros t. unfold drawsNone, onMessage. by_cases; reflexivity.
  - intros t. destruct (bool_decide _); [|reflexivity].
    unfold drawsNone, onClose, andThen, assign, stopPing,
      rejectPendingRequests, scheduleReconnect.
    cbn. by_cases; reflexivity.
  - now intros ?.
  - intros t. unfold drawsNone. by_cases; reflexivity.
  - intros t. unfold onReconnectTimer. destruct (reconnectTimer t); [|reflexivity].
    as_rule; in_sequence; [now intros ?|apply drawsNone_connect].
  - intros t. unfold drawsNone, onPingTimer. by_cases; reflexivity.
  - intros t. unfold drawsNone, onRequestTimer. by_cases; reflexivity.
Qed.

Lemma request_draws_one rt v u b timeout t :
  nextRequestId (fst (request rt v u b timeout t)) = nextRequestId t + 1.
Proof.
  unfold request.
  set (t1 := set_nextRequestId (nextRequestId t + 1) t).
  assert (H : drawsNone t1 (fst (request rt v u b timeout t))
                (snd (request rt v u b timeout t))).
  { unfold request. fold t1.
    destruct (connectedState t1 && socketIsOpen t1).
    - apply drawsNone_sendRequest.
    - destruct (disconnectedBehavior (options t1)); [|reflexivity].
      destruct (_ >=? _); [reflexivity|].
      apply (@Obeys_andThen drawsNone _ (assign _) (connect rt CatchOfRequest));
        [now intros ?|apply drawsNone_connect]. }
  exact H.
Qed.

(** The counter after a run: one identifier for each call of
    [request()]. *)
Lemma counter_after_run rt es : forall t,
  nextRequestId (fst (run rt es t))
    = nextRequestId t + Z.of_nat (submissions es).
Proof.
  induction es as [|e es IH]; intros t.
  - cbn. lia.
  - rewrite run_cons, andThen_fst, IH. unfold submissions. cbn [List.filter].
    destruct (isSubmission e) eqn:He.
    + destruct e; try discriminate. cbn [handle length].
      rewrite request_draws_one. lia.
    + rewrite (drawsNone_handle rt e He t). reflexivity.
Qed.

(** X1: in every run of tasks from a new transport, the calls are numbered
    1, 2, 3, ... in the order of the calls of [request()]; each of them is
    either settled, once, or still held by the transport (sent and waiting
    for its frame, or buffered), and none is both. No call is settled
    twice and none is lost. *)
Theorem calls_numbered_and_settled_once rt o es :
  let r := run rt es (new o) in
  let n := Z.of_nat (submissions es) in
  nextRequestId (fst r) = 1 + n
  /\ settled (snd r) ++ live (fst r) ≡ₚ seqZ 1 n
  /\ NoDup (settled (snd r) ++ live (fst r)).
Proof.
  cbv zeta.
  pose proof (counter_after_run rt es (new o)) as Hn.
  change (nextRequestId (new o)) with 1 in Hn.
  pose proof (every_call_accounted rt o es) as Hp. cbv zeta in Hp.
  rewrite Hn in Hp.
  replace (1 + Z.of_nat (submissions es) - 1) with (Z.of_nat (submissions es))
    in Hp by lia.
  split; [exact Hn|]. split; [exact Hp|].
  rewrite Hp. apply NoDup_seqZ.
Qed.

(** ** Status codes come from frames *)

(** The effects of the loops that reject calls. *)
Lemma Forall_rejectAll (P : Effect -> Prop) msg m :
  (forall id, P (ClearTimeout (RequestTimer id))) ->
  (forall id, P (Reject id (plainError msg))) ->
  Forall P (rejectAll msg m).
Proof.
  intros Hc Hr. unfold rejectAll. apply Forall_flat_map, Forall_forall.
  intros r _. unfold clearRequestTimer.
  destruct (timer r); repeat constructor; auto.
Qed.

Lemma Forall_rejectQueuedLoop (P : Effect -> Prop) msg q :
  (forall id, P (Reject id (plainError msg))) ->
  Forall P (rejectQueuedLoop msg q).
Proof.
  intros Hr. induction q as [|r q IH]; cbn; constructor; auto.
Qed.

Ltac effects_ok :=
  repeat first
    [ apply List.Forall_nil
    | apply List.Forall_cons; [try exact I; try reflexivity|]
    | apply Forall_app; split
    | apply Forall_rejectAll; intros; try exact I; try reflexivity
    | apply Forall_rejectQueuedLoop; intros; try exact I; try reflexivity ].

Section StatusCodes.

Let R := keeping (fun _ => True) carriesNoStatus.

Local Ltac still := solve [intros ? ?; split; [exact I|effects_ok]].

Local Ltac atom :=
  intros ? _; split; [exact I|]; by_cases; cbn; effects_ok.

Lemma status_stopPing : Obeys R stopPing.
Proof. unfold stopPing. atom. Qed.

Lemma status_startPing : Obeys R startPing.
Proof. unfold startPing, stopPing, andThen. atom. Qed.

Lemma status_scheduleReconnect rt : Obeys R (scheduleReconnect rt).
Proof. unfold scheduleReconnect. atom. Qed.

Lemma status_rejectPendingRequests m : Obeys R (rejectPendingRequests m).
Proof. unfold rejectPendingRequests. atom. Qed.

Lemma status_rejectQueuedRequests m : Obeys R (rejectQueuedRequests m).
Proof. unfold rejectQueuedRequests. atom. Qed.

Lemma status_sendRequest r : Obeys R (sendRequest r).
Proof. unfold sendRequest. atom. Qed.

Lemma status_flush : Obeys R flushQueuedRequests.
Proof.
  intros t. unfold flushQueuedRequests.
  apply (@Obeys_flushLoop R _); [solve [intros ? ? ?; split; [exact I|effects_ok]]|apply status_sendRequest].
Qed.

Lemma status_runCatcher rt c : Obeys R (runCatcher rt c).
Proof.
  destruct c; cbn.
  - apply (@Obeys_skip R _).
  - intros t. destruct (negb _);
      [apply status_rejectQueuedRequests|apply (@Obeys_skip R _)].
  - apply status_scheduleReconnect.
Qed.

Lemma status_connect rt c : Obeys R (connect rt c).
Proof.
  intros t. unfold connect. destruct (disposed t).
  - as_rule; in_sequence; [still|apply status_runCatcher].
  - destruct (connectedState t); [revert t; atom|].
    destruct (connectPromise t); [revert t; atom|].
    destruct (WebSocket_throws rt _); [|revert t; atom].
    as_rule; in_sequence; [still|apply status_runCatcher].
Qed.

Lemma status_settleConnect rt a o : Obeys R (settleConnect rt a o).
Proof.
  unfold settleConnect. repeat in_sequence; try still.
  destruct o; [apply (@Obeys_skip R _)| |]; each_of; apply status_runCatcher.
Qed.

Lemma status_request rt v u b timeout : Obeys R (request rt v u b timeout).
Proof.
  intros t. unfold request.
  set (t1 := set_nextRequestId (nextRequestId t + 1) t).
  intros _. split; [exact I|].
  destruct (connectedState t1 && socketIsOpen t1).
  - now apply status_sendRequest.
  - destruct (disconnectedBehavior (options t1)); [|effects_ok].
    destruct (_ >=? _); [effects_ok|].
    apply (@Obeys_andThen R _ (assign _) (connect rt CatchOfRequest));
      [still|apply status_connect|exact I].
Qed.

Lemma status_handle rt e : notFrame e -> Obeys R (handle rt e).
Proof.
  destruct e; cbn [handle notFrame]; intros Hnot.
  - apply status_connect.
  - apply status_request.
  - unfold dispose. repeat in_sequence; try still;
      auto using status_stopPing, status_rejectPendingRequests,
        status_rejectQueuedRequests; atom.
  - intros t. unfold onOpen.
    destruct (connectPromise t); [|apply (@rule_stays R _)].
    as_rule. repeat in_sequence; try still;
      auto using status_startPing, status_flush, status_settleConnect.
  - intros t. unfold onConnectFailure.
    destruct (connectPromise t); [|apply (@rule_stays R _)].
    as_rule. repeat in_sequence; try still;
      auto using status_scheduleReconnect, status_settleConnect.
    destruct f; still.
  - contradiction.
  - intros t. destruct (bool_decide _); [|apply (@rule_stays R _)].
    as_rule. unfold onClose. repeat in_sequence; try still;
      auto using status_stopPing, status_rejectPendingRequests.
    + atom.
    + intros t'. destruct (negb _);
        [apply status_scheduleReconnect|apply (@rule_stays R _)].
  - apply (@Obeys_skip R _).
  - atom.
  - intros t. unfold onReconnectTimer.
    destruct (reconnectTimer t); [|apply (@rule_stays R _)].
    as_rule; in_sequence; [still|apply status_connect].
  - unfold onPingTimer. atom.
  - unfold onRequestTimer. atom.
Qed.

End StatusCodes.

(** The rejection that a frame makes carries a status code only where it
    is built from the frame's finite code. *)
Lemma frame_rejection rt data t id err :
  In (Reject id err) (snd (handle rt (SocketMessage data) t)) ->
  is_Some (statusCode err) ->
  builtFromFrame rt data err.
Proof.
  cbn [handle]. destruct (bool_decide _); [|intros []].
  unfold onMessage, builtFromFrame.
  destruct (readPayload rt data) as [payload|] eqn:Hp; [|intros []].
  destruct (getProperty payload "RequestId") as [idValue|];
    [|intros [H|[]]; discriminate].
  destruct (numberOf rt idValue) as [| |rid]; try (intros []).
  destruct (JsMap.getNumber rid (pendingRequests t)) as [pending|];
    [|intros []].
  cbn [snd]. intros Hin Hstatus. apply in_app_or in Hin as [Hin|Hin].
  { unfold clearRequestTimer in Hin.
    destruct (timer pending); [destruct Hin as [H|[]]; discriminate|destruct Hin]. }
  destruct Hin as [Hin|[]]. unfold settleFromFrame in Hin.
  destruct (numberOf rt (default JsUndefined (getProperty payload "ResponseCode")))
    as [| |code] eqn:Hcode; cbn in Hin.
  - injection Hin as _ <-. destruct Hstatus; discriminate.
  - injection Hin as _ <-. destruct Hstatus; discriminate.
  - exists payload, code. split; [reflexivity|]. split; [exact Hcode|].
    destruct (Qle_bool (inject_Z 200) code) eqn:H1; cbn in Hin.
    + destruct (Qle_bool (inject_Z 300) code) eqn:H2; cbn in Hin;
        [|discriminate].
      injection Hin as _ <-. split; [|reflexivity]. intros [_ Hlt].
      apply Qle_bool_iff in H2. now apply Qlt_not_le in Hlt.
    + injection Hin as _ <-. split; [|reflexivity]. intros [Hge _].
      apply Qle_bool_iff in Hge. congruence.
Qed.

(** X11: an error with which the transport rejects a call carries a
    status code only when [onMessage] built it from a response frame.
    Every rejection with a status code in a run is the work of a frame of
    that run: the frame parses, its [ResponseCode] is a finite number that
    is no code of success (not from 200 up to 300), and the error carries
    this number as its status code, names it in its message and has the
    frame's [ResponseBody] as details. The rejections of every other task
    (a call that times out, a disconnect, disposal, the queue limit, a
    send that fails, a connect that fails) carry no status code, whatever
    the transport's fields are. *)
Theorem status_code_only_from_frames rt :
  (forall es t id err,
     In (Reject id err) (snd (run rt es t)) ->
     is_Some (statusCode err) ->
     exists data, In (SocketMessage data) es /\ builtFromFrame rt data err)
  /\ (forall e t id err,
        notFrame e ->
        In (Reject id err) (snd (handle rt e t)) ->
        statusCode err = None).
Proof.
  assert (Hother : forall e t id err,
            notFrame e ->
            In (Reject id err) (snd (handle rt e t)) ->
            statusCode err = None).
  { intros e t id err Hnot Hin.
    destruct (status_handle rt e Hnot t I) as [_ H].
    rewrite Forall_forall in H.
    exact (H _ (proj2 (list_elem_of_In _ _) Hin)). }
  split; [|exact Hother].
  induction es as [|e es IH]; intros t id err Hin Hstatus; [destruct Hin|].
  rewrite run_cons, andThen_snd in Hin.
  apply in_app_or in Hin as [Hin|Hin].
  - destruct e as [| | | | |data| | | | | |];
      try (assert (statusCode err = None) as E
             by (eapply Hother; [|exact Hin]; exact I);
           rewrite E in Hstatus; destruct Hstatus; discriminate).
    exists data. split; [now left|].
    now apply (frame_rejection rt data t id err).
  - destruct (IH _ id err Hin Hstatus) as (data & Hd & Hb).
    exists data. split; [now right|exact Hb].
Qed.

(** ** With auto-reconnect off *)

Section NoReconnect.

Let R := keeping neverReconnects schedulesNothing.

Local Ltac atom :=
  intros ? (Hauto & Htimer & Hattempt);
  unfold neverReconnects; cbn;
  rewrite ?Hauto, ?Htimer, ?Hattempt; cbn;
  by_cases; cbn;
  (split; [auto|effects_ok]).

Local Ltac still := solve [atom].

Lemma quiet_stopPing' : Obeys R stopPing.
Proof. unfold stopPing. atom. Qed.

Lemma never_startPing : Obeys R startPing.
Proof. unfold startPing, stopPing, andThen. atom. Qed.

Lemma never_scheduleReconnect rt : Obeys R (scheduleReconnect rt).
Proof. unfold scheduleReconnect. atom. Qed.

Lemma never_rejectPendingRequests m : Obeys R (rejectPendingRequests m).
Proof. unfold rejectPendingRequests. atom. Qed.

Lemma never_rejectQueuedRequests m : Obeys R (rejectQueuedRequests m).
Proof. unfold rejectQueuedRequests. atom. Qed.

Lemma never_sendRequest r : Obeys R (sendRequest r).
Proof. unfold sendRequest. atom. Qed.

Lemma never_flush : Obeys R flushQueuedRequests.
Proof.
  intros t. unfold flushQueuedRequests.
  apply (@Obeys_flushLoop R _); [intros q; unfold assign; atom|apply never_sendRequest].
Qed.

Lemma never_runCatcher rt c : Obeys R (runCatcher rt c).
Proof.
  destruct c; cbn.
  - apply (@Obeys_skip R _).
  - intros t. destruct (negb _);
      [apply never_rejectQueuedRequests|apply (@Obeys_skip R _)].
  - apply never_scheduleReconnect.
Qed.

Lemma never_connect rt c : Obeys R (connect rt c).
Proof.
  intros t. unfold connect. destruct (disposed t).
  - as_rule; in_sequence; [unfold emit; still|apply never_runCatcher].
  - destruct (connectedState t); [revert t; atom|].
    destruct (connectPromise t); [revert t; atom|].
    destruct (WebSocket_throws rt _); [|revert t; atom].
    as_rule; in_sequence; [unfold emit; still|apply never_runCatcher].
Qed.

Lemma never_settleConnect rt a o : Obeys R (settleConnect rt a o).
Proof.
  unfold settleConnect, assign, emit. repeat in_sequence; try still.
  destruct o; [apply (@Obeys_skip R _)| |]; each_of; apply never_runCatcher.
Qed.

Lemma never_request rt v u b timeout : Obeys R (request rt v u b timeout).
Proof.
  intros t. unfold request.
  set (t1 := set_nextRequestId (nextRequestId t + 1) t).
  intros Ht. assert (Ht1 : neverReconnects t1) by exact Ht. clear Ht.
  destruct (connectedState t1 && socketIsOpen t1).
  - now apply never_sendRequest.
  - destruct (disconnectedBehavior (options t1)); [|split; [exact Ht1|effects_ok]].
    destruct (_ >=? _); [split; [exact Ht1|effects_ok]|].
    apply (@Obeys_andThen R _ (assign _) (connect rt CatchOfRequest));
      [unfold assign; still|apply never_connect|exact Ht1].
Qed.

Lemma never_handle rt e : Obeys R (handle rt e).
Proof.
  destruct e; cbn [handle].
  - apply never_connect.
  - apply never_request.
  - unfold dispose, assign. repeat in_sequence; try still;
      auto using quiet_stopPing', never_rejectPendingRequests,
        never_rejectQueuedRequests.
  - intros t. unfold onOpen.
    destruct (connectPromise t); [|apply (@rule_stays R _)].
    as_rule. unfold attachSocket, assign, emit.
    repeat in_sequence; try still;
      auto using never_startPing, never_flush, never_settleConnect.
  - intros t. unfold onConnectFailure.
    destruct (connectPromise t); [|apply (@rule_stays R _)].
    as_rule. unfold emit. repeat in_sequence; try still;
      auto using never_scheduleReconnect, never_settleConnect.
  - intros t. destruct (bool_decide _); [|apply (@rule_stays R _)].
    revert t. unfold onMessage, clearRequestTimer, settleFromFrame. atom.
  - intros t. destruct (bool_decide _); [|apply (@rule_stays R _)].
    as_rule. unfold onClose, assign. repeat in_sequence; try still;
      auto using quiet_stopPing', never_rejectPendingRequests.
    intros t'. destruct (negb _);
      [apply never_scheduleReconnect|apply (@rule_stays R _)].
  - apply (@Obeys_skip R _).
  - atom.
  - intros t. unfold onReconnectTimer.
    destruct (reconnectTimer t); [|apply (@rule_stays R _)].
    as_rule; in_sequence; [unfold assign; still|apply never_connect].
  - unfold onPingTimer. atom.
  - unfold onRequestTimer. atom.
Qed.

End NoReconnect.

(** X7: a transport made with [autoReconnect: false] never schedules a
    reconnect: whatever is called and whatever the network does, no
    reconnect timer is armed, none is pending, and the attempt count stays
    at 0. *)
Theorem no_reconnect_when_switched_off rt o es :
  opt_autoReconnect o = Some false ->
  let r := run rt es (new o) in
  reconnectDelays (snd r) = []
  /\ reconnectTimer (fst r) = None
  /\ reconnectAttempt (fst r) = 0%nat.
Proof.
  intros Ho. cbv zeta.
  assert (H0 : neverReconnects (new o)).
  { unfold neverReconnects. cbn. now rewrite Ho. }
  destruct (@Obeys_run (keeping neverReconnects schedulesNothing) _ rt es
              (proj2 (Forall_forall _ _) (fun e _ => never_handle rt e))
              (new o) H0) as [(_ & Ht & Hn) He].
  split; [|auto].
  apply omap_nothing. exact He.
Qed.

Lemma no_reconnect_when_switched_off_witness :
  reconnectDelays (snd (run nullRuntime lostAfterRetry (new withoutReconnect)))
    = [].
Proof.
  exact (proj1 (no_reconnect_when_switched_off nullRuntime withoutReconnect
                  lostAfterRetry eq_refl)).
Defined.

(** ** Under the policy to reject *)

Section RejectPolicy.

Let R := keeping buffersNothing (fun _ => True).

Local Ltac atom :=
  intros ? (Hpolicy & Hqueue);
  unfold buffersNothing; cbn;
  rewrite ?Hpolicy, ?Hqueue; cbn;
  by_cases; cbn;
  (split; [auto|effects_ok]).

Local Ltac still := solve [atom].

Lemma rejecting_stopPing : Obeys R stopPing.
Proof. unfold stopPing. atom. Qed.

Lemma rejecting_startPing : Obeys R startPing.
Proof. unfold startPing, stopPing, andThen. atom. Qed.

Lemma rejecting_scheduleReconnect rt : Obeys R (scheduleReconnect rt).
Proof. unfold scheduleReconnect. atom. Qed.

Lemma rejecting_rejectPendingRequests m : Obeys R (rejectPendingRequests m).
Proof. unfold rejectPendingRequests. atom. Qed.

Lemma rejecting_rejectQueuedRequests m : Obeys R (rejectQueuedRequests m).
Proof. unfold rejectQueuedRequests. atom. Qed.

Lemma rejecting_sendRequest r : Obeys R (sendRequest r).
Proof. unfold sendRequest. atom. Qed.

Lemma rejecting_flush : Obeys R flushQueuedRequests.
Proof. unfold flushQueuedRequests. atom. Qed.

Lemma rejecting_runCatcher rt c : Obeys R (runCatcher rt c).
Proof.
  destruct c; cbn.
  - apply (@Obeys_skip R _).
  - intros t. destruct (negb _);
      [apply rejecting_rejectQueuedRequests|apply (@Obeys_skip R _)].
  - apply rejecting_scheduleReconnect.
Qed.

Lemma rejecting_connect rt c : Obeys R (connect rt c).
Proof.
  intros t. unfold connect. destruct (disposed t).
  - as_rule; in_sequence; [unfold emit; still|apply rejecting_runCatcher].
  - destruct (connectedState t); [revert t; atom|].
    destruct (connectPromise t); [revert t; atom|].
    destruct (WebSocket_throws rt _); [|revert t; atom].
    as_rule; in_sequence; [unfold emit; still|apply rejecting_runCatcher].
Qed.

Lemma rejecting_settleConnect rt a o : Obeys R (settleConnect rt a o).
Proof.
  unfold settleConnect, assign, emit. repeat in_sequence; try still.
  destruct o; [apply (@Obeys_skip R _)| |]; each_of; apply rejecting_runCatcher.
Qed.

Lemma rejecting_request rt v u b timeout : Obeys R (request rt v u b timeout).
Proof.
  intros t. unfold request.
  set (t1 := set_nextRequestId (nextRequestId t + 1) t).
  intros Ht. assert (Ht1 : buffersNothing t1) by exact Ht. clear Ht.
  destruct (connectedState t1 && socketIsOpen t1).
  - now apply rejecting_sendRequest.
  - destruct Ht1 as [Hp Hq]. rewrite Hp.
    split; [now split|effects_ok].
Qed.

Lemma rejecting_handle rt e : Obeys R (handle rt e).
Proof.
  destruct e; cbn [handle].
  - apply rejecting_connect.
  - apply rejecting_request.
  - unfold dispose, assign. repeat in_sequence; try still;
      auto using rejecting_stopPing, rejecting_rejectPendingRequests,
        rejecting_rejectQueuedRequests.
  - intros t. unfold onOpen.
    destruct (connectPromise t); [|apply (@rule_stays R _)].
    as_rule. unfold attachSocket, assign, emit.
    repeat in_sequence; try still;
      auto using rejecting_startPing, rejecting_flush, rejecting_settleConnect.
  - intros t. unfold onConnectFailure.
    destruct (connectPromise t); [|apply (@rule_stays R _)].
    as_rule. unfold emit. repeat in_sequence; try still;
      auto using rejecting_scheduleReconnect, rejecting_settleConnect.
  - intros t. destruct (bool_decide _); [|apply (@rule_stays R _)].
    revert t. unfold onMessage, clearRequestTimer, settleFromFrame. atom.
  - intros t. destruct (bool_decide _); [|apply (@rule_stays R _)].
    as_rule. unfold onClose, assign. repeat in_sequence; try still;
      auto using rejecting_stopPing, rejecting_rejectPendingRequests.
    intros t'. destruct (negb _);
      [apply rejecting_scheduleReconnect|apply (@rule_stays R _)].
  - apply (@Obeys_skip R _).
  - atom.
  - intros t. unfold onReconnectTimer.
    destruct (reconnectTimer t); [|apply (@rule_stays R _)].
    as_rule; in_sequence; [unfold assign; still|apply rejecting_connect].
  - unfold onPingTimer. atom.
  - unfold onRequestTimer. atom.
Qed.

End RejectPolicy.

(** What [request] does to a transport whose policy is to reject. *)
Lemma request_under_reject_policy rt v u b timeout t :
  disconnectedBehavior (options t) = reject ->
  let r := request rt v u b timeout t in
  queuedRequests (fst r) = queuedRequests t
  /\ connectPromise (fst r) = connectPromise t
  /\ socketsCreated (fst r) = socketsCreated t
  /\ attempted (snd r) = [nextRequestId t]
  /\ (connectedState t && socketIsOpen t = false ->
      snd r = [Reject (nextRequestId t) (plainError IsDisconnected)]
      /\ pendingRequests (fst r) = pendingRequests t).
Proof.
  intros Hp. cbv zeta. unfold request.
  set (t1 := set_nextRequestId (nextRequestId t + 1) t).
  change (connectedState t1) with (connectedState t).
  change (socketIsOpen t1) with (socketIsOpen t).
  change (options t1) with (options t). rewrite Hp.
  destruct (connectedState t && socketIsOpen t) eqn:Hopen.
  - unfold sendRequest. change (socket t1) with (socket t).
    destruct (socket t) as [w|]; [|cbn; repeat split; auto; discriminate].
    destruct (negb _); [cbn; repeat split; auto; discriminate|].
    destruct (ws_send w) as [[] w']; cbn; repeat split; auto; discriminate.
  - cbn. repeat split; auto.
Qed.

(** X4: a transport made with [disconnectedBehavior: "reject"] never
    buffers a call, whatever has happened to it before. Each call of
    [request()] is dealt with at once: written to the open channel, or
    rejected. It begins no connection attempt and creates no socket, and
    when the channel is not open the call is rejected with "WebSocket is
    disconnected" and leaves no trace but the identifier it used up. *)
Theorem reject_policy_never_buffers rt o es v u b timeout :
  opt_disconnectedBehavior o = Some reject ->
  let t := fst (run rt es (new o)) in
  let r := request rt v u b timeout t in
  queuedRequests t = []
  /\ queuedRequests (fst r) = []
  /\ connectPromise (fst r) = connectPromise t
  /\ socketsCreated (fst r) = socketsCreated t
  /\ attempted (snd r) = [nextRequestId t]
  /\ (connectedState t && socketIsOpen t = false ->
      snd r = [Reject (nextRequestId t) (plainError IsDisconnected)]
      /\ pendingRequests (fst r) = pendingRequests t).
Proof.
  intros Ho. cbv zeta.
  assert (H0 : buffersNothing (new o)).
  { unfold buffersNothing. cbn. now rewrite Ho. }
  destruct (@Obeys_run (keeping buffersNothing (fun _ => True)) _ rt es
              (proj2 (Forall_forall _ _) (fun e _ => rejecting_handle rt e))
              (new o) H0) as [[Hp Hq] _].
  destruct (request_under_reject_policy rt v u b timeout _ Hp)
    as (H1 & H2 & H3 & H4 & H5).
  rewrite Hq in H1. auto 10.
Qed.

Lemma reject_policy_never_buffers_witness :
  let t := fst (run nullRuntime lostAfterRetry (new rejecting)) in
  queuedRequests t = []
  /\ snd (request nullRuntime GET "/remote/info" JsUndefined None t)
     = [Reject 1 (plainError IsDisconnected)].
Proof.
  cbv zeta.
  destruct (reject_policy_never_buffers nullRuntime rejecting lostAfterRetry
              GET "/remote/info" JsUndefined None eq_refl)
    as (H1 & _ & _ & _ & _ & H6).
  split; [exact H1|]. exact (proj1 (H6 eq_refl)).
Defined.

(** ** With the heartbeat switched off *)

Section NoPing.

Let R := keeping pingDisabled noPing.

Local Ltac atom :=
  intros ? (Hoff & Htimer);
  pose proof (proj2 (Z.leb_le _ _) Hoff) as Hleb;
  unfold pingDisabled; cbn;
  do 3 (rewrite ?Hleb, ?Htimer; cbn);
  by_cases; cbn;
  (split; [auto|effects_ok]).

Local Ltac still := solve [atom].

Lemma unpinged_stopPing : Obeys R stopPing.
Proof. unfold stopPing. atom. Qed.

Lemma unpinged_startPing : Obeys R startPing.
Proof. unfold startPing, stopPing, andThen. atom. Qed.

Lemma unpinged_scheduleReconnect rt : Obeys R (scheduleReconnect rt).
Proof. unfold scheduleReconnect. atom. Qed.

Lemma unpinged_rejectPendingRequests m : Obeys R (rejectPendingRequests m).
Proof. unfold rejectPendingRequests. atom. Qed.

Lemma unpinged_rejectQueuedRequests m : Obeys R (rejectQueuedRequests m).
Proof. unfold rejectQueuedRequests. atom. Qed.

Lemma unpinged_sendRequest r : Obeys R (sendRequest r).
Proof. unfold sendRequest. atom. Qed.

Lemma unpinged_flush : Obeys R flushQueuedRequests.
Proof.
  intros t. unfold flushQueuedRequests.
  apply (@Obeys_flushLoop R _);
    [intros q; unfold assign; atom|apply unpinged_sendRequest].
Qed.

Lemma unpinged_runCatcher rt c : Obeys R (runCatcher rt c).
Proof.
  destruct c; cbn.
  - apply (@Obeys_skip R _).
  - intros t. destruct (negb _);
      [apply unpinged_rejectQueuedRequests|apply (@Obeys_skip R _)].
  - apply unpinged_scheduleReconnect.
Qed.

Lemma unpinged_connect rt c : Obeys R (connect rt c).
Proof.
  intros t. unfold connect. destruct (disposed t).
  - as_rule; in_sequence; [unfold emit; still|apply unpinged_runCatcher].
  - destruct (connectedState t); [revert t; atom|].
    destruct (connectPromise t); [revert t; atom|].
    destruct (WebSocket_throws rt _); [|revert t; atom].
    as_rule; in_sequence; [unfold emit; still|apply unpinged_runCatcher].
Qed.

Lemma unpinged_settleConnect rt a o : Obeys R (settleConnect rt a o).
Proof.
  unfold settleConnect, assign, emit. repeat in_sequence; try still.
  destruct o; [apply (@Obeys_skip R _)| |]; each_of; apply unpinged_runCatcher.
Qed.

Lemma unpinged_request rt v u b timeout : Obeys R (request rt v u b timeout).
Proof.
  intros t. unfold request.
  set (t1 := set_nextRequestId (nextRequestId t + 1) t).
  intros Ht. assert (Ht1 : pingDisabled t1) by exact Ht. clear Ht.
  destruct (connectedState t1 && socketIsOpen t1).
  - now apply unpinged_sendRequest.
  - destruct (disconnectedBehavior (options t1)); [|split; [exact Ht1|effects_ok]].
    destruct (_ >=? _); [split; [exact Ht1|effects_ok]|].
    apply (@Obeys_andThen R _ (assign _) (connect rt CatchOfRequest));
      [unfold assign; still|apply unpinged_connect|exact Ht1].
Qed.

Lemma unpinged_handle rt e : Obeys R (handle rt e).
Proof.
  destruct e; cbn [handle].
  - apply unpinged_connect.
  - apply unpinged_request.
  - unfold dispose, assign. repeat in_sequence; try still;
      auto using unpinged_stopPing, unpinged_rejectPendingRequests,
        unpinged_rejectQueuedRequests.
  - intros t. unfold onOpen.
    destruct (connectPromise t); [|apply (@rule_stays R _)].
    as_rule. unfold attachSocket, assign, emit.
    repeat in_sequence; try still;
      auto using unpinged_startPing, unpinged_flush, unpinged_settleConnect.
  - intros t. unfold onConnectFailure.
    destruct (connectPromise t); [|apply (@rule_stays R _)].
    as_rule. unfold emit. repeat in_sequence; try still;
      auto using unpinged_scheduleReconnect, unpinged_settleConnect.
  - intros t. destruct (bool_decide _); [|apply (@rule_stays R _)].
    revert t. unfold onMessage, clearRequestTimer, settleFromFrame. atom.
  - intros t. destruct (bool_decide _); [|apply (@rule_stays R _)].
    as_rule. unfold onClose, assign. repeat in_sequence; try still;
      auto using unpinged_stopPing, unpinged_rejectPendingRequests.
    intros t'. destruct (negb _);
      [apply unpinged_scheduleReconnect|apply (@rule_stays R _)].
  - apply (@Obeys_skip R _).
  - atom.
  - intros t. unfold onReconnectTimer.
    destruct (reconnectTimer t); [|apply (@rule_stays R _)].
    as_rule; in_sequence; [unfold assign; still|apply unpinged_connect].
  - unfold onPingTimer. atom.
  - unfold onRequestTimer. atom.
Qed.

End NoPing.

(** X6: a transport made with a [pingIntervalMs] of 0 or less has no
    heartbeat: whatever is called and whatever the network does, it arms
    no interval and writes no ping frame. *)
Theorem no_heartbeat_when_switched_off rt o es ms :
  opt_pingIntervalMs o = Some ms ->
  ms <= 0 ->
  let r := run rt es (new o) in
  pingTimer (fst r) = None /\ Forall noPing (snd r).
Proof.
  intros Ho Hms. cbv zeta.
  assert (H0 : pingDisabled (new o)).
  { unfold pingDisabled. cbn. now rewrite Ho. }
  destruct (@Obeys_run (keeping pingDisabled noPing) _ rt es
              (proj2 (Forall_forall _ _) (fun e _ => unpinged_handle rt e))
              (new o) H0) as [[_ Ht] He].
  now split.
Qed.

Lemma no_heartbeat_when_switched_off_witness :
  Forall noPing
    (snd (run nullRuntime
            [CallConnect; SocketOpened []; PingTimerFired; SocketClosed]
            (new withoutPing))).
Proof.
  apply (no_heartbeat_when_switched_off nullRuntime withoutPing
           [CallConnect; SocketOpened []; PingTimerFired; SocketClosed] 0
           eq_refl).
  lia.
Defined.

(** ** After disposal *)

Section Shut.

Variable idle : bool.

Let R := keeping (shutFor idle) noActivity.

Local Ltac atom :=
  intros ? [(Hdis & Hcon & Hsock & Hping & Htimer & Hpend) Hidle];
  unfold shutFor, shut; cbn;
  do 3 (rewrite ?Hdis, ?Hcon, ?Hsock, ?Hping, ?Htimer, ?Hpend, ?orb_true_r;
        cbn);
  by_cases; cbn;
  (split; [auto 10|effects_ok]).

Local Ltac still := solve [atom].

Lemma shut_stopPing : Obeys R stopPing.
Proof. unfold stopPing. atom. Qed.

Lemma shut_scheduleReconnect rt : Obeys R (scheduleReconnect rt).
Proof. unfold scheduleReconnect. atom. Qed.

Lemma shut_rejectPendingRequests m : Obeys R (rejectPendingRequests m).
Proof. unfold rejectPendingRequests. atom. Qed.

Lemma shut_rejectQueuedRequests m : Obeys R (rejectQueuedRequests m).
Proof. unfold rejectQueuedRequests. atom. Qed.

Lemma shut_runCatcher rt c : Obeys R (runCatcher rt c).
Proof.
  destruct c; cbn.
  - apply (@Obeys_skip R _).
  - intros t. destruct (negb _);
      [apply shut_rejectQueuedRequests|apply (@Obeys_skip R _)].
  - apply shut_scheduleReconnect.
Qed.

Lemma shut_connect rt c : Obeys R (connect rt c).
Proof.
  intros t. unfold connect. destruct (disposed t) eqn:Hd.
  - as_rule; in_sequence; [unfold emit; still|apply shut_runCatcher].
  - intros Ht. rewrite (proj1 (proj1 Ht)) in Hd. discriminate.
Qed.

Lemma shut_settleConnect rt a o : Obeys R (settleConnect rt a o).
Proof.
  unfold settleConnect, assign, emit. repeat in_sequence; try still.
  destruct o; [apply (@Obeys_skip R _)| |]; each_of; apply shut_runCatcher.
Qed.

Lemma shut_request rt v u b timeout : Obeys R (request rt v u b timeout).
Proof.
  intros t. unfold request.
  set (t1 := set_nextRequestId (nextRequestId t + 1) t).
  intros Ht. assert (Ht1 : shutFor idle t1) by exact Ht. clear Ht.
  rewrite (proj1 (proj2 (proj1 Ht1))). cbn [andb].
  destruct (disconnectedBehavior (options t1)); [|split; [exact Ht1|effects_ok]].
  destruct (_ >=? _); [split; [exact Ht1|effects_ok]|].
  apply (@Obeys_andThen R _ (assign _) (connect rt CatchOfRequest));
    [unfold assign; still|apply shut_connect|exact Ht1].
Qed.

Lemma shut_handle rt e :
  idle = true \/ notOpening e -> Obeys R (handle rt e).
Proof.
  intros He. destruct e; cbn [handle].
  - apply shut_connect.
  - apply shut_request.
  - unfold dispose, assign. repeat in_sequence; try still;
      auto using shut_stopPing, shut_rejectPendingRequests,
        shut_rejectQueuedRequests.
  - destruct He as [->|[]].
    intros t Ht. unfold onOpen. rewrite (proj2 Ht eq_refl).
    split; [exact Ht|constructor].
  - intros t. unfold onConnectFailure.
    destruct (connectPromise t); [|apply (@rule_stays R _)].
    as_rule. unfold emit. repeat in_sequence; try still;
      auto using shut_scheduleReconnect, shut_settleConnect.
  - atom.
  - atom.
  - apply (@Obeys_skip R _).
  - atom.
  - unfold onReconnectTimer. atom.
  - unfold onPingTimer. atom.
  - unfold onRequestTimer. atom.
Qed.

End Shut.

Lemma dispose_shuts t : shut (fst (dispose t)).
Proof. rewrite dispose_eq. unfold shut. cbn. auto 10. Qed.

(** X10: after [dispose()] the transport stays shut. Whatever is called
    on it and whatever events arrive, it creates no socket, writes no
    frame, arms no timer and resolves no call; it stays disposed and
    disconnected, with no socket, no timer and no call waiting for a
    frame. This holds when no connection attempt was in flight at the
    time of [dispose()], and also when one was, as long as its socket
    does not open. *)
Theorem disposed_transport_stays_shut rt t es :
  connectPromise t = None \/ Forall notOpening es ->
  let r := run rt es (fst (dispose t)) in
  shut (fst r) /\ Forall noActivity (snd r).
Proof.
  intros [Hidle|Hes]; cbv zeta.
  - assert (H0 : shutFor true (fst (dispose t))).
    { split; [apply dispose_shuts|]. intros _. now rewrite dispose_eq. }
    destruct (@Obeys_run (keeping (shutFor true) noActivity) _ rt es
                (proj2 (Forall_forall _ _)
                   (fun e _ => shut_handle true rt e (or_introl eq_refl)))
                _ H0) as [[Hs _] He].
    now split.
  - assert (H0 : shutFor false (fst (dispose t))).
    { split; [apply dispose_shuts|discriminate]. }
    assert (Hall : Forall (fun e => Obeys (keeping (shutFor false) noActivity)
                                      (handle rt e)) es).
    { eapply Forall_impl; [exact Hes|]. intros e He.
      apply shut_handle. now right. }
    destruct (@Obeys_run (keeping (shutFor false) noActivity) _ rt es Hall
                _ H0) as [[Hs _] He].
    now split.
Qed.

Lemma disposed_transport_stays_shut_witness :
  Forall noActivity
    (snd (run nullRuntime afterDisposal (fst (dispose threeSent)))).
Proof.
  apply (disposed_transport_stays_shut nullRuntime threeSent afterDisposal).
  left. reflexivity.
Defined.

(** ** A call made after disposal *)

Section Stranded.

Variable id : Z.

Let R := keeping (strands id) (leavesUnsettled id).

Local Ltac atom :=
  intros ? ([(Hdis & Hcon & Hsock & Hping & Htimer & Hpend) Hidle]
            & Hauto & Hpolicy & Hlt & Hin);
  specialize (Hidle eq_refl);
  unfold strands, shutFor, shut, queuedIds; cbn;
  by_cases_with
    ltac:(rewrite ?Hdis, ?Hcon, ?Hsock, ?Hping, ?Htimer, ?Hpend, ?Hidle,
            ?Hauto, ?Hpolicy, ?orb_true_r);
  (split; [auto 15|effects_ok; try discriminate]).

Local Ltac still := solve [atom].

Lemma stranded_connect rt c : Obeys R (connect rt c).
Proof. unfold connect, andThen, emit, runCatcher, skip, scheduleReconnect. atom. Qed.

Lemma stranded_request rt v u b timeout : Obeys R (request rt v u b timeout).
Proof.
  intros t Ht.
  pose proof Ht as ([(Hdis & Hcon & Hsock & Hping & Htimer & Hpend) Hidle]
                    & Hauto & Hpolicy & Hlt & Hin).
  unfold request.
  set (t1 := set_nextRequestId (nextRequestId t + 1) t).
  change (connectedState t1) with (connectedState t).
  change (options t1) with (options t).
  rewrite Hcon, Hpolicy. cbn [andb].
  assert (Ht1 : strands id t1).
  { unfold strands, shutFor, shut, queuedIds in *. cbn. repeat split; auto. lia. }
  destruct (_ >=? _).
  - split; [exact Ht1|]. repeat constructor.
    unfold leavesUnsettled. cbn. intros [= E]. lia.
  - apply (@Obeys_andThen R _ (assign _) (connect rt CatchOfRequest));
      [|apply stranded_connect|exact Ht1].
    intros t' ([Hs Hi] & Ha & Hp & Hl & Hq).
    split; [|constructor].
    unfold strands, shutFor, shut, queuedIds in *. cbn.
    repeat split; try tauto.
    rewrite List.map_app. apply elem_of_app. now left.
Qed.

Lemma stranded_handle rt e : e <> CallDispose -> Obeys R (handle rt e).
Proof.
  intros He. destruct e; cbn [handle]; try contradiction.
  - apply stranded_connect.
  - apply stranded_request.
  - unfold onOpen. atom.
  - unfold onConnectFailure. atom.
  - atom.
  - atom.
  - apply (@Obeys_skip R _).
  - atom.
  - unfold onReconnectTimer. atom.
  - unfold onPingTimer. atom.
  - unfold onRequestTimer. atom.
Qed.

End Stranded.

(** X9: a call made on a disposed transport is not rejected. With the
    default policy (buffer while disconnected, auto-reconnect on), room
    in the buffer and no connection attempt in flight at [dispose()],
    [request()] puts the call in the buffer, and the [connect()] it
    triggers is refused; after that, whatever is called and whatever
    events arrive, short of a second [dispose()], the call is never
    settled and stays in the buffer. *)
Theorem request_after_dispose_is_stranded rt t v u b timeout es :
  connectPromise t = None ->
  autoReconnect (options t) = true ->
  disconnectedBehavior (options t) = queue ->
  0 < maxQueueSize (options t) ->
  Forall (fun e => e <> CallDispose) es ->
  let d := fst (dispose t) in
  let id := nextRequestId d in
  let r := run rt (CallRequest v u b timeout :: es) d in
  snd (request rt v u b timeout d)
    = [ConnectSettled (Rejected (plainError CannotConnectDisposed))]
  /\ (id ∉ settled (snd r))
  /\ (id ∈ queuedIds (fst r)).
Proof.
  intros Hidle Hauto Hpolicy Hroom Hes. cbv zeta.
  set (d := fst (dispose t)).
  assert (Hd : shut d) by apply dispose_shuts.
  assert (Hq : queuedRequests d = []) by (unfold d; now rewrite dispose_eq).
  assert (Hp : connectPromise d = None) by (unfold d; now rewrite dispose_eq).
  assert (Ho : options d = options t) by (unfold d; now rewrite dispose_eq).
  pose proof Hd as (Hdis & Hcon & _).
  assert (Hreq : request rt v u b timeout d
                 = (set_queuedRequests
                      [outboundOf d v u b timeout]
                      (set_nextRequestId (nextRequestId d + 1) d),
                    [ConnectSettled (Rejected (plainError CannotConnectDisposed))])).
  { rewrite <- Ho in Hauto, Hpolicy, Hroom.
    unfold request, connect, andThen, assign, emit, runCatcher. cbn.
    rewrite Hcon, Hpolicy, Hq, Hdis, Hauto. cbn.
    change (Z.of_nat 0) with 0.
    destruct (0 >=? maxQueueSize (options d)) eqn:E; [lia|]. reflexivity. }
  split; [now rewrite Hreq|].
  rewrite run_cons, andThen_fst, andThen_snd. cbn [handle].
  rewrite Hreq. cbn [fst snd].
  set (d1 := set_queuedRequests _ _).
  assert (H1 : strands (nextRequestId d) d1).
  { destruct Hd as (? & ? & ? & ? & ? & ?).
    unfold strands, shutFor, shut, queuedIds, d1. cbn.
    repeat split; try tauto; try congruence; try lia.
    now apply list_elem_of_singleton. }
  assert (Hall : Forall (fun e => Obeys (keeping (strands (nextRequestId d))
                                           (leavesUnsettled (nextRequestId d)))
                                    (handle rt e)) es).
  { eapply Forall_impl; [exact Hes|]. intros e He. now apply stranded_handle. }
  destruct (@Obeys_run _ _ rt es Hall d1 H1) as [(_ & _ & _ & _ & Hin) Heff].
  split; [|exact Hin].
  unfold settled. rewrite list_elem_of_omap. intros (e & He & Hse).
  rewrite Forall_forall in Heff.
  apply elem_of_cons in He as [->|He]; [discriminate|].
  now apply (Heff e He).
Qed.

Lemma request_after_dispose_is_stranded_witness :
  let d := fst (dispose (new no_options)) in
  1 ∉ settled
        (snd (run nullRuntime
                (CallRequest GET "/a" JsUndefined None :: afterDisposalNoDispose)
                d)).
Proof.
  cbv zeta.
  refine (proj1 (proj2 (request_after_dispose_is_stranded nullRuntime
                          (new no_options) GET "/a" JsUndefined None
                          afterDisposalNoDispose eq_refl eq_refl eq_refl _ _))).
  - reflexivity.
  - repeat constructor; discriminate.
Defined.

(** ** The heartbeat goes with the connection *)

Section Heartbeat.

Let R := keeping heartbeat (fun _ => True).

Local Ltac atom :=
  let t := fresh "t" in
  intros t [Hsock Hping];
  unfold heartbeat; cbn;
  destruct (connectedState t) eqn:Hc;
  destruct (pingIntervalMs (options t) <=? 0) eqn:Hi;
  cbn in Hping;
  by_cases_with ltac:(rewrite ?Hping, ?Hc, ?Hi);
  (split;
   [split;
    [intros H'; try discriminate H';
     first [now eexists | apply Hsock; reflexivity
           | match goal with
             | H : socket _ = Some _ |- _ => rewrite H; now eexists
             end
           | destruct (Hsock eq_refl) as [? Hx]; congruence]
    |try reflexivity; try congruence]
   |effects_ok]).

Local Ltac still := solve [atom].

Lemma beat_scheduleReconnect rt : Obeys R (scheduleReconnect rt).
Proof. unfold scheduleReconnect. atom. Qed.

Lemma beat_rejectPendingRequests m : Obeys R (rejectPendingRequests m).
Proof. unfold rejectPendingRequests. atom. Qed.

Lemma beat_rejectQueuedRequests m : Obeys R (rejectQueuedRequests m).
Proof. unfold rejectQueuedRequests. atom. Qed.

Lemma beat_sendRequest r : Obeys R (sendRequest r).
Proof. unfold sendRequest. atom. Qed.

Lemma beat_flush : Obeys R flushQueuedRequests.
Proof.
  intros t. unfold flushQueuedRequests.
  apply (@Obeys_flushLoop R _);
    [intros q; unfold assign; atom|apply beat_sendRequest].
Qed.

Lemma beat_runCatcher rt c : Obeys R (runCatcher rt c).
Proof.
  destruct c; cbn.
  - apply (@Obeys_skip R _).
  - intros t. destruct (negb _);
      [apply beat_rejectQueuedRequests|apply (@Obeys_skip R _)].
  - apply beat_scheduleReconnect.
Qed.

Lemma beat_connect rt c : Obeys R (connect rt c).
Proof.
  unfold connect, andThen, emit, runCatcher, skip, scheduleReconnect,
    rejectQueuedRequests.
  atom.
Qed.

Lemma beat_settleConnect rt a o : Obeys R (settleConnect rt a o).
Proof.
  unfold settleConnect, assign, emit. repeat in_sequence; try still.
  destruct o; [apply (@Obeys_skip R _)| |]; each_of; apply beat_runCatcher.
Qed.

Lemma beat_request rt v u b timeout : Obeys R (request rt v u b timeout).
Proof.
  intros t. unfold request.
  set (t1 := set_nextRequestId (nextRequestId t + 1) t).
  intros Ht. assert (Ht1 : heartbeat t1) by exact Ht. clear Ht.
  destruct (connectedState t1 && socketIsOpen t1).
  - now apply beat_sendRequest.
  - destruct (disconnectedBehavior (options t1)); [|split; [exact Ht1|effects_ok]].
    destruct (_ >=? _); [split; [exact Ht1|effects_ok]|].
    apply (@Obeys_andThen R _ (assign _) (connect rt CatchOfRequest));
      [unfold assign; still|apply beat_connect|exact Ht1].
Qed.

Lemma beat_handle rt e : Obeys R (handle rt e).
Proof.
  destruct e; cbn [handle].
  - apply beat_connect.
  - apply beat_request.
  - unfold dispose, andThen, assign, stopPing, rejectPendingRequests,
      rejectQueuedRequests. atom.
  - intros t. unfold onOpen.
    destruct (connectPromise t); [|apply (@rule_stays R _)].
    as_rule. in_sequence; [in_sequence|apply beat_settleConnect];
      [|apply beat_flush].
    unfold startPing, andThen, emit, attachSocket, assign, stopPing. atom.
  - intros t. unfold onConnectFailure.
    destruct (connectPromise t); [|apply (@rule_stays R _)].
    as_rule. unfold emit. repeat in_sequence; try still;
      auto using beat_scheduleReconnect, beat_settleConnect.
  - intros t. destruct (bool_decide _); [|apply (@rule_stays R _)].
    revert t. unfold onMessage, clearRequestTimer, settleFromFrame. atom.
  - intros t. destruct (bool_decide _); [|apply (@rule_stays R _)].
    revert t.
    unfold onClose, andThen, assign, stopPing, rejectPendingRequests,
      scheduleReconnect. atom.
  - apply (@Obeys_skip R _).
  - atom.
  - intros t. unfold onReconnectTimer.
    destruct (reconnectTimer t); [|apply (@rule_stays R _)].
    as_rule; in_sequence; [unfold assign; still|apply beat_connect].
  - unfold onPingTimer. atom.
  - unfold onRequestTimer. atom.
Qed.

End Heartbeat.

Lemma heartbeat_new o : heartbeat (new o).
Proof. split; [discriminate|reflexivity]. Qed.

(** X5: in every run of tasks from a new transport, the heartbeat goes
    with the connection. The ping interval is armed exactly while the
    transport is connected and [pingIntervalMs] is above 0, and it is
    armed with [pingIntervalMs]; a transport that is connected has a
    socket attached. Opening arms it, and closing and [dispose()] clear
    it. *)
Theorem heartbeat_goes_with_connection rt o es :
  let t := fst (run rt es (new o)) in
  (is_Some (pingTimer t)
   <-> connectedState t = true /\ 0 < pingIntervalMs (options t))
  /\ (forall ms, pingTimer t = Some ms -> ms = pingIntervalMs (options t))
  /\ (connectedState t = true -> is_Some (socket t)).
Proof.
  cbv zeta.
  destruct (@Obeys_run (keeping heartbeat (fun _ => True)) _ rt es
              (proj2 (Forall_forall _ _) (fun e _ => beat_handle rt e))
              (new o) (heartbeat_new o)) as [[Hsock Hping] _].
  set (t := fst (run rt es (new o))) in *.
  rewrite Hping.
  destruct (connectedState t); cbn.
  - destruct (pingIntervalMs (options t) <=? 0) eqn:Hi; cbn.
    + apply Z.leb_le in Hi. split; [split|split].
      * intros [? ?]; discriminate.
      * intros [_ ?]. lia.
      * discriminate.
      * auto.
    + apply Z.leb_gt in Hi. split; [split|split].
      * intros _. split; [reflexivity|lia].
      * intros _. now eexists.
      * congruence.
      * auto.
  - split; [split|split].
    + intros [? ?]; discriminate.
    + intros [? _]; discriminate.
    + discriminate.
    + discriminate.
Qed.

(** ** A call on an open channel *)

Lemma asInteger_inject_Z z : asInteger (inject_Z z) = Some z.
Proof.
  unfold asInteger. rewrite Qfloor_Z.
  now rewrite (proj2 (Qeq_bool_iff _ _) (Qeq_refl _)).
Qed.

Lemma JsMap_get_snoc {V} k (v : V) (m : JsMap.t V) :
  k ∉ JsMap.keys m -> JsMap.get k (m ++ [(k, v)]) = Some v.
Proof.
  unfold JsMap.keys, JsMap.get. induction m as [|[k' v'] m IH]; cbn.
  - intros _. now rewrite Z.eqb_refl.
  - intros Hk. apply not_elem_of_cons in Hk as [Hne Hk].
    destruct (Z.eqb_spec k' k) as [->|_]; [contradiction|]. now apply IH.
Qed.

Lemma JsMap_delete_snoc {V} k (v : V) (m : JsMap.t V) :
  k ∉ JsMap.keys m -> JsMap.delete k (m ++ [(k, v)]) = m.
Proof.
  intros Hk. unfold JsMap.delete. rewrite List.filter_app. cbn.
  rewrite Z.eqb_refl. cbn. rewrite app_nil_r.
  now apply JsMap_delete_absent.
Qed.

(** The identifier that [request] draws next is the key of no pending
    call. *)
Lemma next_identifier_fresh t :
  wellFormed t -> nextRequestId t ∉ JsMap.keys (pendingRequests t).
Proof.
  intros (_ & Hlt & Hk). rewrite JsMap_keys_keyed by exact Hk.
  intros Hin. rewrite Forall_forall in Hlt.
  specialize (Hlt (nextRequestId t)).
  unfold live, pendingIds in Hlt.
  assert (nextRequestId t < nextRequestId t); [|lia].
  apply Hlt, elem_of_app. now left.
Qed.

(** [request] on a connected transport whose socket is open and takes the
    frame: the frame is written, the timeout is armed and the call is
    filed as pending, all within the call of [request]. *)
Lemma request_on_open_channel rt t w v u b timeout :
  wellFormed t ->
  connectedState t = true ->
  socket t = Some w ->
  readyState w = OPEN ->
  fst (ws_send w) = false ->
  let id := nextRequestId t in
  let ms := default (requestTimeoutMs (options t)) timeout in
  let entry :=
    {| requestId := id; verb := v; target := u; body := b;
       timeoutMs := ms; timer := Some ms |} in
  request rt v u b timeout t
    = (set_pendingRequests (pendingRequests t ++ [(id, entry)])
         (set_socket (Some (snd (ws_send w)))
            (set_nextRequestId (id + 1) t)),
       [Send (ws_id w)
          (HttpFrame
             {| RequestId := id; Url := u; Verb := v;
                Body := match b with
                        | JsUndefined => None
                        | _ => Some b
                        end |});
        SetTimeout (RequestTimer id) ms]).
Proof.
  intros Hwf Hcon Hsock Hopen Hsend. cbv zeta.
  unfold request, socketIsOpen, sendRequest. cbn.
  rewrite Hcon, Hsock, Hopen. cbn.
  destruct (ws_send w) as [threw w'] eqn:E. cbn in Hsend. subst threw. cbn.
  rewrite JsMap_set_fresh by now apply next_identifier_fresh.
  unfold with_timer, envelopeOf. cbn. now destruct b.
Qed.

(** X2: a call on an open channel and its answer. When the transport is
    connected and the socket is open and takes the frame, [request()]
    writes the envelope (identifier, URL, verb, and the body unless it is
    [undefined]) and arms the timeout at once; the frame that then
    carries this identifier with a status code of success clears the
    timeout and resolves the call with the frame's [ResponseBody]. The
    pending map and the buffer are afterwards as they were before the
    call. *)
Theorem call_answered_on_open_channel
  rt t w v u b timeout data payload idValue code :
  wellFormed t ->
  connectedState t = true ->
  socket t = Some w ->
  readyState w = OPEN ->
  fst (ws_send w) = false ->
  readPayload rt data = Some payload ->
  getProperty payload "RequestId" = Some idValue ->
  numberOf rt idValue = Finite (inject_Z (nextRequestId t)) ->
  numberOf rt (default JsUndefined (getProperty payload "ResponseCode"))
    = Finite code ->
  isSuccess code ->
  let id := nextRequestId t in
  let ms := default (requestTimeoutMs (options t)) timeout in
  let r := run rt [CallRequest v u b timeout; SocketMessage data] t in
  snd r
    = [Send (ws_id w)
         (HttpFrame
            {| RequestId := id; Url := u; Verb := v;
               Body := match b with
                       | JsUndefined => None
                       | _ => Some b
                       end |});
       SetTimeout (RequestTimer id) ms;
       ClearTimeout (RequestTimer id);
       Resolve id (default JsUndefined (getProperty payload "ResponseBody"))]
  /\ pendingRequests (fst r) = pendingRequests t
  /\ queuedRequests (fst r) = queuedRequests t
  /\ nextRequestId (fst r) = id + 1.
Proof.
  intros Hwf Hcon Hsock Hopen Hsend Hp Hid Hn Hcode Hok. cbv zeta.
  pose proof (next_identifier_fresh t Hwf) as Hfresh.
  rewrite !run_cons, !andThen_fst, !andThen_snd, !run_nil. cbn [handle fst snd].
  rewrite (request_on_open_channel rt t w v u b timeout Hwf Hcon Hsock Hopen Hsend).
  cbn [fst snd socket set_pendingRequests set_socket].
  rewrite bool_decide_eq_true_2 by now eexists.
  unfold onMessage. rewrite Hp, Hid, Hn.
  cbn [pendingRequests set_pendingRequests].
  unfold JsMap.getNumber, JsMap.deleteNumber. rewrite asInteger_inject_Z.
  rewrite JsMap_get_snoc, JsMap_delete_snoc by exact Hfresh.
  rewrite Hcode, settleFromFrame_success by exact Hok.
  cbn. rewrite ?app_nil_r. auto.
Qed.

Lemma call_answered_on_open_channel_witness :
  snd (run (fixedRuntime (frameOf 1 200 (JsString "ok")))
         [CallRequest PUT "/remote/object/call" JsNull (Some 50);
          SocketMessage (TextData "{}")] connected)
    = [Send 0%nat
         (HttpFrame
            {| RequestId := 1; Url := "/remote/object/call"; Verb := PUT;
               Body := Some JsNull |});
       SetTimeout (RequestTimer 1) 50;
       ClearTimeout (RequestTimer 1);
       Resolve 1 (JsString "ok")].
Proof.
  refine (proj1 (call_answered_on_open_channel
                   (fixedRuntime (frameOf 1 200 (JsString "ok"))) connected
                   {| ws_id := 0; readyState := OPEN; ws_future := [] |}
                   PUT "/remote/object/call" JsNull (Some 50) (TextData "{}")
                   (frameOf 1 200 (JsString "ok"))
                   (JsNum (Finite (inject_Z 1))) (inject_Z 200)
                   _ eq_refl eq_refl eq_refl eq_refl eq_refl eq_refl eq_refl
                   _ _)).
  - repeat split; constructor.
  - vm_compute. reflexivity.
  - apply isSuccess_integer. lia.
Defined.

(** X3: a call on an open channel that is not answered in time. When the
    timeout of the pending call fires, the call is taken out of the
    pending map and rejected with "WebSocket request timed out after
    ...ms", the delay being the call's [timeoutMs] option or else the
    transport's [requestTimeoutMs]; the pending map is then as it was
    before the call, and a frame that carries the identifier afterwards
    is dropped without any effect. *)
Theorem call_times_out rt t w v u b timeout data payload idValue :
  wellFormed t ->
  connectedState t = true ->
  socket t = Some w ->
  readyState w = OPEN ->
  fst (ws_send w) = false ->
  readPayload rt data = Some payload ->
  getProperty payload "RequestId" = Some idValue ->
  numberOf rt idValue = Finite (inject_Z (nextRequestId t)) ->
  let id := nextRequestId t in
  let ms := default (requestTimeoutMs (options t)) timeout in
  let r := run rt [CallRequest v u b timeout; RequestTimerFired id] t in
  rejections (snd r) = [(id, plainError (RequestTimedOut ms))]
  /\ settled (snd r) = [id]
  /\ pendingRequests (fst r) = pendingRequests t
  /\ handle rt (SocketMessage data) (fst r) = (fst r, []).
Proof.
  intros Hwf Hcon Hsock Hopen Hsend Hp Hid Hn. cbv zeta.
  pose proof (next_identifier_fresh t Hwf) as Hfresh.
  rewrite !run_cons, !andThen_fst, !andThen_snd, !run_nil. cbn [handle fst snd].
  rewrite (request_on_open_channel rt t w v u b timeout Hwf Hcon Hsock Hopen Hsend).
  cbn [fst snd].
  unfold onRequestTimer. cbn [pendingRequests set_pendingRequests].
  rewrite JsMap_get_snoc by exact Hfresh.
  cbn [requestId timeoutMs fst snd].
  rewrite JsMap_delete_snoc by exact Hfresh.
  cbn.
  repeat split.
  unfold onMessage. rewrite Hp, Hid, Hn. cbn.
  unfold JsMap.getNumber. rewrite asInteger_inject_Z.
  destruct (JsMap.get (nextRequestId t) (pendingRequests t)) eqn:Hget;
    [|reflexivity].
  exfalso. apply Hfresh. unfold JsMap.get in Hget.
  destruct (List.find _ _) as [[k x]|] eqn:Hfind; [|discriminate].
  apply List.find_some in Hfind as [Hin Hk]. cbn in Hk.
  apply Z.eqb_eq in Hk. subst k.
  unfold JsMap.keys. apply list_elem_of_In, List.in_map_iff.
  exists (nextRequestId t, x). auto.
Qed.

Lemma call_times_out_witness :
  rejections
    (snd (run (fixedRuntime (frameOf 1 200 JsNull))
            [CallRequest GET "/remote/info" JsUndefined None;
             RequestTimerFired 1] connected))
    = [(1, plainError (RequestTimedOut 15000))].
Proof.
  refine (proj1 (call_times_out
                   (fixedRuntime (frameOf 1 200 JsNull)) connected
                   {| ws_id := 0; readyState := OPEN; ws_future := [] |}
                   GET "/remote/info" JsUndefined None (TextData "{}")
                   (frameOf 1 200 JsNull) (JsNum (Finite (inject_Z 1)))
                   _ eq_refl eq_refl eq_refl eq_refl eq_refl eq_refl eq_refl)).
  repeat split; constructor.
Defined.

(** ** A failed attempt with auto-reconnect off *)

(** With auto-reconnect off, the handlers on a rejected connect promise
    empty the buffer once, when one of them is the handler of
    [request]. *)
Lemma catchers_reject_buffered rt cs : forall t,
  autoReconnect (options t) = false ->
  runAll (runCatcher rt) cs t
    = if existsb isCatchOfRequest cs
      then (set_queuedRequests [] t,
            rejectQueuedLoop DisconnectedNoAutoReconnect (queuedRequests t))
      else (t, []).
Proof.
  induction cs as [|c cs IH]; intros t Hauto; [reflexivity|].
  rewrite runAll_cons. unfold andThen.
  destruct c; cbn [runCatcher existsb isCatchOfRequest orb].
  - unfold skip. rewrite IH by exact Hauto. now destruct (existsb _ cs).
  - rewrite Hauto. cbn [negb]. unfold rejectQueuedRequests.
    rewrite IH by exact Hauto.
    destruct (existsb _ cs); cbn; now rewrite app_nil_r.
  - unfold scheduleReconnect. rewrite Hauto. cbn [negb orb].
    rewrite IH by exact Hauto. now destruct (existsb _ cs).
Qed.

Lemma rejections_of_loop msg q :
  rejections (rejectQueuedLoop msg q)
    = List.map (fun r => (requestId r, plainError msg)) q.
Proof. induction q as [|r q IH]; cbn; [reflexivity|]. now f_equal. Qed.

(** A failed attempt on a transport whose auto-reconnect is off. *)
Lemma onConnectFailure_without_reconnect rt f t a :
  connectPromise t = Some a ->
  autoReconnect (options t) = false ->
  existsb isCatchOfRequest (attempt_catchers a) = true ->
  exists es,
    onConnectFailure rt f t
      = (set_queuedRequests [] (set_connectPromise None t),
         es ++ rejectQueuedLoop DisconnectedNoAutoReconnect (queuedRequests t))
    /\ rejections es = [] /\ reconnectDelays es = [].
Proof.
  intros Ha Hauto Hcatch.
  exists (ClearTimeout (ConnectTimer (ws_id (attempt_socket a)))
          :: match f with
             | ClosedBeforeOpen => []
             | _ => [Close (ws_id (attempt_socket a)) None]
             end
          ++ [ConnectSettled (Rejected (plainError (failureMessage f)))]).
  unfold onConnectFailure. rewrite Ha.
  destruct f;
    unfold andThen, emit, skip, scheduleReconnect, settleConnect, assign;
    cbn -[runAll]; rewrite Hauto; cbn -[runAll];
    (rewrite catchers_reject_buffered by exact Hauto);
    rewrite Hcatch; cbn; auto.
Qed.

(** X8: with [autoReconnect: false], a connection attempt that fails
    takes the buffered calls with it. A call of [request()] on a
    transport that is not connected is buffered and begins an attempt (or
    joins the one in flight); when that attempt fails, whichever way, every
    buffered call, the new one last, is rejected with "WebSocket is
    disconnected and auto-reconnect is disabled", the buffer is empty, and
    no reconnect is scheduled. *)
Theorem failed_attempt_rejects_buffered_calls rt t v u b timeout f :
  autoReconnect (options t) = false ->
  disconnectedBehavior (options t) = queue ->
  disposed t = false ->
  connectedState t = false ->
  Z.of_nat (length (queuedRequests t)) < maxQueueSize (options t) ->
  let r := run rt [CallRequest v u b timeout; ConnectFailed f] t in
  rejections (snd r)
    = List.map (fun id => (id, plainError DisconnectedNoAutoReconnect))
        (queuedIds t ++ [nextRequestId t])
  /\ queuedRequests (fst r) = []
  /\ connectPromise (fst r) = None
  /\ reconnectDelays (snd r) = [].
Proof.
  intros Hauto Hpolicy Hdis Hcon Hroom. cbv zeta.
  rewrite !run_cons, !andThen_fst, !andThen_snd, !run_nil.
  cbn [handle fst snd].
  destruct (connectFailsAtOnce rt t) eqn:Hfail.
  - (* the constructor refuses the URL: the handler of [request] rejects
       the buffer at once, and no attempt is left to fail *)
    assert (Hopen : connectedState t && socketIsOpen t = false)
      by now rewrite Hcon.
    destruct (request_while_closed rt t v u b timeout Hopen Hpolicy Hroom)
      as (_ & _ & _ & Hq).
    cbv zeta in Hq. rewrite Hfail, Hauto in Hq. destruct Hq as [Hq Hrej].
    assert (Hnone : connectPromise (fst (request rt v u b timeout t)) = None
                    /\ reconnectDelays (snd (request rt v u b timeout t)) = []).
    { unfold connectFailsAtOnce in Hfail. rewrite Hdis, Hcon in Hfail.
      cbn in Hfail. apply andb_prop in Hfail as [Hp Hw].
      apply negb_true_iff, bool_decide_eq_false in Hp.
      destruct (connectPromise t) as [a|] eqn:Ha; [destruct Hp; eauto|].
      unfold request, connect, andThen, assign, emit, runCatcher,
        rejectQueuedRequests.
      cbn. rewrite Hcon, Hpolicy, Hdis, Ha, Hw, Hauto. cbn.
      destruct (_ >=? _) eqn:E; [lia|]. cbn. rewrite Ha. split; [reflexivity|].
      apply omap_nothing, Forall_rejectQueuedLoop. reflexivity. }
    destruct Hnone as [Hp Hd].
    unfold onConnectFailure. rewrite Hp. cbn [fst snd].
    rewrite app_nil_r. auto.
  - assert (Hreq : exists a t1 es,
      request rt v u b timeout t = (t1, es)
      /\ connectPromise t1 = Some a
      /\ options t1 = options t
      /\ queuedRequests t1 = queuedRequests t ++ [outboundOf t v u b timeout]
      /\ existsb isCatchOfRequest (attempt_catchers a) = true
      /\ rejections es = [] /\ reconnectDelays es = []).
    { unfold connectFailsAtOnce in Hfail. rewrite Hdis, Hcon in Hfail.
      cbn in Hfail.
      unfold request, connect, andThen, assign. cbn.
      rewrite Hcon, Hpolicy, Hdis. cbn.
      destruct (_ >=? _) eqn:E; [lia|].
      destruct (connectPromise t) as [a|]; cbn.
      - eexists _, _, _. split; [reflexivity|]. split; [reflexivity|]. cbn.
        rewrite existsb_app. cbn. rewrite orb_true_r. auto 10.
      - rewrite bool_decide_eq_false_2 in Hfail by (intros [? ?]; discriminate).
        cbn in Hfail. rewrite Hfail.
        eexists _, _, _. split; [reflexivity|]. split; [reflexivity|].
        cbn. auto 10. }
    destruct Hreq as (a & t1 & es & -> & Ha & Ho & Hq & Hcatch & Hrej & Hdel).
    cbn [fst snd]. rewrite <- Ho in Hauto.
    destruct (onConnectFailure_without_reconnect rt f t1 a Ha Hauto Hcatch)
      as (es' & -> & Hrej' & Hdel').
    cbn [fst snd queuedRequests set_queuedRequests connectPromise
           set_connectPromise].
    unfold rejections, reconnectDelays in *.
    rewrite !omap_app, Hrej, Hdel, Hrej', Hdel'. cbn [app].
    fold (rejections (rejectQueuedLoop DisconnectedNoAutoReconnect
                        (queuedRequests t1))).
    rewrite rejections_of_loop, Hq, app_nil_r.
    repeat split.
    + unfold queuedIds. rewrite !List.map_app, List.map_map. reflexivity.
    + cbn. rewrite app_nil_r.
      apply omap_nothing, Forall_rejectQueuedLoop. reflexivity.
Qed.

Lemma failed_attempt_rejects_buffered_calls_witness :
  rejections
    (snd (run nullRuntime
            [CallRequest GET "/remote/info" JsUndefined None;
             ConnectFailed ErrorBeforeOpen] (new withoutReconnect)))
    = [(1, plainError DisconnectedNoAutoReconnect)].
Proof.
  refine (proj1 (failed_attempt_rejects_buffered_calls nullRuntime
                   (new withoutReconnect) GET "/remote/info" JsUndefined None
                   ErrorBeforeOpen eq_refl eq_refl eq_refl eq_refl _)).
  reflexivity.
Defined.

(** ** The timers of the pending calls, and the loss of the channel *)

Lemma values_set {V} (P : V -> Prop) k v (m : JsMap.t V) :
  Forall P (JsMap.values m) -> P v -> Forall P (JsMap.values (JsMap.set k v m)).
Proof.
  unfold JsMap.values. intros Hm Hv.
  induction m as [|[k' v'] m IH]; cbn.
  - now constructor.
  - inversion Hm as [|? ? Hv' Hm']; subst.
    destruct (Z.eqb k' k); cbn; constructor; auto.
Qed.

Lemma values_delete {V} (P : V -> Prop) k (m : JsMap.t V) :
  Forall P (JsMap.values m) -> Forall P (JsMap.values (JsMap.delete k m)).
Proof.
  unfold JsMap.values, JsMap.delete. intros Hm.
  induction m as [|[k' v'] m IH]; cbn; [constructor|].
  inversion Hm as [|? ? Hv' Hm']; subst.
  destruct (negb (Z.eqb k' k)); cbn; auto.
Qed.

Lemma Forall_anyEffect es : Forall anyEffect es.
Proof. apply Forall_forall. intros e _. exact I. Qed.

Section Timers.

Let R := keeping timersArmed anyEffect.

Local Ltac atom :=
  intros ? Ht; cbn; by_cases; cbn;
  (split; [first [exact Ht | constructor]|apply Forall_anyEffect]).

Local Ltac still := solve [atom].

Lemma armed_stopPing : Obeys R stopPing.
Proof. unfold stopPing. atom. Qed.

Lemma armed_startPing : Obeys R startPing.
Proof. unfold startPing, stopPing, andThen. atom. Qed.

Lemma armed_scheduleReconnect rt : Obeys R (scheduleReconnect rt).
Proof. unfold scheduleReconnect. atom. Qed.

Lemma armed_rejectPendingRequests m : Obeys R (rejectPendingRequests m).
Proof. unfold rejectPendingRequests. atom. Qed.

Lemma armed_rejectQueuedRequests m : Obeys R (rejectQueuedRequests m).
Proof. unfold rejectQueuedRequests. atom. Qed.

Lemma armed_sendRequest r : Obeys R (sendRequest r).
Proof.
  intros t Ht. split; [|apply Forall_anyEffect].
  unfold sendRequest. destruct (socket t) as [w|]; [|exact Ht].
  destruct (negb _); [exact Ht|].
  destruct (ws_send w) as [threw w']. destruct threw; [exact Ht|].
  unfold timersArmed. cbn. now apply values_set.
Qed.

Lemma armed_flush : Obeys R flushQueuedRequests.
Proof.
  intros t. unfold flushQueuedRequests.
  apply (@Obeys_flushLoop R _);
    [intros q; unfold assign; atom|apply armed_sendRequest].
Qed.

Lemma armed_runCatcher rt c : Obeys R (runCatcher rt c).
Proof.
  destruct c; cbn.
  - apply (@Obeys_skip R _).
  - intros t. destruct (negb _);
      [apply armed_rejectQueuedRequests|apply (@Obeys_skip R _)].
  - apply armed_scheduleReconnect.
Qed.

Lemma armed_connect rt c : Obeys R (connect rt c).
Proof.
  intros t. unfold connect. destruct (disposed t).
  - as_rule; in_sequence; [unfold emit; still|apply armed_runCatcher].
  - destruct (connectedState t); [revert t; atom|].
    destruct (connectPromise t); [revert t; atom|].
    destruct (WebSocket_throws rt _); [|revert t; atom].
    as_rule; in_sequence; [unfold emit; still|apply armed_runCatcher].
Qed.

Lemma armed_settleConnect rt a o : Obeys R (settleConnect rt a o).
Proof.
  unfold settleConnect, assign, emit. repeat in_sequence; try still.
  destruct o; [apply (@Obeys_skip R _)| |]; each_of; apply armed_runCatcher.
Qed.

Lemma armed_request rt v u b timeout : Obeys R (request rt v u b timeout).
Proof.
  intros t. unfold request.
  set (t1 := set_nextRequestId (nextRequestId t + 1) t).
  intros Ht. assert (Ht1 : timersArmed t1) by exact Ht. clear Ht.
  destruct (connectedState t1 && socketIsOpen t1).
  - now apply armed_sendRequest.
  - destruct (disconnectedBehavior (options t1));
      [|split; [exact Ht1|apply Forall_anyEffect]].
    destruct (_ >=? _); [split; [exact Ht1|apply Forall_anyEffect]|].
    apply (@Obeys_andThen R _ (assign _) (connect rt CatchOfRequest));
      [unfold assign; still|apply armed_connect|exact Ht1].
Qed.

Lemma armed_handle rt e : Obeys R (handle rt e).
Proof.
  destruct e; cbn [handle].
  - apply armed_connect.
  - apply armed_request.
  - unfold dispose, assign. repeat in_sequence; try still;
      auto using armed_stopPing, armed_rejectPendingRequests,
        armed_rejectQueuedRequests.
  - intros t. unfold onOpen.
    destruct (connectPromise t); [|apply (@rule_stays R _)].
    as_rule. unfold attachSocket, assign, emit.
    repeat in_sequence; try still;
      auto using armed_startPing, armed_flush, armed_settleConnect.
  - intros t. unfold onConnectFailure.
    destruct (connectPromise t); [|apply (@rule_stays R _)].
    as_rule. unfold emit. repeat in_sequence; try still;
      auto using armed_scheduleReconnect, armed_settleConnect.
  - intros t. destruct (bool_decide _); [|apply (@rule_stays R _)].
    intros Ht. split; [|apply Forall_anyEffect].
    unfold onMessage.
    destruct (readPayload rt data) as [payload|]; [|exact Ht].
    destruct (getProperty payload "RequestId") as [idValue|]; [|exact Ht].
    destruct (numberOf rt idValue) as [| |rid]; try exact Ht.
    destruct (JsMap.getNumber rid (pendingRequests t)); [|exact Ht].
    unfold timersArmed, JsMap.deleteNumber. cbn.
    destruct (asInteger rid); [now apply values_delete|exact Ht].
  - intros t. destruct (bool_decide _); [|apply (@rule_stays R _)].
    as_rule. unfold onClose, assign. repeat in_sequence; try still;
      auto using armed_stopPing, armed_rejectPendingRequests.
    intros t'. destruct (negb _);
      [apply armed_scheduleReconnect|apply (@rule_stays R _)].
  - apply (@Obeys_skip R _).
  - atom.
  - intros t. unfold onReconnectTimer.
    destruct (reconnectTimer t); [|apply (@rule_stays R _)].
    as_rule; in_sequence; [unfold assign; still|apply armed_connect].
  - unfold onPingTimer. atom.
  - intros t Ht. split; [|apply Forall_anyEffect].
    unfold onRequestTimer.
    destruct (JsMap.get id (pendingRequests t)); [|exact Ht].
    unfold timersArmed. cbn. now apply values_delete.
Qed.

End Timers.

Section PendingReconnect.

Variable rt : Runtime.

Let R := keeping (timerFromBackoff rt) anyEffect.

Local Ltac atom :=
  intros ? Ht; cbn; by_cases; cbn;
  (split;
   [first [exact Ht
          | solve [intros ? ?; discriminate]
          | solve [intros ? [= <-]; eexists; reflexivity]]
   |apply Forall_anyEffect]).

Local Ltac still := solve [atom].













End PendingReconnect.


(** On a transport as it can be, every pending call carries its timer. *)
Lemma reachable_timersArmed rt t : reachable rt t -> timersArmed t.
Proof.
  induction 1 as [o|e t _ IH]; [constructor|].
  exact (proj1 (armed_handle rt e t IH)).
Qed.

Lemma rejectAll_armed msg m :
  Forall (fun r => timer r = Some (timeoutMs r)) (JsMap.values m) ->
  rejectAll msg m
    = List.flat_map
        (fun r => [ClearTimeout (RequestTimer (requestId r));
                   Reject (requestId r) (plainError msg)])
        (JsMap.values m).
Proof.
  unfold rejectAll. induction 1 as [|r l Hr _ IH]; [reflexivity|].
  cbn [List.flat_map]. rewrite IH. unfold clearRequestTimer.
  now rewrite Hr.
Qed.



(** ** Disposal of a transport as it can be *)

Lemma rejectQueuedLoop_map msg q :
  rejectQueuedLoop msg q
    = List.map (fun r => Reject (requestId r) (plainError msg)) q.
Proof. induction q as [|r q IH]; cbn; [reflexivity|]. now rewrite IH. Qed.

(** X23: [dispose()] on a transport as it can be. The ping interval and a
    pending reconnect timer are cleared; every pending call has its
    timeout cleared and is rejected with the disposal error, in the order
    of the map, and then every buffered call is rejected with it, in the
    order of the buffer: each call the transport holds is settled, once,
    and none is held afterwards; a socket that is attached and open or
    connecting is closed with code 1000, and no socket is attached
    afterwards. The effects are these and no others. The transport is
    disposed and not connected, and an attempt in flight is as it was. A
    second [dispose()] right away changes no field and has no effect. *)
Theorem dispose_rejects_held_calls rt t :
  reachable rt t ->
  let t' := fst (handle rt CallDispose t) in
  let es := snd (handle rt CallDispose t) in
  es = (if pingTimer t is Some _ then [ClearInterval PingTimer] else [])
       ++ (if reconnectTimer t is Some _
           then [ClearTimeout ReconnectTimer] else [])
       ++ List.flat_map
            (fun r => [ClearTimeout (RequestTimer (requestId r));
                       Reject (requestId r) (plainError TransportDisposed)])
            (JsMap.values (pendingRequests t))
       ++ List.map
            (fun r => Reject (requestId r) (plainError TransportDisposed))
            (queuedRequests t)
       ++ match socket t with
          | Some w =>
              match readyState w with
              | OPEN | CONNECTING => [Close (ws_id w) (Some 1000)]
              | _ => []
              end
          | None => []
          end
  /\ settled es = pendingIds t ++ queuedIds t
  /\ NoDup (settled es)
  /\ pendingRequests t' = [] /\ queuedRequests t' = []
  /\ pingTimer t' = None /\ reconnectTimer t' = None
  /\ socket t' = None
  /\ disposed t' = true /\ connectedState t' = false
  /\ connectPromise t' = connectPromise t
  /\ handle rt CallDispose t' = (t', []).
Proof.
  intros Hreach. cbv zeta. cbn [handle].
  destruct (dispose_settles_and_is_idempotent rt t Hreach)
    as (_ & Hs & Hnd & _ & _ & _ & _ & _ & _ & _ & _ & _ & _ & _ & Hidem).
  cbv zeta in Hs, Hnd, Hidem.
  split; [|split; [exact Hs|split; [exact Hnd|]]].
  - rewrite dispose_eq. cbn [snd].
    rewrite (rejectAll_armed _ _ (reachable_timersArmed rt t Hreach)).
    now rewrite rejectQueuedLoop_map.
  - rewrite dispose_eq in Hidem |- *. cbn [fst] in *.
    repeat split; exact Hidem.
Qed.

Lemma dispose_rejects_held_calls_witness :
  let t := fst (run nullRuntime pendingAndBuffered (new no_options)) in
  pendingIds t = [1; 2] /\ queuedIds t = [3]
  /\ snd (handle nullRuntime CallDispose t)
     = [ClearInterval PingTimer;
        ClearTimeout (RequestTimer 1);
        Reject 1 (plainError TransportDisposed);
        ClearTimeout (RequestTimer 2);
        Reject 2 (plainError TransportDisposed);
        Reject 3 (plainError TransportDisposed)]
  /\ handle nullRuntime CallDispose (fst (handle nullRuntime CallDispose t))
     = (fst (handle nullRuntime CallDispose t), []).
Proof.
  cbv zeta. split; [reflexivity|]. split; [reflexivity|].
  pose proof (dispose_rejects_held_calls nullRuntime
                (fst (run nullRuntime pendingAndBuffered (new no_options)))
                (reachable_run _ _ _ (reachable_new _ no_options)))
    as (Hes & _ & _ & _ & _ & _ & _ & _ & _ & _ & _ & Hidem).
  split; [rewrite Hes; reflexivity|exact Hidem].
Defined.

(** * Properties of the helpers *)

Import Helpers.

(** ** The path builders *)

Lemma trimStart_idem s : trimStart (trimStart s) = trimStart s.
Proof.
  induction s as [|c s IH]; [reflexivity|]. cbn.
  destruct (isWhiteSpace c) eqn:E; [exact IH|]. cbn. now rewrite E.
Qed.

Lemma trimStart_snoc s c :
  isWhiteSpace c = false -> trimStart (s ++ [c]) = trimStart s ++ [c].
Proof.
  intros Hc. induction s as [|x s IH]; cbn; [now rewrite Hc|].
  now destruct (isWhiteSpace x).
Qed.

Lemma trimEnd_cons c s :
  isWhiteSpace c = false -> trimEnd (c :: s) = c :: trimEnd s.
Proof.
  intros Hc. unfold trimEnd. cbn [rev].
  rewrite trimStart_snoc by exact Hc. rewrite rev_app_distr. reflexivity.
Qed.

Lemma trimEnd_idem s : trimEnd (trimEnd s) = trimEnd s.
Proof. unfold trimEnd. now rewrite rev_involutive, trimStart_idem. Qed.

(** What [trimStart] leaves is empty or begins with a code unit that is
    no white space. *)
Lemma trimStart_head s :
  match trimStart s with
  | [] => True
  | c :: _ => isWhiteSpace c = false
  end.
Proof.
  induction s as [|c s IH]; cbn; [exact I|].
  destruct (isWhiteSpace c) eqn:E; [exact IH|exact E].
Qed.

Lemma trim_idem s : trim (trim s) = trim s.
Proof.
  unfold trim. pose proof (trimStart_head s) as H.
  destruct (trimStart s) as [|c r]; [reflexivity|].
  rewrite trimEnd_cons by exact H. cbn [trimStart]. rewrite H.
  rewrite <- (trimEnd_cons c r) by exact H. apply trimEnd_idem.
Qed.

Lemma ensureNonEmpty_trim value label :
  ensureNonEmpty (trim value) label = ensureNonEmpty value label.
Proof. unfold ensureNonEmpty. now rewrite trim_idem. Qed.

Lemma ensureNonEmpty_cases value label :
  (trim value = [] /\ ensureNonEmpty value label = inl (CannotBeEmpty label))
  \/ (trim value <> [] /\ ensureNonEmpty value label = inr (trim value)).
Proof.
  unfold ensureNonEmpty. destruct (trim value); [now left|now right].
Qed.

(** X12: [objectPath] works on the trimmed arguments: white space around
    any of them changes nothing. It throws exactly when one of them is
    blank, naming the first blank one in the order map path, world name,
    object name; otherwise the path is the trimmed map path, with a slash
    put in front unless it begins with one, then a dot, the trimmed world
    name, a colon and the trimmed object name, so that it always begins
    with a slash. *)
Theorem objectPath_normalises mapPath worldName objectName :
  objectPath mapPath worldName objectName
    = objectPath (trim mapPath) (trim worldName) (trim objectName)
  /\ match objectPath mapPath worldName objectName with
     | inr path =>
         trim mapPath <> [] /\ trim worldName <> [] /\ trim objectName <> []
         /\ startsWithSlash path = true
         /\ path
            = (if startsWithSlash (trim mapPath) then [] else lit "/")
              ++ trim mapPath ++ lit "." ++ trim worldName ++ lit ":"
              ++ trim objectName
     | inl e =>
         (trim mapPath = [] /\ e = CannotBeEmpty "mapPath")
         \/ (trim mapPath <> [] /\ trim worldName = []
             /\ e = CannotBeEmpty "worldName")
         \/ (trim mapPath <> [] /\ trim worldName <> []
             /\ trim objectName = [] /\ e = CannotBeEmpty "objectName")
     end.
Proof.
  split.
  - unfold objectPath. now rewrite !ensureNonEmpty_trim.
  - unfold objectPath.
    destruct (ensureNonEmpty_cases mapPath "mapPath") as [[Hm ->]|[Hm ->]];
      [now left|].
    destruct (ensureNonEmpty_cases worldName "worldName") as [[Hw ->]|[Hw ->]];
      [right; now left|].
    destruct (ensureNonEmpty_cases objectName "objectName")
      as [[Ho ->]|[Ho ->]]; [right; right; auto|].
    repeat split; auto.
    + destruct (startsWithSlash (trim mapPath)) eqn:E; [|reflexivity].
      destruct (trim mapPath); [discriminate|exact E].
    + now destruct (startsWithSlash (trim mapPath)).
Qed.

(** The example of the helpers' tests. *)
Lemma objectPath_example :
  objectPath (lit " /Game/Maps/Main ") (lit " Main ") (lit " MyActor ")
    = inr (lit "/Game/Maps/Main.Main:MyActor")
  /\ objectPath (lit "Game/Maps/Main") (lit "Main") (lit "MyActor")
     = inr (lit "/Game/Maps/Main.Main:MyActor")
  /\ objectPath (lit "/Game/Maps/Main") (lit "   ") (lit "Actor")
     = inl (CannotBeEmpty "worldName").
Proof. vm_compute. auto. Qed.

(** *** [piePath] *)

Lemma split_nonempty sep s : split sep s <> [].
Proof.
  destruct s as [|c s]; cbn; [discriminate|].
  destruct (N.eqb c sep); [discriminate|].
  destruct (split sep s); discriminate.
Qed.

(** The last segment of a split has no separator in it. *)
Lemma last_split sep s :
  exists leaf, last (split sep s) = Some leaf /\ sep ∉ leaf.
Proof.
  induction s as [|c s (leaf & Hl & Hsep)]; cbn.
  - exists []. split; [reflexivity|]. apply not_elem_of_nil.
  - destruct (N.eqb_spec c sep) as [->|Hne].
    + exists leaf. split; [|exact Hsep].
      pose proof (split_nonempty sep s).
      destruct (split sep s); [contradiction|exact Hl].
    + destruct (split sep s) as [|seg [|seg' segs]] eqn:E.
      * now exists [c].
      * cbn in Hl |- *. injection Hl as <-. exists (c :: seg).
        split; [reflexivity|]. now apply not_elem_of_cons.
      * exists leaf. split; [exact Hl|exact Hsep].
Qed.

Lemma split_without sep s : sep ∉ s -> split sep s = [s].
Proof.
  induction s as [|c s IH]; [reflexivity|].
  intros [Hne Hs]%not_elem_of_cons. cbn.
  destruct (N.eqb_spec c sep) as [->|_]; [contradiction|].
  now rewrite IH.
Qed.

Lemma dropSlashes_without s : slash ∉ s -> dropSlashes s = s.
Proof.
  destruct s as [|c s]; [reflexivity|].
  intros [Hne _]%not_elem_of_cons. cbn.
  now destruct (N.eqb_spec c slash) as [->|_].
Qed.

Lemma stripSurroundingSlashes_without s :
  slash ∉ s -> stripSurroundingSlashes s = s.
Proof.
  intros Hs. unfold stripSurroundingSlashes.
  rewrite (dropSlashes_without s Hs), dropSlashes_without.
  - apply rev_involutive.
  - intros Hin. apply Hs. apply list_elem_of_In, in_rev. now apply list_elem_of_In.
Qed.

Lemma includes_spec c s : includes c s = true <-> c ∈ s.
Proof.
  unfold includes. rewrite existsb_exists. split.
  - intros (x & Hx & ->%N.eqb_eq). now apply list_elem_of_In.
  - intros Hin. exists c. split; [now apply list_elem_of_In|apply N.eqb_refl].
Qed.

(** What follows the last occurrence of a code unit has none of it. *)
Lemma after_lastIndexOf c s i :
  lastIndexOf c s = Some i -> c ∉ drop (S i) s.
Proof.
  revert i. induction s as [|x s IH]; intros i; cbn; [discriminate|].
  destruct (lastIndexOf c s) as [j|] eqn:E.
  - intros [= <-]. now apply IH.
  - destruct (N.eqb_spec x c) as [Hxc|_]; [|discriminate].
    intros [= <-]. rewrite drop_0.
    clear IH Hxc. induction s as [|y s IH]; [apply not_elem_of_nil|].
    cbn in E. destruct (lastIndexOf c s); [discriminate|].
    destruct (N.eqb_spec y c) as [Hyc|Hne]; [discriminate|].
    apply not_elem_of_cons. split; [congruence|now apply IH].
Qed.

Lemma lastIndexOf_found c s : c ∈ s -> is_Some (lastIndexOf c s).
Proof.
  induction s as [|x s IH]; [intros H; now apply elem_of_nil in H|].
  intros [Hcx|Hin]%elem_of_cons; cbn.
  - subst x. destruct (lastIndexOf c s); [now eexists|].
    rewrite N.eqb_refl. now eexists.
  - destruct (IH Hin) as [i ->]. now eexists.
Qed.

Lemma not_elem_of_drop {A} (x : A) n l : x ∉ l -> x ∉ drop n l.
Proof.
  intros Hx Hin. apply Hx.
  rewrite <- (take_drop n l). apply elem_of_app. now right.
Qed.

(** X13: [piePath] throws exactly when the map name is blank. Otherwise
    the result is "UEDPIE_", the instance identifier (0 when none is
    given), "_" and a map name that contains neither a slash nor a dot:
    what follows the last slash and then the last dot of the trimmed name
    with the slashes at its ends taken away. A trimmed name without
    slash and dot is used as it is. *)
Theorem piePath_shape numberToString mapName instanceId :
  match piePath numberToString mapName instanceId with
  | inl e => trim mapName = [] /\ e = CannotBeEmpty "mapName"
  | inr path =>
      trim mapName <> []
      /\ exists clean,
           path = lit "UEDPIE_"
                  ++ numberToString (default (Finite 0) instanceId)
                  ++ lit "_" ++ clean
           /\ (slash ∉ clean)
           /\ (dot ∉ clean)
           /\ ((slash ∉ trim mapName) -> (dot ∉ trim mapName) ->
               clean = trim mapName)
  end.
Proof.
  unfold piePath.
  destruct (ensureNonEmpty_cases mapName "mapName") as [[Hm ->]|[Hm ->]];
    [now split|].
  split; [exact Hm|].
  destruct (last_split slash (stripSurroundingSlashes (trim mapName)))
    as (leaf & Hlast & Hslash).
  rewrite Hlast. unfold default at 1. cbn [from_option id].
  destruct (includes dot leaf) eqn:Hdot.
  - apply includes_spec in Hdot.
    destruct (lastIndexOf_found dot leaf Hdot) as [i Hi]. rewrite Hi.
    exists (drop (S i) leaf). split; [reflexivity|].
    split; [now apply not_elem_of_drop|].
    split; [now apply after_lastIndexOf|].
    intros Hs Hd. exfalso. apply Hd.
    rewrite stripSurroundingSlashes_without, split_without in Hlast
      by exact Hs.
    injection Hlast as <-. exact Hdot.
  - exists leaf. split; [reflexivity|].
    split; [exact Hslash|]. split.
    + intros Hin. apply includes_spec in Hin. congruence.
    + intros Hs _.
      rewrite stripSurroundingSlashes_without, split_without in Hlast
        by exact Hs.
      now injection Hlast.
Qed.

(** The examples of the helpers' tests, with numbers written in decimal;
    a name that ends in a dot or consists of slashes leaves no map
    name. *)
Lemma piePath_example :
  let decimal (n : JsNumber) : text :=
    match n with
    | Finite q => lit (pretty (Qnum q))
    | _ => lit "NaN"
    end in
  piePath decimal (lit "/Game/Maps/Main.Main") None = inr (lit "UEDPIE_0_Main")
  /\ piePath decimal (lit "Main") (Some (Finite 2)) = inr (lit "UEDPIE_2_Main")
  /\ piePath decimal (lit "Main.") None = inr (lit "UEDPIE_0_")
  /\ piePath decimal (lit " // ") None = inr (lit "UEDPIE_0_").
Proof. vm_compute. auto. Qed.

(** ** Reading the value out of a response *)

Lemma parseReturnValue_not_record inherits value key :
  isRecord value = false -> parseReturnValue inherits value key = Value JsUndefined.
Proof. unfold parseReturnValue. now intros ->. Qed.

Lemma parseReturnValue_empty_key inherits value :
  parseReturnValue inherits value (Some ""%string)
    = parseReturnValue inherits value None.
Proof. unfold parseReturnValue. now destruct (negb _). Qed.

(** What [getProperty] makes of the response it has got. A response that
    is no object ([undefined], [null], a boolean, number or string) gives
    [undefined]. On an object or array, the own property under the
    property's name is the result when it is neither [null] nor
    [undefined]; when it is [null] or [undefined], or when there is no
    such property at all, the result is the [ReturnValue] property. A
    name that the response has only from its prototype gives that
    inherited member. *)
Lemma namedOrReturnValue_cases inherits response propertyName :
  propertyName <> ""%string ->
  namedOrReturnValue inherits response propertyName
    = if isRecord response
      then match ownProperty response propertyName with
           | Some JsNull | Some JsUndefined =>
               member inherits response "ReturnValue"
           | Some v => Value v
           | None =>
               if inherits response propertyName
               then Inherited propertyName
               else member inherits response "ReturnValue"
           end
      else Value JsUndefined.
Proof.
  intros Hname. apply String.eqb_neq in Hname.
  unfold namedOrReturnValue, parseReturnValue, member.
  destruct (isRecord response); cbn [negb]; [|reflexivity].
  rewrite Hname.
  destruct (ownProperty response propertyName) as [v|].
  - destruct v; cbn; try reflexivity;
      now destruct (ownProperty response "ReturnValue") as [[]|],
        (inherits response "ReturnValue").
  - destruct (inherits response propertyName); cbn; [reflexivity|].
    now destruct (ownProperty response "ReturnValue") as [[]|],
      (inherits response "ReturnValue").
Qed.

(** The examples of the tests, and a property whose value is [null]. *)
Lemma parseReturnValue_example :
  let plain : JsValue -> string -> bool := fun _ _ => false in
  let seven := JsNum (Finite 7) in
  parseReturnValue plain (JsObject {[ "Counter"%string := seven ]})
    (Some "Counter"%string) = Value seven
  /\ parseReturnValue plain (JsObject {[ "ReturnValue"%string := seven ]}) None
     = Value seven
  /\ parseReturnValue plain (JsString "nope") None = Value JsUndefined
  /\ namedOrReturnValue plain
       (JsObject {[ "Counter"%string := JsNull; "ReturnValue"%string := seven ]})
       "Counter" = Value seven
  /\ namedOrReturnValue plain (JsArray [seven; JsNull]) "0" = Value seven
  /\ namedOrReturnValue plain (JsArray [seven; JsNull]) "length"
     = Value (JsNum (Finite 2)).
Proof. vm_compute. auto 10. Qed.

(** * Properties of the HTTP transport *)

Import Ws.
Import Http.
Import Examples.

Lemma member_spec x l : member x l = true <-> x ∈ l.
Proof.
  unfold member. rewrite existsb_exists. split.
  - intros (y & Hy & ->%Nat.eqb_eq). now apply list_elem_of_In.
  - intros Hx. exists x. split; [now apply list_elem_of_In|apply Nat.eqb_refl].
Qed.

Lemma member_false x l : x ∉ l -> member x l = false.
Proof.
  intros Hx. destruct (member x l) eqn:E; [|reflexivity].
  now apply member_spec in E.
Qed.

Lemma add_fresh x l : x ∉ l -> add x l = l ++ [x].
Proof. intros Hx. unfold add. fold (member x l). now rewrite member_false. Qed.

Lemma remove_absent x l : x ∉ l -> remove x l = l.
Proof.
  unfold remove. induction l as [|y l IH]; [reflexivity|].
  intros [Hne Hx]%not_elem_of_cons. cbn.
  destruct (Nat.eqb_spec y x) as [->|_]; [contradiction|].
  cbn. now rewrite IH.
Qed.

Lemma remove_snoc x l : x ∉ l -> remove x (l ++ [x]) = l.
Proof.
  intros Hx. unfold remove. rewrite List.filter_app. cbn.
  rewrite Nat.eqb_refl. cbn. rewrite app_nil_r. now apply remove_absent.
Qed.

Lemma remove_cons x l : x ∉ l -> remove x (x :: l) = l.
Proof.
  intros Hx. unfold remove. cbn. rewrite Nat.eqb_refl. cbn.
  now apply remove_absent.
Qed.

Lemma elem_of_remove x y l : x ∈ remove y l <-> x ∈ l /\ x <> y.
Proof.
  unfold remove. rewrite !list_elem_of_In, filter_In, negb_true_iff.
  rewrite Nat.eqb_neq. tauto.
Qed.

Lemma elem_of_add x y l : x ∈ add y l <-> x ∈ l \/ x = y.
Proof.
  unfold add. destruct (existsb _ l) eqn:E.
  - fold (member y l) in E. apply member_spec in E.
    split; [auto|]. intros [H| ->]; auto.
  - rewrite elem_of_app, list_elem_of_singleton. tauto.
Qed.

Lemma elem_of_fold_add x l a :
  x ∈ List.fold_left (fun l c => add c l) l a <-> x ∈ a \/ x ∈ l.
Proof.
  revert a. induction l as [|y l IH]; intros a; cbn.
  - rewrite elem_of_nil. tauto.
  - rewrite IH, elem_of_add, elem_of_cons. tauto.
Qed.

Lemma fresh_below (l : list nat) n :
  Forall (fun c => (c < n)%nat) l -> n ∉ l.
Proof.
  intros H Hin. rewrite Forall_forall in H. specialize (H n Hin). lia.
Qed.

Lemma find_inFlight_snoc (l : list InFlight) p :
  controller p ∉ List.map controller l ->
  List.find (fun q => Nat.eqb (controller q) (controller p)) (l ++ [p])
    = Some p.
Proof.
  induction l as [|q l IH]; cbn.
  - intros _. now rewrite Nat.eqb_refl.
  - intros [Hne Hl]%not_elem_of_cons.
    destruct (Nat.eqb_spec (controller q) (controller p)) as [E|_];
      [now symmetry in E|].
    now apply IH.
Qed.

Lemma filter_inFlight_snoc (l : list InFlight) p :
  controller p ∉ List.map controller l ->
  List.filter (fun q => negb (Nat.eqb (controller q) (controller p)))
    (l ++ [p]) = l.
Proof.
  intros Hp. rewrite List.filter_app. cbn. rewrite Nat.eqb_refl. cbn.
  rewrite app_nil_r.
  induction l as [|q l IH]; [reflexivity|].
  cbn in Hp. apply not_elem_of_cons in Hp as [Hne Hl]. cbn.
  destruct (Nat.eqb_spec (controller q) (controller p)) as [E|_];
    [now symmetry in E|].
  cbn. now rewrite IH.
Qed.

Section Runs.

Variable rt : Ws.Runtime.
Variable JSON_stringify : JsValue -> string.
Variable resolveUrl : string -> string -> option string.

Let request := Http.request JSON_stringify resolveUrl.
Let handle := Http.handle rt JSON_stringify resolveUrl.
Let run := Http.run rt JSON_stringify resolveUrl.

Lemma Forall_lt_S (l : list nat) n :
  Forall (fun c => (c < n)%nat) l -> Forall (fun c => (c < S n)%nat) l.
Proof. intros H. eapply Forall_impl; [exact H|]. intros; cbn in *; lia. Qed.

Lemma numbered_new o : numbered (new o).
Proof. repeat split; constructor. Qed.

Lemma numbered_handle e t : numbered t -> numbered (fst (handle e t)).
Proof.
  intros (Hc & Hf & Ha & Hb & Hnd). unfold handle.
  destruct e; cbn [Http.handle].
  - unfold Http.request.
    pose proof (fresh_below _ _ Hc) as Hfc.
    pose proof (fresh_below _ _ Hf) as Hff.
    rewrite (add_fresh _ _ Hfc).
    destruct (resolveUrl u (baseUrl t)); cbn; unfold numbered,
      inFlightControllers; cbn.
    + rewrite List.map_app. cbn. repeat split.
      * apply Forall_app. split; [now apply Forall_lt_S|repeat constructor].
      * apply Forall_app. split; [now apply Forall_lt_S|repeat constructor].
      * destruct (0 <? _); [constructor; [lia|]|]; now apply Forall_lt_S.
      * now apply Forall_lt_S.
      * apply NoDup_app. split; [exact Hnd|]. split; [|apply NoDup_singleton].
        intros x Hx ->%list_elem_of_singleton. contradiction.
    + repeat split.
      * apply Forall_app. split; [now apply Forall_lt_S|repeat constructor].
      * now apply Forall_lt_S.
      * destruct (0 <? _); [constructor; [lia|]|]; now apply Forall_lt_S.
      * now apply Forall_lt_S.
      * exact Hnd.
  - unfold dispose, numbered, inFlightControllers. cbn. repeat split; auto.
    apply Forall_forall. intros x [Hx|Hx]%elem_of_fold_add.
    + rewrite Forall_forall in Hb. auto.
    + rewrite Forall_forall in Hc. auto.
  - unfold onTimer. destruct (member c (armed t)) eqn:Hm; [|now repeat split].
    unfold numbered, inFlightControllers. cbn. repeat split; auto.
    + apply Forall_forall. intros x [Hx _]%elem_of_remove.
      rewrite Forall_forall in Ha. auto.
    + apply Forall_forall. intros x [Hx| ->]%elem_of_add.
      * rewrite Forall_forall in Hb. auto.
      * apply member_spec in Hm. rewrite Forall_forall in Ha. auto.
  - unfold onFetchSettled.
    destruct (List.find _ _); [|now repeat split].
    unfold numbered, inFlightControllers. cbn. repeat split.
    + apply Forall_forall. intros x [Hx _]%elem_of_remove.
      rewrite Forall_forall in Hc. auto.
    + apply Forall_forall. intros x Hx%list_elem_of_In%in_map_iff.
      destruct Hx as (q & <- & Hq%filter_In).
      rewrite Forall_forall in Hf. apply Hf.
      apply list_elem_of_In, in_map, Hq.
    + apply Forall_forall. intros x [Hx _]%elem_of_remove.
      rewrite Forall_forall in Ha. auto.
    + exact Hb.
    + clear -Hnd. unfold inFlightControllers in Hnd.
      induction (inFlight t) as [|q l IH]; cbn; [constructor|].
      cbn in Hnd. apply NoDup_cons in Hnd as [Hq Hnd].
      destruct (negb _); [|now apply IH].
      cbn. apply NoDup_cons. split; [|now apply IH].
      intros Hin%list_elem_of_In%in_map_iff. apply Hq.
      destruct Hin as (q' & E & Hq'%filter_In).
      rewrite <- E. apply list_elem_of_In, in_map, Hq'.
Qed.

Lemma http_run_cons e es t :
  run (e :: es) t
    = (fst (run es (fst (handle e t))),
       snd (handle e t) ++ snd (run es (fst (handle e t)))).
Proof.
  unfold run, handle. cbn [Http.run].
  destruct (Http.handle rt JSON_stringify resolveUrl e t) as [t1 e1].
  cbn [fst snd].
  now destruct (Http.run rt JSON_stringify resolveUrl es t1) as [t2 e2].
Qed.

Lemma numbered_run es : forall t, numbered t -> numbered (fst (run es t)).
Proof.
  induction es as [|e es IH]; intros t Ht; [exact Ht|].
  rewrite http_run_cons. cbn [fst]. apply IH. now apply numbered_handle.
Qed.

(** [request()] with a URL that resolves, on a transport whose
    controllers are numbered. *)
Lemma request_begins t v u b timeout target :
  numbered t ->
  resolveUrl u (baseUrl t) = Some target ->
  let c := controllersCreated t in
  let ms := default (requestTimeoutMs t) timeout in
  request v u b timeout t
    = ({| baseUrl := baseUrl t; requestTimeoutMs := requestTimeoutMs t;
          headers := headers t;
          controllers := controllers t ++ [c];
          aborted := aborted t;
          armed := if 0 <? ms then c :: armed t else armed t;
          inFlight :=
            inFlight t
            ++ [{| controller := c; timeoutMs := ms; timer := 0 <? ms |}];
          controllersCreated := S c |},
       (if 0 <? ms then [SetTimeout c ms] else [])
       ++ [Fetch c target
             {| method := v; init_headers := headersFor t b;
                init_body := match b with
                             | JsUndefined => None
                             | _ => Some (JSON_stringify b)
                             end |}]).
Proof.
  intros (Hc & _) Hurl. cbv zeta. unfold request, Http.request. rewrite Hurl.
  rewrite (add_fresh _ _ (fresh_below _ _ Hc)). reflexivity.
Qed.

(** The end of a call in flight: the outcome, and the [finally] block. *)
Lemma request_ends t1 fl p o :
  inFlight t1 = fl ++ [p] ->
  controller p ∉ List.map controller fl ->
  onFetchSettled rt (controller p) o t1
    = ({| baseUrl := baseUrl t1; requestTimeoutMs := requestTimeoutMs t1;
          headers := headers t1;
          controllers := remove (controller p) (controllers t1);
          aborted := aborted t1;
          armed := remove (controller p) (armed t1);
          inFlight := fl;
          controllersCreated := controllersCreated t1 |},
       (if timer p then [ClearTimeout (controller p)] else [])
       ++ [Settle (controller p) (outcomeOf rt t1 p o)]).
Proof.
  intros Hfl Hp. unfold onFetchSettled. rewrite Hfl.
  rewrite find_inFlight_snoc, filter_inFlight_snoc by exact Hp.
  reflexivity.
Qed.

End Runs.

Lemma settlements_app e1 e2 :
  settlements (e1 ++ e2) = settlements e1 ++ settlements e2.
Proof. apply omap_app. Qed.

Lemma member_fold_add c l a :
  c ∈ l -> member c (List.fold_left (fun l c => add c l) l a) = true.
Proof. intros Hc. apply member_spec, elem_of_fold_add. now right. Qed.

Lemma outcomeOf_noPayload rt t p o :
  givesNoPayload rt o -> outcomeOf rt t p o = caught t p.
Proof.
  destruct o as [status ok contentType [raw|]|]; cbn; try reflexivity.
  now intros ->.
Qed.

Lemma settlements_map_Abort l : settlements (List.map Abort l) = [].
Proof. induction l; [reflexivity|assumption]. Qed.

(** X15: a call of [request()] on the HTTP transport and its answer, at
    any time in the life of the transport. With a URL that resolves, the
    call arms its timeout (only when the delay is above 0; the delay is
    the [timeoutMs] option or else [requestTimeoutMs]) and hands [fetch]
    the verb, the resolved URL, the configured headers and, unless the
    body is [undefined], the body as JSON text with a [content-type] of
    [application/json] where the headers have none. When the response has
    come with a body that [parsePayload] can read, the timeout is cleared
    and the promise is fulfilled with the payload if the response is
    [ok]; otherwise it is rejected with an error that carries the status
    and, as details, the payload. Afterwards the set of controllers, the
    timers and the calls in flight are as they were before the call. *)
Theorem http_call_and_answer
  rt stringify resolveUrl o es v u b timeout target status ok contentType
  raw payload :
  let t := fst (Http.run rt stringify resolveUrl es (new o)) in
  resolveUrl u (baseUrl t) = Some target ->
  parsePayload rt contentType raw = Some payload ->
  let c := controllersCreated t in
  let ms := default (requestTimeoutMs t) timeout in
  let r :=
    Http.run rt stringify resolveUrl
      [CallRequest v u b timeout;
       FetchSettled c (Responded status ok contentType (Some raw))] t in
  snd r
    = (if 0 <? ms then [SetTimeout c ms] else [])
      ++ [Fetch c target
            {| method := v; init_headers := headersFor t b;
               init_body := match b with
                            | JsUndefined => None
                            | _ => Some (stringify b)
                            end |}]
      ++ (if 0 <? ms then [ClearTimeout c] else [])
      ++ [Settle c
            (if ok then Returned payload
             else Threw {| message := FailedWithStatus status;
                           statusCode := Some status;
                           details := Some payload |})]
  /\ controllers (fst r) = controllers t
  /\ armed (fst r) = armed t
  /\ inFlight (fst r) = inFlight t
  /\ aborted (fst r) = aborted t.
Proof.
  cbv zeta. intros Hurl Hparse.
  set (t := fst (Http.run rt stringify resolveUrl es (new o))) in *.
  assert (Ht : numbered t) by (apply numbered_run, numbered_new).
  pose proof Ht as (Hc & Hf & Ha & Hb & Hnd).
  pose proof (fresh_below _ _ Hc) as Hfc.
  pose proof (fresh_below _ _ Hf) as Hff.
  pose proof (fresh_below _ _ Ha) as Hfa.
  rewrite !http_run_cons. cbn [Http.run Http.handle fst snd].
  rewrite (request_begins stringify resolveUrl t v u b timeout target Ht Hurl).
  cbn [fst snd].
  erewrite (request_ends rt _ (inFlight t)
              {| controller := controllersCreated t;
                 timeoutMs := default (requestTimeoutMs t) timeout;
                 timer := 0 <? default (requestTimeoutMs t) timeout |});
    [|reflexivity|exact Hff].
  cbn [fst snd controllers armed inFlight aborted outcomeOf timer controller].
  rewrite Hparse, app_nil_r, <- !app_assoc.
  rewrite remove_snoc by exact Hfc.
  repeat split.
  destruct (0 <? _); [now apply remove_cons|now apply remove_absent].
Qed.

Lemma http_call_and_answer_witness :
  snd (Http.run (fixedRuntime (JsBoolean true)) showJson joinUrl
         [CallRequest PUT "/remote/object/call" JsNull None;
          FetchSettled 0
            (Responded 200 true (Some "Application/JSON; charset=utf-8"%string)
               (Some [Byte.x7b; Byte.x7d]))]
         (new no_options))
    = [SetTimeout 0 15000;
       Fetch 0 "http://127.0.0.1:30010/remote/object/call"
         {| method := PUT;
            init_headers :=
              {[ "content-type"%string := "application/json"%string ]};
            init_body := Some "{}"%string |};
       ClearTimeout 0;
       Settle 0 (Returned (Parsed (JsBoolean true)))].
Proof.
  refine (proj1 (http_call_and_answer (fixedRuntime (JsBoolean true)) showJson
                   joinUrl no_options [] PUT "/remote/object/call" JsNull None
                   "http://127.0.0.1:30010/remote/object/call" 200 true
                   (Some "Application/JSON; charset=utf-8"%string)
                   [Byte.x7b; Byte.x7d] (Parsed (JsBoolean true)) _ _)).
  - reflexivity.
  - reflexivity.
Defined.

(** X16: a call of [request()] on the HTTP transport that ends without a
    payload (the fetch rejects, the body cannot be read, or it is no JSON
    although the header says so) is rejected without a status code, and
    the message depends on the controller alone. If the call's timeout
    has fired it says "timed out after ...ms" with the call's delay; if
    [dispose()] was called while the call was in flight it says the same,
    whatever the delay, also for a call without a timeout; otherwise it
    says "HTTP request failed". A response that is not [ok] loses its
    status code this way when its body cannot be parsed. *)
Theorem http_abort_is_reported_as_timeout
  rt stringify resolveUrl o es v u b timeout target outcome :
  let t := fst (Http.run rt stringify resolveUrl es (new o)) in
  resolveUrl u (baseUrl t) = Some target ->
  givesNoPayload rt outcome ->
  let c := controllersCreated t in
  let ms := default (requestTimeoutMs t) timeout in
  let failed m :=
    [(c, Threw {| message := m; statusCode := None; details := None |})] in
  (0 < ms ->
   settlements
     (snd (Http.run rt stringify resolveUrl
             [CallRequest v u b timeout; TimerFired c; FetchSettled c outcome]
             t))
     = failed (TimedOutAfter ms))
  /\ settlements
       (snd (Http.run rt stringify resolveUrl
               [CallRequest v u b timeout; CallDispose; FetchSettled c outcome]
               t))
     = failed (TimedOutAfter ms)
  /\ settlements
       (snd (Http.run rt stringify resolveUrl
               [CallRequest v u b timeout; FetchSettled c outcome] t))
     = failed RequestFailed.
Proof.
  cbv zeta. intros Hurl Hout.
  set (t := fst (Http.run rt stringify resolveUrl es (new o))) in *.
  assert (Ht : numbered t) by (apply numbered_run, numbered_new).
  pose proof Ht as (Hc & Hf & Ha & Hb & Hnd).
  pose proof (fresh_below _ _ Hf) as Hff.
  pose proof (fresh_below _ _ Hb) as Hfb.
  set (p := {| controller := controllersCreated t;
               timeoutMs := default (requestTimeoutMs t) timeout;
               timer := 0 <? default (requestTimeoutMs t) timeout |}).
  repeat split.
  - intros Hms. apply Z.ltb_lt in Hms.
    rewrite !http_run_cons. cbn [Http.run Http.handle fst snd].
    rewrite (request_begins stringify resolveUrl t v u b timeout target Ht Hurl).
    rewrite Hms. cbn [fst snd]. unfold onTimer at 1 2. cbn [armed member existsb].
    rewrite Nat.eqb_refl. cbn [orb fst snd].
    erewrite (request_ends rt _ (inFlight t)
                {| controller := controllersCreated t;
                   timeoutMs := default (requestTimeoutMs t) timeout;
                   timer := true |}); [|reflexivity|exact Hff].
    cbn [fst snd]. rewrite (outcomeOf_noPayload _ _ _ _ Hout).
    unfold caught. cbn [aborted controller].
    rewrite (proj2 (member_spec _ _)) by (apply elem_of_add; now right).
    reflexivity.
  - rewrite !http_run_cons. cbn [Http.run Http.handle fst snd].
    rewrite (request_begins stringify resolveUrl t v u b timeout target Ht Hurl).
    cbn [fst snd]. unfold dispose at 1 2. cbn [fst snd controllers].
    erewrite (request_ends rt _ (inFlight t) p); [|reflexivity|exact Hff].
    cbn [fst snd]. rewrite (outcomeOf_noPayload _ _ _ _ Hout).
    unfold caught. cbn [aborted controller p].
    rewrite member_fold_add by (apply elem_of_app; right; now constructor).
    rewrite app_nil_r, !settlements_app, settlements_map_Abort.
    unfold p. cbn [timer timeoutMs].
    now destruct (0 <? _).
  - rewrite !http_run_cons. cbn [Http.run Http.handle fst snd].
    rewrite (request_begins stringify resolveUrl t v u b timeout target Ht Hurl).
    cbn [fst snd].
    erewrite (request_ends rt _ (inFlight t) p); [|reflexivity|exact Hff].
    cbn [fst snd]. rewrite (outcomeOf_noPayload _ _ _ _ Hout).
    unfold caught. cbn [aborted controller p].
    rewrite member_false by exact Hfb.
    rewrite app_nil_r. unfold p. cbn [timer timeoutMs].
    now destruct (0 <? _).
Qed.

Lemma http_abort_is_reported_as_timeout_witness :
  settlements
    (snd (Http.run nullRuntime showJson joinUrl
            [CallRequest GET "/remote/info" JsUndefined (Some 0);
             CallDispose; FetchSettled 0 Rejects] (new no_options)))
    = [(0%nat,
        Threw {| message := TimedOutAfter 0; statusCode := None;
                 details := None |})].
Proof.
  refine (proj1 (proj2 (http_abort_is_reported_as_timeout nullRuntime showJson
                          joinUrl no_options [] GET "/remote/info" JsUndefined
                          (Some 0) "http://127.0.0.1:30010/remote/info" Rejects
                          _ _))).
  - reflexivity.
  - exact I.
Defined.

(** *** Every call is settled once, and nothing is left behind *)

Lemma settledCalls_app e1 e2 :
  settledCalls (e1 ++ e2) = settledCalls e1 ++ settledCalls e2.
Proof. unfold settledCalls. now rewrite settlements_app, List.map_app. Qed.

Lemma settlesOnce_stays t : settlesOnce t t [].
Proof.
  unfold settlesOnce, settledCalls. cbn.
  split; [lia|]. split; [auto|]. split; [constructor|].
  intros c Hc. now apply elem_of_nil in Hc.
Qed.

Lemma settlesOnce_follows t t1 t2 e1 e2 :
  settlesOnce t t1 e1 -> settlesOnce t1 t2 e2 -> settlesOnce t t2 (e1 ++ e2).
Proof.
  intros (Hle1 & Hin1 & Hnd1 & Hs1) (Hle2 & Hin2 & Hnd2 & Hs2).
  split; [lia|]. split; [|split].
  - intros c Hc. destruct (Hin2 c Hc) as [H|H].
    + destruct (Hin1 c H); auto.
    + right. lia.
  - rewrite settledCalls_app. apply NoDup_app. repeat split; auto.
    intros c Hc1 Hc2.
    destruct (Hs1 c Hc1) as (_ & Hout & Hlt).
    destruct (Hs2 c Hc2) as ([H|H] & _); [contradiction|lia].
  - intros c. rewrite settledCalls_app, elem_of_app. intros [Hc|Hc].
    + destruct (Hs1 c Hc) as (Hfrom & Hout & Hlt).
      split; [exact Hfrom|]. split; [|lia].
      intros Hc2. destruct (Hin2 c Hc2); [contradiction|lia].
    + destruct (Hs2 c Hc) as (Hfrom & Hout & Hlt).
      split; [|auto].
      destruct Hfrom as [H|H]; [|right; lia].
      destruct (Hin1 c H); auto.
Qed.

Section Bookkeeping.

Variable rt : Ws.Runtime.
Variable JSON_stringify : JsValue -> string.
Variable resolveUrl : string -> string -> option string.

Lemma settlesOnce_handle e t :
  numbered t ->
  let r := Http.handle rt JSON_stringify resolveUrl e t in
  settlesOnce t (fst r) (snd r).
Proof.
  intros (Hc & Hf & Ha & Hb & Hnd). cbv zeta.
  pose proof (fresh_below _ _ Hf) as Hff.
  assert (Hnone : forall c, c ∈ @nil nat -> False)
    by (intros c Hin; now apply elem_of_nil in Hin).
  destruct e; cbn [Http.handle].
  - unfold Http.request.
    assert (E : settlements
                  (if 0 <? default (requestTimeoutMs t) timeout
                   then [SetTimeout (controllersCreated t)
                           (default (requestTimeoutMs t) timeout)]
                   else []) = []) by now destruct (0 <? _).
    destruct (resolveUrl u (baseUrl t)) as [target|]; cbn [fst snd];
      unfold settlesOnce, inFlightControllers, settledCalls;
      cbn [controllersCreated inFlight];
      rewrite settlements_app, E; cbn.
    + split; [lia|]. split; [|split; [constructor|]].
      * intros c. rewrite List.map_app, elem_of_app. cbn.
        rewrite list_elem_of_singleton. intros [H|H]; [now left|right; lia].
      * intros c Hin. now apply Hnone in Hin.
    + split; [lia|]. split; [auto|]. split; [apply NoDup_singleton|].
      intros c Hin. apply list_elem_of_singleton in Hin. subst c.
      split; [right; lia|]. split; [exact Hff|lia].
  - unfold dispose. cbn [fst snd].
    unfold settlesOnce, settledCalls. rewrite settlements_map_Abort. cbn.
    split; [lia|]. split; [auto|]. split; [constructor|].
    intros c Hin. now apply Hnone in Hin.
  - unfold onTimer. destruct (member c (armed t));
      [|apply settlesOnce_stays].
    unfold settlesOnce, settledCalls. cbn.
    split; [lia|]. split; [auto|]. split; [constructor|].
    intros c' Hin. now apply Hnone in Hin.
  - unfold onFetchSettled.
    destruct (List.find _ _) as [p|] eqn:Hfind; [|apply settlesOnce_stays].
    apply List.find_some in Hfind as [Hp Hpc]. apply Nat.eqb_eq in Hpc.
    assert (E : settlements (if timer p then [ClearTimeout c] else []) = [])
      by now destruct (timer p).
    unfold settlesOnce, inFlightControllers, settledCalls. cbn [fst snd].
    rewrite settlements_app, E. cbn.
    split; [lia|]. split; [|split; [apply NoDup_singleton|]].
    + intros c' Hin%list_elem_of_In%in_map_iff.
      destruct Hin as (q & <- & Hq%filter_In). left.
      apply list_elem_of_In, in_map, Hq.
    + intros c' Hin. apply list_elem_of_singleton in Hin. subst c'.
      assert (Hin : c ∈ List.map controller (inFlight t)).
      { rewrite <- Hpc. now apply list_elem_of_In, in_map. }
      split; [now left|]. split.
      * intros Hin'%list_elem_of_In%in_map_iff.
        destruct Hin' as (q & Hq & [_ Hne]%filter_In).
        apply negb_true_iff, Nat.eqb_neq in Hne. contradiction.
      * rewrite Forall_forall in Hf. now apply Hf.
Qed.

Lemma settlesOnce_run es : forall t,
  numbered t ->
  let r := Http.run rt JSON_stringify resolveUrl es t in
  settlesOnce t (fst r) (snd r).
Proof.
  induction es as [|e es IH]; intros t Ht; [apply settlesOnce_stays|].
  cbv zeta. rewrite http_run_cons. cbn [fst snd].
  eapply settlesOnce_follows; [now apply settlesOnce_handle|].
  apply IH. now apply numbered_handle.
Qed.

Hypothesis every_url_resolves : forall u base, is_Some (resolveUrl u base).

Lemma tidy_handle e t :
  tidy t /\ armed t ⊆ inFlightControllers t ->
  let t' := fst (Http.handle rt JSON_stringify resolveUrl e t) in
  tidy t' /\ armed t' ⊆ inFlightControllers t'.
Proof.
  unfold tidy, inFlightControllers. intros [Hc Ha]. cbv zeta.
  destruct e; cbn [Http.handle].
  - unfold Http.request.
    destruct (every_url_resolves u (baseUrl t)) as [target ->]. cbn.
    rewrite List.map_app. cbn. split.
    + intros x [Hx| ->]%elem_of_add; apply elem_of_app; [left; auto|right].
      now constructor.
    + destruct (0 <? _).
      * intros x [->|Hx]%elem_of_cons; apply elem_of_app;
          [right; now constructor|left; auto].
      * intros x Hx. apply elem_of_app. left. auto.
  - cbn. split; [|exact Ha]. intros x Hx. now apply elem_of_nil in Hx.
  - unfold onTimer. destruct (member c (armed t)); cbn; [|auto].
    split; [exact Hc|]. intros x [Hx _]%elem_of_remove. auto.
  - unfold onFetchSettled. destruct (List.find _ _); cbn; [|auto].
    assert (Hkeep : forall x, x ∈ List.map controller (inFlight t) -> x <> c ->
              x ∈ List.map controller
                    (List.filter (fun q => negb (Nat.eqb (controller q) c))
                       (inFlight t))).
    { intros x Hx%list_elem_of_In%in_map_iff Hne.
      destruct Hx as (q & <- & Hq).
      apply list_elem_of_In, in_map, filter_In. split; [exact Hq|].
      now apply negb_true_iff, Nat.eqb_neq. }
    split; intros x [Hx Hne]%elem_of_remove; auto.
Qed.

Lemma tidy_run es : forall t,
  tidy t /\ armed t ⊆ inFlightControllers t ->
  let t' := fst (Http.run rt JSON_stringify resolveUrl es t) in
  tidy t' /\ armed t' ⊆ inFlightControllers t'.
Proof.
  induction es as [|e es IH]; intros t Ht; [exact Ht|].
  cbv zeta. rewrite http_run_cons. cbn [fst]. apply IH.
  now apply tidy_handle.
Qed.

End Bookkeeping.

(** X17: the bookkeeping of the HTTP transport. In every run of tasks
    from a new transport, no call of [request()] is settled twice. When
    every URL resolves, the controllers in the set and the armed timers
    belong to calls in flight, so that nothing is left behind: once no
    call is in flight, the set is empty and no timer is armed. *)
Theorem http_calls_settled_once_nothing_left
  rt stringify resolveUrl o es :
  let r := Http.run rt stringify resolveUrl es (new o) in
  NoDup (settledCalls (snd r))
  /\ ((forall u base, is_Some (resolveUrl u base)) ->
      controllers (fst r) ⊆ inFlightControllers (fst r)
      /\ armed (fst r) ⊆ inFlightControllers (fst r)
      /\ (inFlight (fst r) = [] ->
          controllers (fst r) = [] /\ armed (fst r) = [])).
Proof.
  cbv zeta. split.
  - apply (settlesOnce_run rt stringify resolveUrl es (new o) (numbered_new o)).
  - intros Hurl.
    destruct (tidy_run rt stringify resolveUrl Hurl es (new o)) as [Hc Ha].
    { split; intros x Hx; now apply elem_of_nil in Hx. }
    unfold tidy in Hc. split; [exact Hc|]. split; [exact Ha|].
    intros Hnone. unfold inFlightControllers in Hc, Ha.
    rewrite Hnone in Hc, Ha. split.
    + destruct (controllers _) as [|x l]; [reflexivity|].
      exfalso. eapply elem_of_nil, Hc. now left.
    + destruct (armed _) as [|x l]; [reflexivity|].
      exfalso. eapply elem_of_nil, Ha. now left.
Qed.

(** A URL that does not resolve: the promise is rejected with the
    [TypeError] of [new URL], and the controller and the timer stay. *)
Lemma http_unresolved_url_leaves_controller :
  let r :=
    Http.run nullRuntime showJson (fun _ _ => None)
      [CallRequest GET "/remote/info" JsUndefined None] (new no_options) in
  snd r = [SetTimeout 0 15000; Settle 0 ThrewTypeError]
  /\ controllers (fst r) = [0%nat]
  /\ armed (fst r) = [0%nat]
  /\ inFlight (fst r) = [].
Proof. vm_compute. auto. Qed.

(** * Properties of the client *)

Import Js Client.

(** ** The client's requests and the choice of transport *)

Section Parsing.

Let nonEmpty (s : string) : bool := negb (String.eqb s "").

Lemma nonEmpty_false s : negb (String.eqb s "") = false <-> s = ""%string.
Proof. destruct (String.eqb_spec s ""); cbn; split; congruence. Qed.

Lemma parse_call o f p tr :
  strictObject ObjectCallRequestSchema (callLiteral o f p tr)
  = if nonEmpty o && nonEmpty f
    then Some (JsObject (callLiteral o f p tr)) else None.
Proof. destruct p, tr as [[]|], o, f; vm_compute; reflexivity. Qed.

Lemma parse_property o p a :
  strictObject ObjectPropertyRequestSchema (propertyLiteral o p a)
  = if nonEmpty o && nonEmpty p
    then Some (JsObject (propertyLiteral o p a)) else None.
Proof. destruct a, o, p; vm_compute; reflexivity. Qed.

Lemma parse_properties o a :
  strictObject ObjectPropertyRequestSchema (propertiesLiteral o a)
  = if nonEmpty o then Some (JsObject (propertiesLiteral o a)) else None.
Proof. destruct a, o; vm_compute; reflexivity. Qed.

Lemma parse_setProperty o p v a :
  strictObject ObjectPropertyRequestSchema (setPropertyLiteral o p v a)
  = if nonEmpty o && nonEmpty p
    then Some (JsObject (setPropertyLiteral o p v a)) else None.
Proof. destruct a, o, p, v; vm_compute; reflexivity. Qed.

Lemma parse_describe o :
  strictObject ObjectDescribeRequestSchema (describeLiteral o)
  = if nonEmpty o then Some (JsObject (describeLiteral o)) else None.
Proof. destruct o; vm_compute; reflexivity. Qed.

Lemma accessName_accepted a :
  accepts AccessModeSchema (JsString (accessName a)) = true.
Proof. now destruct a. Qed.

End Parsing.

Lemma add_object v u fields requests :
  u <> ""%string ->
  Batch.add v u (JsObject fields) requests
  = Some (Z.of_nat (length requests),
          requests ++ [ {| Batch.RequestId := Z.of_nat (length requests);
                           Batch.URL := u; Batch.Verb := v;
                           Batch.Body := Some (JsObject fields) |} ]).
Proof.
  intros Hu. unfold Batch.add.
  now destruct (String.eqb_spec u "").
Qed.

Lemma empty_names_are_refused_get o f (options : option GetPropertyOptions) :
  (o = "" \/ f = "" <-> getProperty o f options = None)%string.
Proof.
  unfold getProperty. rewrite parse_property, <- !nonEmpty_false.
  destruct (negb (String.eqb o "")), (negb (String.eqb f ""));
    cbn; intuition congruence.
Qed.

(** X18.  A sub-call put into a batch is the request the client's own
    method would have sent: [BatchBuilder.call], [getProperty],
    [setProperty] and [describe] append the verb, URL and body of
    [UnrealRC]'s method of the same name under the identifier
    [requests.length], and throw, appending nothing, exactly where that
    method throws. *)
Theorem builder_mirrors_client requests o f p v
  (callOptions : option CallOptions)
  (getOptions : option GetPropertyOptions)
  (setOptions : option SetPropertyOptions)
  (describeOptions : option DescribeOptions) :
  mirrors (call o f p callOptions)
    (BatchBuilder.call o f p (field call_transaction callOptions) requests)
    requests
  /\ mirrors (getProperty o f getOptions)
       (BatchBuilder.getProperty o f (field get_access getOptions) requests)
       requests
  /\ mirrors (setProperty o f v setOptions)
       (BatchBuilder.setProperty o f v (field set_access setOptions)
          (field set_transaction setOptions) requests)
       requests
  /\ mirrors (describe o describeOptions)
       (BatchBuilder.describe o requests) requests.
Proof.
  unfold mirrors, call, getProperty, setProperty, describe,
    BatchBuilder.call, BatchBuilder.getProperty, BatchBuilder.setProperty,
    BatchBuilder.describe.
  cbv zeta.
  rewrite accessName_accepted, parse_call, !parse_property, !parse_setProperty,
    !parse_describe.
  repeat split.
  - destruct (_ && _); [|reflexivity]. now apply add_object.
  - destruct (_ && _); [|reflexivity]. now apply add_object.
  - destruct (_ && _); [|reflexivity]. now apply add_object.
  - destruct (negb _); [|reflexivity]. now apply add_object.
Qed.

(** X19.  A request with an empty object path, function name or property
    name is refused before anything is sent, and any other request is
    sent: [parse] throws exactly on the empty string. *)
Theorem empty_names_are_refused o f p v
  (callOptions : option CallOptions)
  (getOptions : option GetPropertyOptions)
  (setOptions : option SetPropertyOptions)
  (describeOptions : option DescribeOptions) :
  (call o f p callOptions = None <-> o = "" \/ f = "")%string
  /\ (getProperty o f getOptions = None <-> o = "" \/ f = "")%string
  /\ (getProperties o getOptions = None <-> o = "")%string
  /\ (setProperty o f v setOptions = None <-> o = "" \/ f = "")%string
  /\ (describe o describeOptions = None <-> o = "")%string.
Proof.
  unfold call, getProperty, getProperties, setProperty, describe.
  cbv zeta.
  rewrite parse_call, parse_property, parse_properties, parse_setProperty,
    parse_describe.
  rewrite <- !nonEmpty_false.
  repeat split;
    destruct (negb (String.eqb o "")), (negb (String.eqb f ""));
    cbn; intros; try congruence; try tauto; intuition congruence.
Qed.

(** X20.  The access mode a property request carries: [getProperty] reads
    with the mode asked for and with READ_ACCESS otherwise; [setProperty]
    never carries READ_ACCESS, an
    explicit [access] wins over [transaction], and without one
    [transaction: true] gives WRITE_TRANSACTION_ACCESS and anything else
    WRITE_ACCESS.  The body names the object, the property and, for a
    write, the value as they were given. *)
Theorem property_access_mode o f v
  (getOptions : option GetPropertyOptions)
  (setOptions : option SetPropertyOptions) :
  o <> ""%string -> f <> ""%string ->
  (exists fields,
      getProperty o f getOptions
      = Some {| verb := Ws.PUT; url := "/remote/object/property";
                body := JsObject fields;
                timeoutMs := field get_timeoutMs getOptions |}
      /\ fields !! "objectPath"%string = Some (JsString o)
      /\ fields !! "propertyName"%string = Some (JsString f)
      /\ fields !! "propertyValue"%string = None
      /\ fields !! "access"%string
         = Some (JsString
                   (accessName
                      (default READ_ACCESS (field get_access getOptions)))))
  /\ (exists fields mode,
      setProperty o f v setOptions
      = Some {| verb := Ws.PUT; url := "/remote/object/property";
                body := JsObject fields;
                timeoutMs := field set_timeoutMs setOptions |}
      /\ fields !! "objectPath"%string = Some (JsString o)
      /\ fields !! "propertyName"%string = Some (JsString f)
      /\ fields !! "propertyValue"%string = Some v
      /\ fields !! "access"%string = Some (JsString (accessName mode))
      /\ mode <> READ_ACCESS
      /\ mode
         = match field set_access setOptions with
           | Some a => writable a
           | None =>
               match field set_transaction setOptions with
               | Some true => WRITE_TRANSACTION_ACCESS
               | _ => WRITE_ACCESS
               end
           end).
Proof.
  intros Ho Hf.
  assert (negb (String.eqb o "") = true) as Ho'
    by now destruct (String.eqb_spec o "").
  assert (negb (String.eqb f "") = true) as Hf'
    by now destruct (String.eqb_spec f "").
  unfold getProperty, setProperty. cbv zeta.
  rewrite parse_property, parse_setProperty, Ho', Hf'. cbn [andb].
  split.
  - eexists. split; [reflexivity|].
    unfold propertyLiteral. now repeat split.
  - exists (setPropertyLiteral o f v
              (setPropertyAccess (field set_access setOptions)
                 (field set_transaction setOptions))),
      (setPropertyAccess (field set_access setOptions)
         (field set_transaction setOptions)).
    split; [reflexivity|].
    unfold setPropertyLiteral, setPropertyAccess.
    repeat split.
    + destruct (field set_access setOptions) as [[]|];
        [discriminate..|].
      now destruct (default false _).
    + destruct (field set_access setOptions); [reflexivity|].
      now destruct (field set_transaction setOptions) as [[]|].
Qed.

Lemma property_access_mode_witness :
  exists s,
    setProperty "/Game/Map.Map:Light" "Intensity" (JsNum (Finite 5))
      (Some {| set_access := Some Writable_WRITE_ACCESS;
               set_transaction := Some true; set_timeoutMs := None |})
    = Some s
    /\ exists fields,
         body s = JsObject fields
         /\ fields !! "access"%string = Some (JsString "WRITE_ACCESS").
Proof.
  destruct (property_access_mode "/Game/Map.Map:Light" "Intensity"
              (JsNum (Finite 5)) None
              (Some {| set_access := Some Writable_WRITE_ACCESS;
                       set_transaction := Some true;
                       set_timeoutMs := None |}))
    as [_ (fields & mode & Hs & _ & _ & _ & Ha & _ & Hm)];
    [discriminate | discriminate |].
  eexists. split; [exact Hs|].
  exists fields. split; [reflexivity|].
  rewrite Ha, Hm. reflexivity.
Defined.

(** X14.  What [getProperty] returns. With an empty object path or
    property name it throws before anything is sent. Otherwise an error
    of the transport is passed on. On a client that validates responses,
    as it does unless told otherwise, a response that is no plain object
    ([undefined], [null], a boolean, number, string or array) is refused
    by the response schema. On an object the result is the own property
    under the property's name when that is neither [null] nor
    [undefined]; when it is, or when there is no such property, the
    result is the [ReturnValue] property; a name that the response has
    only from its prototype gives that inherited member. On a client
    that does not validate, a response that is no object or array gives
    [undefined], and an array is read like an object. *)
Theorem getProperty_named_then_ReturnValue
  {E : Type} inherits validateResponses objectPath propertyName options
  (answer : Answer E) :
  let result :=
    getPropertyOutcome inherits validateResponses objectPath propertyName
      options answer in
  let validating := default true validateResponses in
  (objectPath = "" \/ propertyName = "" -> result = RequestRefused)%string
  /\ (objectPath <> "" -> propertyName <> "" ->
      match answer with
      | Failed error => result = TransportFailed error
      | Answered (JsObject fields) =>
          result
          = Returned
              match fields !! propertyName with
              | Some JsNull | Some JsUndefined =>
                  Helpers.member inherits (JsObject fields) "ReturnValue"
              | Some v => Helpers.Value v
              | None =>
                  if inherits (JsObject fields) propertyName
                  then Helpers.Inherited propertyName
                  else Helpers.member inherits (JsObject fields) "ReturnValue"
              end
      | Answered (JsArray items) =>
          result
          = if validating then ResponseRefused
            else Returned
                   (Helpers.namedOrReturnValue inherits (JsArray items)
                      propertyName)
      | Answered _ =>
          result
          = if validating then ResponseRefused
            else Returned (Helpers.Value JsUndefined)
      end)%string.
Proof.
  cbv zeta. unfold getPropertyOutcome.
  pose proof (empty_names_are_refused_get objectPath propertyName options)
    as Hrefused.
  split.
  - intros Hempty. apply Hrefused in Hempty. now rewrite Hempty.
  - intros Ho Hn.
    destruct (getProperty objectPath propertyName options) eqn:Hsent;
      [|exfalso; destruct (proj2 Hrefused eq_refl); contradiction].
    destruct answer as [raw|error]; [|reflexivity].
    unfold send, ObjectPropertyResponseSchema.
    destruct raw; destruct (default true validateResponses); cbn [negb];
      try reflexivity;
      rewrite (namedOrReturnValue_cases inherits _ propertyName Hn);
      reflexivity.
Qed.

Lemma getProperty_named_then_ReturnValue_witness :
  let plain : JsValue -> string -> bool := fun _ _ => false in
  let seven := JsNum (Finite 7) in
  getPropertyOutcome (E := unit) plain None "/Game/Map.Map:Light" "Intensity"
    None
    (Answered
       (JsObject {[ "Intensity"%string := JsNull;
                    "ReturnValue"%string := seven ]}))
  = Returned (Helpers.Value seven)
  /\ getPropertyOutcome (E := unit) plain None "/Game/Map.Map:Light"
       "Intensity" None (Answered (JsArray [seven]))
     = ResponseRefused.
Proof.
  cbv zeta. split.
  - refine (proj2 (getProperty_named_then_ReturnValue (E := unit)
                     (fun _ _ => false) None "/Game/Map.Map:Light" "Intensity"
                     None
                     (Answered
                        (JsObject {[ "Intensity"%string := JsNull;
                                     "ReturnValue"%string := JsNum (Finite 7) ]})))
              _ _); discriminate.
  - refine (proj2 (getProperty_named_then_ReturnValue (E := unit)
                     (fun _ _ => false) None "/Game/Map.Map:Light" "Intensity"
                     None (Answered (JsArray [JsNum (Finite 7)])))
              _ _); discriminate.
Defined.

(** X21.  Which transport a client is built on.  A transport object is
    used as it is.  Otherwise the name decides, and no name means the
    WebSocket transport.  The address is [ws.baseUrl] (or [http.baseUrl],
    less one closing slash) when that is given, and then the top-level
    host, port and secure are not looked at; otherwise it is made of the
    top-level host, port and secure, each falling back to the one of
    [ws] (or [http]) and then to 127.0.0.1, 30020 (30010 for HTTP) and
    the plain scheme.  Every other setting is the one the transport's own
    options give. *)
Theorem createTransport_precedence {T : Type} (options : UnrealRCOptions T) :
  match opt_transport options with
  | Some (given transport) => createTransport options = Custom transport
  | Some http_transport =>
      let own := default Http.no_options (opt_http options) in
      exists t,
        createTransport options = CreatedHttp t
        /\ Http.baseUrl t
           = match Http.opt_baseUrl own with
             | Some b => Http.stripTrailingSlash b
             | None =>
                 (if default (default false (Http.opt_secure own))
                       (opt_secure options)
                  then "https" else "http")
                 +:+ "://"
                 +:+ default (default "127.0.0.1" (Http.opt_host own))
                       (opt_host options)
                 +:+ ":"
                 +:+ pretty (default (default 30010 (Http.opt_port own))
                               (opt_port options))
             end
        /\ Http.requestTimeoutMs t = Http.requestTimeoutMs (Http.new own)
        /\ Http.headers t = Http.headers (Http.new own)
        /\ Http.inFlight t = [] /\ Http.controllers t = []
  | Some ws_transport | None =>
      let own := default Ws.no_options (opt_ws options) in
      exists t,
        createTransport options = CreatedWs t
        /\ Ws.url (Ws.options t)
           = match Ws.opt_baseUrl own with
             | Some b => b
             | None =>
                 (if default (default false (Ws.opt_secure own))
                       (opt_secure options)
                  then "wss" else "ws")
                 +:+ "://"
                 +:+ default (default "127.0.0.1" (Ws.opt_host own))
                       (opt_host options)
                 +:+ ":"
                 +:+ pretty (default (default 30020 (Ws.opt_port own))
                               (opt_port options))
             end
        /\ t = Ws.new
                 {| Ws.opt_baseUrl := Some (Ws.url (Ws.options t));
                    Ws.opt_host := Ws.opt_host own;
                    Ws.opt_port := Ws.opt_port own;
                    Ws.opt_secure := Ws.opt_secure own;
                    Ws.opt_connectTimeoutMs := Ws.opt_connectTimeoutMs own;
                    Ws.opt_requestTimeoutMs := Ws.opt_requestTimeoutMs own;
                    Ws.opt_pingIntervalMs := Ws.opt_pingIntervalMs own;
                    Ws.opt_autoReconnect := Ws.opt_autoReconnect own;
                    Ws.opt_reconnectInitialDelayMs :=
                      Ws.opt_reconnectInitialDelayMs own;
                    Ws.opt_reconnectMaxDelayMs :=
                      Ws.opt_reconnectMaxDelayMs own;
                    Ws.opt_reconnectBackoffFactor :=
                      Ws.opt_reconnectBackoffFactor own;
                    Ws.opt_disconnectedBehavior :=
                      Ws.opt_disconnectedBehavior own;
                    Ws.opt_maxQueueSize := Ws.opt_maxQueueSize own |}
  end.
Proof.
  assert (forall o : UnrealRCOptions T,
    let own := default Ws.no_options (opt_ws o) in
    exists t, @CreatedWs T (Ws.new (wsOptions o)) = CreatedWs t
      /\ Ws.url (Ws.options t)
         = match Ws.opt_baseUrl own with
           | Some b => b
           | None =>
               (if default (default false (Ws.opt_secure own)) (opt_secure o)
                then "wss" else "ws")
               +:+ "://"
               +:+ default (default "127.0.0.1" (Ws.opt_host own))
                     (opt_host o)
               +:+ ":"
               +:+ pretty (default (default 30020 (Ws.opt_port own))
                             (opt_port o))
           end
      /\ t = Ws.new
               {| Ws.opt_baseUrl := Some (Ws.url (Ws.options t));
                  Ws.opt_host := Ws.opt_host own;
                  Ws.opt_port := Ws.opt_port own;
                  Ws.opt_secure := Ws.opt_secure own;
                  Ws.opt_connectTimeoutMs := Ws.opt_connectTimeoutMs own;
                  Ws.opt_requestTimeoutMs := Ws.opt_requestTimeoutMs own;
                  Ws.opt_pingIntervalMs := Ws.opt_pingIntervalMs own;
                  Ws.opt_autoReconnect := Ws.opt_autoReconnect own;
                  Ws.opt_reconnectInitialDelayMs :=
                    Ws.opt_reconnectInitialDelayMs own;
                  Ws.opt_reconnectMaxDelayMs :=
                    Ws.opt_reconnectMaxDelayMs own;
                  Ws.opt_reconnectBackoffFactor :=
                    Ws.opt_reconnectBackoffFactor own;
                  Ws.opt_disconnectedBehavior :=
                    Ws.opt_disconnectedBehavior own;
                  Ws.opt_maxQueueSize := Ws.opt_maxQueueSize own |}) as Hws.
  { intros o own. eexists. split; [reflexivity|].
    unfold Ws.new, wsOptions. cbn. fold own.
    unfold field, DEFAULT_WS_PORT, Ws.DEFAULT_HOST.
    subst own.
    destruct (opt_ws o) as [w|], (opt_host o), (opt_port o), (opt_secure o);
      cbn; split;
      repeat match goal with
             | |- context [Ws.opt_baseUrl ?w] => destruct (Ws.opt_baseUrl w)
             | |- context [Ws.opt_host ?w] => destruct (Ws.opt_host w)
             | |- context [Ws.opt_port ?w] => destruct (Ws.opt_port w)
             | |- context [Ws.opt_secure ?w] => destruct (Ws.opt_secure w)
             end; reflexivity. }
  unfold createTransport.
  destruct (opt_transport options) as [[| |transport]|];
    [apply Hws | | reflexivity | apply Hws].
  cbv zeta. eexists. split; [reflexivity|].
  unfold Http.new, httpOptions. cbn.
  unfold field, DEFAULT_HTTP_PORT, Http.DEFAULT_HOST.
  destruct (opt_http options) as [w|], (opt_host options),
    (opt_port options), (opt_secure options); cbn;
    repeat match goal with
           | |- context [Http.opt_baseUrl ?w] => destruct (Http.opt_baseUrl w)
           | |- context [Http.opt_host ?w] => destruct (Http.opt_host w)
           | |- context [Http.opt_port ?w] => destruct (Http.opt_port w)
           | |- context [Http.opt_secure ?w] => destruct (Http.opt_secure w)
           end; repeat split; reflexivity.
Qed.
